(** * kitcat: reset, stash and interactive rebase

    A shallow embedding of [internal/core/reset.go] ([Reset], [resetIndex],
    [resetWorkspace]), of the stash and rebase operations of
    [internal/core/stash.go] ([StashPush], [StashPop], [StashApply],
    [RebaseInteractive], [RunRebaseLoop], [cherryPick], [getChanges],
    [applyChanges], [getCommitsBetween] and what they call) and of
    [RemoveFile], over an explicit repository state.

    The repository lives in the [.kitcat] directory; every operation of the
    Go code reads and writes files there and in the working tree.  The
    embedding passes that state explicitly ([Repo]) and returns Go's [error]
    results as values ([result]).

    Conventions of the model:
    - the file system is reliable: a read or a write fails only for a reason
      that shows in the state, a file or a directory that is not there;
    - standard output is not part of the state: a [fmt.Printf] is kept only
      where evaluating its arguments can panic;
    - package [storage] and the other files of package [core] are not among
      the sources embedded here: their operations are modelled from the
      specification, or taken from an environment ([Env]) where the
      specification leaves them open;
    - the order in which Go ranges over a map is taken from the
      environment. *)

From Stdlib Require Import Ascii Lia.
From stdpp Require Import base option list gmap strings pretty fin_maps.

(** ** Go's [strings] package, on byte strings

    White space is the ASCII white space of Go's fast path (tab, line feed,
    vertical tab, form feed, carriage return, space). *)
Module strings.

Fixpoint HasPrefix (s p : string) : bool :=
  match p with
  | EmptyString => true
  | String c p' =>
      match s with
      | EmptyString => false
      | String d s' => if decide (c = d) then HasPrefix s' p' else false
      end
  end.

Fixpoint Contains (s sub : string) : bool :=
  HasPrefix s sub
  || match s with
     | EmptyString => false
     | String _ s' => Contains s' sub
     end.

Fixpoint TrimLeft (s : string) : string :=
  match s with
  | EmptyString => EmptyString
  | String c s' => if Ascii.is_space c then TrimLeft s' else s
  end.

Fixpoint TrimRight (s : string) : string :=
  match s with
  | EmptyString => EmptyString
  | String c s' =>
      match TrimRight s' with
      | EmptyString => if Ascii.is_space c then EmptyString else String c EmptyString
      | t => String c t
      end
  end.

Definition TrimSpace (s : string) : string := TrimRight (TrimLeft s).

(** [strings.Fields]: the maximal runs of non-space bytes. *)
Definition Fields (s : string) : list string := String.words s.

(** [strings.Split(s, "\n")]. *)
Fixpoint SplitLines_go (cur : string) (s : string) : list string :=
  match s with
  | EmptyString => [String.rev cur]
  | String c s' =>
      if decide (c = "010"%char)
      then String.rev cur :: SplitLines_go EmptyString s'
      else SplitLines_go (String c cur) s'
  end.
Definition SplitLines (s : string) : list string := SplitLines_go EmptyString s.

(** [s[:n]]: [None] stands for the run-time panic of a slice out of range. *)
Fixpoint slice_to (n : nat) (s : string) : option string :=
  match n with
  | O => Some EmptyString
  | S n' =>
      match s with
      | EmptyString => None
      | String c s' => String c <$> slice_to n' s'
      end
  end.

End strings.

(** The line feed of Go's ["\n"]. *)
Definition nl : string := String "010"%char EmptyString.

(** ** Errors and results *)

(** Go [error] values: the two sentinels of package [storage] that the code
    compares against with [==], and errors made by [fmt.Errorf]. *)
Inductive error : Type :=
| ErrNoCommits
| ErrNoStash
| Errorf (msg : string).

Global Instance error_eq_dec : EqDecision error.
Proof. solve_decision. Defined.

(** What a call returns: a value, a non-nil [error], a run-time panic, or
    [Timeout] when a loop of the model ran out of fuel. *)
Inductive result (A : Type) : Type :=
| Ok (a : A)
| Err (e : error)
| Panic (msg : string)
| Timeout.
Global Arguments Ok {A} a.
Global Arguments Err {A} e.
Global Arguments Panic {A} msg.
Global Arguments Timeout {A}.

Definition is_nil {A} (r : result A) : bool :=
  match r with Ok _ => true | _ => false end.

Definition is_err {A} (r : result A) : bool :=
  match r with Err _ => true | _ => false end.

(** ** Data model *)

Record Commit : Type := mkCommit {
  ID : string;
  Parent : string;
  Message : string;
  TreeHash : string;
  AuthorName : string;
  AuthorEmail : string;
  Timestamp : string
}.

Definition zeroCommit : Commit :=
  mkCommit EmptyString EmptyString EmptyString EmptyString EmptyString EmptyString EmptyString.

Record RebaseState : Type := mkRebaseState {
  HeadName : string;
  Onto : string;
  OrigHead : string;
  TodoSteps : list string;
  CurrentStep : nat
}.

Record Change : Type := mkChange {
  OldHash : string;
  NewHash : string
}.

(** The files the operations touch.  Paths of the working tree and the files
    under [.kitcat] are kept apart: a tracked path never names a file of the
    repository directory. *)
Record Repo : Type := mkRepo {
  repo_dir : bool;                       (* [.kitcat] exists *)
  HEAD : option string;                  (* content of [.kitcat/HEAD] *)
  refs : gmap string string;             (* [.kitcat/<name>], e.g. refs/heads/main *)
  commits : list Commit;                 (* [.kitcat/commits.log] *)
  objects : gmap string string;          (* object store: digest to bytes *)
  index : gmap string string;            (* index file: path to blob digest *)
  worktree : gmap string string;         (* working tree: path to content *)
  stash : list string;                   (* [.kitcat/refs/stash], newest first *)
  rebase_state : option RebaseState;     (* present while a rebase is in progress *)
  rebase_todo : option string;           (* [.kitcat/rebase-todo] *)
  commit_editmsg : option string         (* [.kitcat/COMMIT_EDITMSG] *)
}.

Definition set_repo_dir (v : bool) (w : Repo) : Repo :=
  mkRepo v (HEAD w) (refs w) (commits w) (objects w) (index w) (worktree w)
         (stash w) (rebase_state w) (rebase_todo w) (commit_editmsg w).
Definition set_HEAD (v : option string) (w : Repo) : Repo :=
  mkRepo (repo_dir w) v (refs w) (commits w) (objects w) (index w) (worktree w)
         (stash w) (rebase_state w) (rebase_todo w) (commit_editmsg w).
Definition set_refs (v : gmap string string) (w : Repo) : Repo :=
  mkRepo (repo_dir w) (HEAD w) v (commits w) (objects w) (index w) (worktree w)
         (stash w) (rebase_state w) (rebase_todo w) (commit_editmsg w).
Definition set_commits (v : list Commit) (w : Repo) : Repo :=
  mkRepo (repo_dir w) (HEAD w) (refs w) v (objects w) (index w) (worktree w)
         (stash w) (rebase_state w) (rebase_todo w) (commit_editmsg w).
Definition set_objects (v : gmap string string) (w : Repo) : Repo :=
  mkRepo (repo_dir w) (HEAD w) (refs w) (commits w) v (index w) (worktree w)
         (stash w) (rebase_state w) (rebase_todo w) (commit_editmsg w).
Definition set_index (v : gmap string string) (w : Repo) : Repo :=
  mkRepo (repo_dir w) (HEAD w) (refs w) (commits w) (objects w) v (worktree w)
         (stash w) (rebase_state w) (rebase_todo w) (commit_editmsg w).
Definition set_worktree (v : gmap string string) (w : Repo) : Repo :=
  mkRepo (repo_dir w) (HEAD w) (refs w) (commits w) (objects w) (index w) v
         (stash w) (rebase_state w) (rebase_todo w) (commit_editmsg w).
Definition set_stash (v : list string) (w : Repo) : Repo :=
  mkRepo (repo_dir w) (HEAD w) (refs w) (commits w) (objects w) (index w) (worktree w)
         v (rebase_state w) (rebase_todo w) (commit_editmsg w).
Definition set_rebase_state (v : option RebaseState) (w : Repo) : Repo :=
  mkRepo (repo_dir w) (HEAD w) (refs w) (commits w) (objects w) (index w) (worktree w)
         (stash w) v (rebase_todo w) (commit_editmsg w).
Definition set_rebase_todo (v : option string) (w : Repo) : Repo :=
  mkRepo (repo_dir w) (HEAD w) (refs w) (commits w) (objects w) (index w) (worktree w)
         (stash w) (rebase_state w) v (commit_editmsg w).
Definition set_commit_editmsg (v : option string) (w : Repo) : Repo :=
  mkRepo (repo_dir w) (HEAD w) (refs w) (commits w) (objects w) (index w) (worktree w)
         (stash w) (rebase_state w) (rebase_todo w) v.

(** ** The monad of repository operations

    An operation runs on a repository and leaves one behind, also when it
    fails: what was written before the failure stays written. *)
Definition M (A : Type) : Type := Repo → result A * Repo.

Global Instance M_ret : MRet M := fun A a w => (Ok a, w).

Global Instance M_bind : MBind M := fun A B f m w =>
  match m w with
  | (Ok a, w') => f a w'
  | (Err e, w') => (Err e, w')
  | (Panic p, w') => (Panic p, w')
  | (Timeout, w') => (Timeout, w')
  end.

Definition fail {A} (e : error) : M A := fun w => (Err e, w).
Definition panic {A} (msg : string) : M A := fun w => (Panic msg, w).
Definition timeout {A} : M A := fun w => (Timeout, w).
Definition gets {A} (f : Repo → A) : M A := fun w => (Ok (f w), w).
Definition modify (f : Repo → Repo) : M unit := fun w => (Ok tt, f w).

(** [if err != nil { return h(err) }] around a call. *)
Definition on_err {A} (h : error → error) (m : M A) : M A :=
  fun w =>
    match m w with
    | (Err e, w') => (Err (h e), w')
    | r => r
    end.

(** [x, _ := f()]: the error is dropped and [x] keeps the value [d] that the
    callee returns beside its error. *)
Definition ignore_err {A} (d : A) (m : M A) : M A :=
  fun w =>
    match m w with
    | (Err _, w') => (Ok d, w')
    | r => r
    end.

(** A pure query of the repository that may fail. *)
Definition query {A} (f : Repo → error + A) : M A :=
  fun w => match f w with inl e => (Err e, w) | inr a => (Ok a, w) end.

(** [for _, x := range l { body }] with early return on error. *)
Fixpoint for_each {A} (l : list A) (body : A → M unit) : M unit :=
  match l with
  | [] => mret tt
  | x :: l' => body x;; for_each l' body
  end.

(** [err := f(); if err != nil { ... }] where the branch goes on running:
    the error becomes a value. *)
Definition try (m : M unit) : M (option error) :=
  fun w =>
    match m w with
    | (Ok _, w') => (Ok None, w')
    | (Err e, w') => (Ok (Some e), w')
    | (Panic p, w') => (Panic p, w')
    | (Timeout, w') => (Timeout, w')
    end.

(** [x, err := f(); if err == nil { ... }]: the value when there is one. *)
Definition try_get {A} (m : M A) : M (option A) :=
  fun w =>
    match m w with
    | (Ok a, w') => (Ok (Some a), w')
    | (Err e, w') => (Ok None, w')
    | (Panic p, w') => (Panic p, w')
    | (Timeout, w') => (Timeout, w')
    end.

(** Modelled from the spec: the texts of [storage.ErrNoCommits] and
    [storage.ErrNoStash], which package [storage] declares (spec: "no commits
    yet", "NoStashEntries"). *)
Definition Error (e : error) : string :=
  match e with
  | ErrNoCommits => "no commits yet"
  | ErrNoStash => "no stash entries"
  | Errorf msg => msg
  end.

(** [fmt.Errorf(ctx + "%w", err)]. *)
Definition wrap (ctx : string) (e : error) : error := Errorf (ctx +:+ Error e).

(** ** The environment

    What the code takes from outside the files modelled here: the codecs and
    digests of package [storage], the external collaborators of the spec
    (path safety, dirty check, configuration, editor), Go's [filepath.Clean],
    the order in which Go ranges over a map, and the operations of package
    [core] the spec does not describe. *)
Record Env : Type := mkEnv {
  (* package storage: the tree codec and the digest of the object store *)
  decode_tree : string → option (gmap string string);
  encode_tree : gmap string string → string;
  digest : string → string;
  (* package core: the digest of a commit, and crypto/sha1 in hexadecimal *)
  hashCommit : Commit → string;
  sha1 : string → string;
  (* path/filepath.Clean *)
  Clean : string → string;
  (* the external collaborators of the spec *)
  IsSafePath : string → bool;
  IsWorkDirDirty : Repo → error + bool;
  (* package core: the readers of HEAD *)
  GetHeadCommit : Repo → error + Commit;
  GetHeadState : Repo → error + string;
  readHead : Repo → error + string;
  (* configuration lookup and the clock *)
  GetConfig : Repo → string → string;
  now : string;
  (* the order of [for ... range] over a map *)
  range_paths : gmap string string → list (string * string);
  range_changes : gmap string Change → list (string * Change);
  (* the process environment: [os.Getenv("EDITOR")], [runtime.GOOS],
     whether [exec.LookPath] finds a program, and the run of an editor with
     its arguments on a file, which gives the new content of the file *)
  Getenv_EDITOR : string;
  GOOS : string;
  LookPath : string → bool;
  run_editor : string → list string → string → error + string;
  (* package core: [Commit] and [UpdateBranchPointer] *)
  core_Commit : string → M (Commit * string);
  UpdateBranchPointer : string → M unit
}.

(** Go ranges over a map in an order of its own choosing: every entry once. *)
Record range_ok (env : Env) : Prop := mkRangeOk {
  range_paths_perm : ∀ m, range_paths env m ≡ₚ map_to_list m;
  range_changes_perm : ∀ m, range_changes env m ≡ₚ map_to_list m
}.

(** ** Package [storage] *)
Section storage.
Variable env : Env.

(** Modelled from the spec: [IsRepoInitialized], the presence of the
    "repository-root marker directory". *)
Definition IsRepoInitialized : M bool := gets repo_dir.

(** Modelled from the spec: [storage.FindCommit], "find_commit(id_or_prefix)
    -> Commit: fails with UnknownCommit if no match; supports unique
    short-prefix resolution".  The commit log is a file of [.kitcat]. *)
Definition FindCommit (h : string) : M Commit :=
  fun w =>
    if negb (repo_dir w)
    then (Err (Errorf "open .kitcat/commits.log: no such file or directory"), w)
    else
      match filter (λ c, ID c = h) (commits w) with
      | c :: _ => (Ok c, w)
      | [] =>
          match filter (λ c, strings.HasPrefix (ID c) h = true) (commits w) with
          | [c] => (Ok c, w)
          | _ => (Err (Errorf ("unknown commit: " +:+ h)), w)
          end
      end.

(** Modelled from the spec: [storage.ReadObject], "get(digest) -> bytes:
    fails with ObjectNotFound if absent". *)
Definition ReadObject (h : string) : M string :=
  fun w =>
    match objects w !! h with
    | Some b => (Ok b, w)
    | None => (Err (Errorf ("object not found: " +:+ h)), w)
    end.

(** Modelled from the spec: [storage.ParseTree], "parse_tree(digest) ->
    mapping: fails with CorruptObject if the stored bytes don't
    deserialize". *)
Definition ParseTree (h : string) : M (gmap string string) :=
  bytes ← ReadObject h;
  match decode_tree env bytes with
  | Some t => mret t
  | None => fail (Errorf ("corrupt object: " +:+ h))
  end.

(** Modelled from the spec: [storage.LoadIndex] and [storage.WriteIndex],
    the index "loaded from and persisted to a single file per
    repository". *)
Definition LoadIndex : M (gmap string string) := gets index.

Definition WriteIndex (idx : gmap string string) : M unit :=
  fun w =>
    if repo_dir w then (Ok tt, set_index idx w)
    else (Err (Errorf "open .kitcat/index: no such file or directory"), w).

(** Modelled from the spec: [storage.UpdateIndex], "load current index,
    apply a mutation function, persist only if the function succeeds".
    The Go mutator changes the map in place; here it returns it. *)
Definition UpdateIndex (fn : gmap string string → M (gmap string string)) : M unit :=
  idx ← LoadIndex;
  idx' ← fn idx;
  WriteIndex idx'.

(** [os.ReadFile(".kitcat/HEAD")] and [os.WriteFile(".kitcat/HEAD", ...)]. *)
Definition ReadFile_HEAD : M string :=
  fun w =>
    match HEAD w with
    | Some d =>
        if repo_dir w then (Ok d, w)
        else (Err (Errorf "open .kitcat/HEAD: no such file or directory"), w)
    | None => (Err (Errorf "open .kitcat/HEAD: no such file or directory"), w)
    end.

Definition WriteFile_HEAD (data : string) : M unit :=
  fun w =>
    if repo_dir w then (Ok tt, set_HEAD (Some data) w)
    else (Err (Errorf "open .kitcat/HEAD: no such file or directory"), w).

(** [os.WriteFile(path, content)] and [os.Remove(path)] in the working
    tree. *)
Definition WriteFile_work (path content : string) : M unit :=
  modify (λ w, set_worktree (<[path := content]> (worktree w)) w).

Definition Remove_work (path : string) : M unit :=
  fun w =>
    match worktree w !! path with
    | Some _ => (Ok tt, set_worktree (delete path (worktree w)) w)
    | None => (Err (Errorf ("remove " +:+ path +:+ ": no such file or directory")), w)
    end.

(** Modelled from the spec: [UpdateWorkspaceAndIndex], the Workspace
    Synchronizer "sync_to(commit_id)": resolve the commit and parse its
    tree T; remove the paths tracked in the previous index but absent from
    T; write every blob of T to its path; replace the index with T. *)
Definition UpdateWorkspaceAndIndex (commitHash : string) : M unit :=
  commit ← FindCommit commitHash;
  T ← ParseTree (TreeHash commit);
  old ← LoadIndex;
  for_each (range_paths env (filter (λ kv, T !! kv.1 = None) old))
    (λ kv, _ ← try (Remove_work kv.1); mret tt);;
  for_each (range_paths env T)
    (λ kv, content ← ReadObject kv.2; WriteFile_work kv.1 content);;
  WriteIndex T.

End storage.

(** ** reset.go *)
Section reset.
Variable env : Env.

Definition ResetHard : string := "hard".
Definition ResetSoft : string := "soft".
Definition ResetMixed : string := "mixed".

(** [fmt.Printf("HEAD is now at %s %s\n", commitHash[:7], commit.Message)]:
    standard output is not part of the state, the slice can panic. *)
Definition Printf_short (h : string) : M unit :=
  match strings.slice_to 7 h with
  | Some _ => mret tt
  | None => panic "slice bounds out of range"
  end.

Definition resetIndex (commitHash : string) : M unit :=
  commit ← on_err (wrap "commit not found: ") (FindCommit commitHash);
  tree ← on_err (wrap ("failed to parse tree " +:+ TreeHash commit +:+ ": "))
                (ParseTree env (TreeHash commit));
  let index : gmap string string := tree ∪ ∅ in
  WriteIndex index.

Definition resetWorkspace (commitHash : string) : M unit :=
  UpdateWorkspaceAndIndex env commitHash.

(** The rollback of Go's [Reset] assigns the result of the second
    [os.WriteFile] to the same [err]: when the write succeeds, the error
    returned wraps nil. *)
Definition wrap_nil (ctx : string) : error := Errorf (ctx +:+ "%!w(<nil>)").

Definition Reset (commitHash mode : string) : M unit :=
  init ← IsRepoInitialized;
  if negb init
  then fail (Errorf "not a kitcat repository (or any of the parent directories): .kitcat")
  else
    commit ← on_err (λ _, Errorf ("fatal: invalid commit: " +:+ commitHash))
                    (FindCommit commitHash);
    headData ← on_err (wrap "fatal: unable to read HEAD: ") ReadFile_HEAD;
    let oldHead := strings.TrimSpace headData in
    on_err (wrap "failed to update HEAD: ") (WriteFile_HEAD commitHash);;
    if decide (mode = ResetSoft) then
      Printf_short commitHash
    else if decide (mode = ResetMixed) then
      err ← try (resetIndex commitHash);
      match err with
      | Some _ =>
          on_err (wrap "failed to update HEAD: ") (WriteFile_HEAD oldHead);;
          fail (wrap_nil "failed to reset index: ")
      | None => Printf_short commitHash
      end
    else if decide (mode = ResetHard) then
      err ← try (resetIndex commitHash);
      match err with
      | Some _ =>
          on_err (wrap "failed to update HEAD: ") (WriteFile_HEAD oldHead);;
          fail (wrap_nil "failed to reset index: ")
      | None =>
          err ← try (resetWorkspace commitHash);
          match err with
          | Some _ =>
              on_err (wrap "failed to update HEAD: ") (WriteFile_HEAD oldHead);;
              fail (wrap_nil "failed to reset workspace: ")
          | None => Printf_short commitHash
          end
      end
    else
      on_err (wrap "failed to update HEAD: ") (WriteFile_HEAD oldHead);;
      fail (Errorf ("unknown reset mode: " +:+ mode +:+ ". Use --soft, --mixed, or --hard")).

End reset.


(** ** Package [storage]: commit log, object store and stash stack *)
Section storage_stash.
Variable env : Env.

(** Modelled from the spec: [storage.ListStashes], [storage.PopStash] and
    [storage.PushStash]; "the stash stack is an ordered sequence of commit
    digests, index 0 = most recently pushed; push prepends, pop/drop
    removes by index", pop "fails with NoStashEntries if the stack is
    empty". *)
Definition ListStashes : M (list string) := gets stash.

Definition PopStash : M string :=
  fun w =>
    match stash w with
    | [] => (Err ErrNoStash, w)
    | top :: rest => (Ok top, set_stash rest w)
    end.

Definition PushStash (id : string) : M unit :=
  modify (λ w, set_stash (id :: stash w) w).

(** Modelled from the spec: [storage.AppendCommit], "appends to the commit
    log". *)
Definition AppendCommit (c : Commit) : M unit :=
  modify (λ w, set_commits (commits w ++ [c]) w).

(** Modelled from the spec: the object store's "put(bytes) -> digest:
    computes digest, writes content under a digest-derived path if absent
    (idempotent), returns digest". *)
Definition put (bytes : string) : M string :=
  fun w =>
    let d := digest env bytes in
    match objects w !! d with
    | Some _ => (Ok d, w)
    | None => (Ok d, set_objects (<[d := bytes]> (objects w)) w)
    end.

(** Modelled from the spec: [storage.HashAndStoreFile], which reads a file
    of the working tree and puts its content in the object store. *)
Definition HashAndStoreFile (path : string) : M string :=
  fun w =>
    match worktree w !! path with
    | Some content => put content w
    | None => (Err (Errorf ("open " +:+ path +:+ ": no such file or directory")), w)
    end.

(** Modelled from the spec: [storage.CreateTree], "create_tree(mapping) ->
    digest: serializes the mapping into a Tree object and stores it"; the
    mapping is the index on disk. *)
Definition CreateTree : M string :=
  idx ← LoadIndex;
  put (encode_tree env idx).

(** [os.Stat(path)] succeeds. *)
Definition Stat_ok (path : string) : M bool :=
  gets (λ w, bool_decide (is_Some (worktree w !! path))).

End storage_stash.

(** [for k, v := range m { ... }] whose body updates a local value. *)
Fixpoint fold_each {A S} (l : list A) (body : S → A → M S) (s : S) : M S :=
  match l with
  | [] => mret s
  | x :: l' => s' ← body s x; fold_each l' body s'
  end.

(** ** stash.go *)
Section stash.
Variable env : Env.

Definition not_a_repository : error :=
  Errorf "Fatal: current directory or any of the parent directories is not a kitcat repository.".

Definition StashApply (index : Z) : M unit :=
  init ← IsRepoInitialized;
  if negb init
  then fail (Errorf "fatal: not a kitcat repository (or any of the parent directories): .kitcat")
  else
    stashes ← on_err (wrap "failed to list stashes: ") ListStashes;
    if (index <? 0)%Z || (Z.of_nat (length stashes) <=? index)%Z
    then fail (Errorf ("invalid stash index: " +:+ pretty index))
    else
      match stashes !! Z.to_nat index with
      | None => panic "index out of range"
      | Some stashHash =>
          isDirty ← on_err (wrap "failed to check working directory status: ")
                           (query (IsWorkDirDirty env));
          if isDirty : bool
          then fail (Errorf ("error: your local changes would be overwritten by stash apply"
                             +:+ nl +:+
                             "Please commit your changes or stash them before you apply"))
          else
            on_err (wrap "failed to apply stash: ") (UpdateWorkspaceAndIndex env stashHash);;
            Printf_short stashHash
      end.

Definition StashPush (message : string) : M unit :=
  (* Step 1 *)
  init ← IsRepoInitialized;
  if negb init then fail not_a_repository
  else
    (* Step 2 *)
    headCommit ← on_err (λ err,
                    if bool_decide (err = ErrNoCommits)
                       || strings.Contains (Error err) "not found"
                    then Errorf "cannot stash: no commits yet"
                    else wrap "failed to get HEAD commit: " err)
                  (query (GetHeadCommit env));
    (* Step 3 *)
    isDirty ← on_err (wrap "failed to check working directory status: ")
                     (query (IsWorkDirDirty env));
    if negb isDirty then fail (Errorf "nothing to stash, working tree clean")
    else
      (* Step 4 *)
      branchName ← ignore_err "detached HEAD" (query (GetHeadState env));
      (* Step 5 *)
      index ← on_err (wrap "failed to load index: ") LoadIndex;
      index ← fold_each (range_paths env index)
                (λ (index : gmap string string) kv,
                   let path := kv.1 in
                   exists_ ← Stat_ok path;
                   if exists_ : bool then
                     hash ← on_err (wrap ("failed to hash file " +:+ path +:+ ": "))
                                   (HashAndStoreFile env path);
                     mret (<[path := hash]> index)
                   else mret index)
                index;
      on_err (wrap "failed to write updated index: ") (WriteIndex index);;
      (* Step 6 *)
      treeHash ← on_err (wrap "failed to create tree from index: ") (CreateTree env);
      (* Step 7 *)
      authorName ← gets (λ w, GetConfig env w "user.name");
      let authorName := if decide (authorName = EmptyString) then "Unknown" else authorName in
      authorEmail ← gets (λ w, GetConfig env w "user.email");
      let authorEmail :=
        if decide (authorEmail = EmptyString) then "unknown@example.com" else authorEmail in
      (* Step 8 *)
      let wipMessage :=
        if decide (message ≠ EmptyString)
        then "WIP on " +:+ branchName +:+ ": " +:+ message
        else "WIP on " +:+ branchName +:+ ": " +:+ Message headCommit in
      (* Step 9 *)
      let stashCommit :=
        mkCommit EmptyString (ID headCommit) wipMessage treeHash authorName authorEmail
                 (now env) in
      let stashCommit :=
        mkCommit (hashCommit env stashCommit) (Parent stashCommit) (Message stashCommit)
                 (TreeHash stashCommit) (AuthorName stashCommit) (AuthorEmail stashCommit)
                 (Timestamp stashCommit) in
      (* Step 10 *)
      on_err (wrap "failed to save stash commit: ") (AppendCommit stashCommit);;
      (* Step 11 *)
      on_err (wrap "failed to push stash: ") (PushStash (ID stashCommit));;
      (* Step 12 *)
      on_err (wrap "failed to reset workspace after stashing: ")
             (Reset env (ID headCommit) ResetHard).

Definition StashPop : M unit :=
  (* Step 1 *)
  init ← IsRepoInitialized;
  if negb init then fail not_a_repository
  else
    (* Step 2 *)
    stashHash ← on_err (λ err,
                   if bool_decide (err = ErrNoStash)
                   then Errorf "no stash entries found"
                   else wrap "failed to pop stash: " err)
                 PopStash;
    (* Step 3 *)
    stashCommit ← on_err (wrap "stash commit not found: ") (FindCommit stashHash);
    (* Step 4 *)
    isDirty ← on_err (wrap "failed to check working directory status: ")
                     (query (IsWorkDirDirty env));
    if isDirty : bool
    then fail (Errorf ("Error: your local changes would be overwritten by stash pop"
                       +:+ nl +:+
                       "Please commit your changes or stash them before you pop"))
    else
      (* Step 5 *)
      on_err (wrap "failed to apply stash: ") (UpdateWorkspaceAndIndex env stashHash);;
      (* Step 6: [getCurrentBranchName] only reads, the messages are printed *)
      Printf_short (ID stashCommit).

End stash.

(** ** Removing and staging files (package [core]) *)
Section files.
Variable env : Env.

(** [RemoveFile(filename, recursive)]. *)
Definition RemoveFile (filename : string) (recursive : bool) : M unit :=
  let filename := Clean env filename in
  if negb (IsSafePath env filename)
  then fail (Errorf ("unsafe path detected: " +:+ filename))
  else
    UpdateIndex (λ index : gmap string string,
      filesToRemove ←
        (if recursive then
           mret (omap (λ kv : string * string,
                         let trackedFile := kv.1 in
                         if bool_decide (trackedFile = filename)
                            || strings.HasPrefix trackedFile (filename +:+ "/")
                         then Some trackedFile else None)
                      (range_paths env index))
         else
           match index !! filename with
           | None => fail (Errorf ("pathspec '" +:+ filename +:+ "' did not match any files"))
           | Some _ => mret [filename]
           end);
      if bool_decide (length filesToRemove = 0)
      then fail (Errorf ("pathspec '" +:+ filename +:+ "' did not match any files"))
      else
        (* Step 1: remove files from disk (non-fatal if missing) *)
        for_each filesToRemove (λ filePath, _ ← try (Remove_work filePath); mret tt);;
        (* Step 2: remove from index *)
        mret (foldr delete index filesToRemove)).

(** Modelled from the spec: [AddFile], which stages a path, "write the new
    blob's content to disk and stage it in the Index": the file's content
    goes to the object store and its digest into the index. *)
Definition AddFile (path : string) : M unit :=
  hash ← HashAndStoreFile env path;
  UpdateIndex (λ index : gmap string string, mret (<[path := hash]> index)).

End files.

(** ** Package [core]: the persisted rebase state *)
Section rebase_state.

(** Modelled from the spec: [SaveRebaseState], [LoadRebaseState],
    [ClearRebaseState], [IsRebaseInProgress]; the RebaseState is "created
    by starting an interactive rebase, mutated by continue/loop
    advancement, deleted on successful completion or on abort. Its
    presence on disk is the sole is-a-rebase-in-progress signal". *)
Definition SaveRebaseState (st : RebaseState) : M unit :=
  modify (set_rebase_state (Some st)).

Definition LoadRebaseState : M RebaseState :=
  fun w =>
    match rebase_state w with
    | Some st => (Ok st, w)
    | None => (Err (Errorf "no rebase in progress"), w)
    end.

Definition ClearRebaseState : M unit :=
  modify (λ w, set_rebase_todo None (set_rebase_state None w)).

Definition IsRebaseInProgress : M bool :=
  gets (λ w, bool_decide (is_Some (rebase_state w))).

(** Modelled from the spec: [ReadNextTodo], which "reads the step at the
    current index" of the persisted state, and [AdvanceRebaseStep], "on
    success, advance the step index and persist". *)
Definition ReadNextTodo : M (string * RebaseState) :=
  st ← LoadRebaseState;
  mret (default EmptyString (TodoSteps st !! CurrentStep st), st).

Definition AdvanceRebaseStep (st : RebaseState) : M unit :=
  SaveRebaseState
    (mkRebaseState (HeadName st) (Onto st) (OrigHead st) (TodoSteps st) (S (CurrentStep st))).

End rebase_state.

(** ** Rebase and cherry-pick (stash.go, second part) *)
Section rebase.
Variable env : Env.

Definition tmpBranch : string := "kitcat-rebase-tmp".

(** [getEditor]: the editor of the environment variable EDITOR, else the
    first of a fixed list that is installed. *)
Definition getEditor : error + (string * list string) :=
  if decide (Getenv_EDITOR env ≠ EmptyString) then inr (Getenv_EDITOR env, [])
  else if decide (GOOS env = "windows") then
    if LookPath env "code" then inr ("code", ["--wait"])
    else inr ("notepad", [])
  else
    match filter (λ e, LookPath env e = true) ["code"; "nano"; "micro"; "vim"] with
    | e :: _ => if decide (e = "code") then inr (e, ["--wait"]) else inr (e, [])
    | [] => inl (Errorf "no suitable editor found (checked code, nano, micro, vim)")
    end.

(** [os.WriteFile] and [os.Remove] on a file of [.kitcat] named by its
    path below that directory. *)
Definition WriteFile_ref (name data : string) : M unit :=
  fun w =>
    if repo_dir w then (Ok tt, set_refs (<[name := data]> (refs w)) w)
    else (Err (Errorf ("open .kitcat/" +:+ name +:+ ": no such file or directory")), w).

Definition Remove_ref (name : string) : M unit :=
  modify (λ w, set_refs (delete name (refs w)) w).

(** [getChanges]: the error of [ParseTree] on the parent is dropped and
    the parent tree is then the empty map. *)
Definition diff_trees (parentTree childTree : gmap string string) : gmap string Change :=
  map_imap (λ path hash,
              if decide (parentTree !! path = Some hash) then None
              else Some (mkChange (default EmptyString (parentTree !! path)) hash))
           childTree
  ∪ ((λ old, mkChange old EmptyString)
       <$> filter (λ kv, childTree !! kv.1 = None) parentTree).

Definition getChanges (parentHash childHash : string) : M (gmap string Change) :=
  parentTree ←
    (if decide (parentHash ≠ EmptyString) then
       pC ← try_get (FindCommit parentHash);
       match pC with
       | Some pC => ignore_err ∅ (ParseTree env (TreeHash pC))
       | None => mret ∅
       end
     else mret ∅);
  childCommit ← FindCommit childHash;
  childTree ← ParseTree env (TreeHash childCommit);
  mret (diff_trees parentTree childTree).

Definition conflict_deleted_modified (path : string) : error :=
  Errorf ("conflict in " +:+ path +:+ ": deleted in incoming commit, but modified in HEAD").
Definition conflict_modified_both (path : string) : error :=
  Errorf ("conflict in " +:+ path +:+ ": modified in incoming commit, but modified in HEAD").
Definition conflict_modified_deleted (path : string) : error :=
  Errorf ("conflict in " +:+ path +:+ ": modified in incoming commit, but deleted in HEAD").

(** The body of the loop of [applyChanges], for one entry of the map.
    [os.MkdirAll(filepath.Dir(path))] has no counterpart: the working tree
    is a map from paths to contents. *)
Definition applyChange (headTree : gmap string string) (path : string) (change : Change)
  : M unit :=
  let targetHash := NewHash change in
  if decide (targetHash = EmptyString) then
    match headTree !! path with
    | Some headFileHash =>
        if decide (headFileHash ≠ OldHash change)
        then fail (conflict_deleted_modified path)
        else RemoveFile env path false
    | None => RemoveFile env path false
    end
  else
    content ← ReadObject targetHash;
    match headTree !! path with
    | Some headFileHash =>
        if decide (headFileHash ≠ OldHash change)
        then fail (conflict_modified_both path)
        else WriteFile_work path content;; AddFile env path
    | None =>
        if decide (OldHash change ≠ EmptyString)
        then fail (conflict_modified_deleted path)
        else WriteFile_work path content;; AddFile env path
    end.

(** [applyChanges]: both errors at its head are dropped; a failed
    [GetHeadCommit] leaves the zero commit, a failed [ParseTree] the empty
    map. *)
Definition applyChanges (changes : gmap string Change) : M unit :=
  headCommit ← ignore_err zeroCommit (query (GetHeadCommit env));
  headTree ← ignore_err ∅ (ParseTree env (TreeHash headCommit));
  for_each (range_changes env changes) (λ kv, applyChange headTree kv.1 kv.2).

Definition cherryPick (hash : string) (noCommit : bool) : M unit :=
  commit ← FindCommit hash;
  let parentHash := Parent commit in
  changes ← getChanges parentHash hash;
  applyChanges changes;;
  if noCommit then mret tt
  else
    err ← try (_ ← core_Commit env (Message commit); mret tt);
    match err with
    | Some err =>
        if strings.Contains (Error err) "nothing to commit" then mret tt else fail err
    | None => mret tt
    end.

(** [saveObject]: [os.MkdirAll] makes the directories that are missing, the
    object file is written whether or not it exists. *)
Definition saveObject (content : string) : M string :=
  fun w =>
    let hash := sha1 env content in
    (Ok hash, set_objects (<[hash := content]> (objects w)) (set_repo_dir true w)).

Definition commit_text (treeHash parent msg : string) : string :=
  let parentBlock :=
    if decide (parent ≠ EmptyString) then "parent " +:+ parent +:+ nl else EmptyString in
  "tree " +:+ treeHash +:+ nl +:+ parentBlock +:+ nl +:+ msg.

Definition amendCommitMessage (commitID newVal : string) : M unit :=
  c ← FindCommit commitID;
  newHash ← saveObject (commit_text (TreeHash c) (Parent c) newVal);
  UpdateBranchPointer env newHash.

Definition amendCommit (prevHead : Commit) (newMsg : string) : M unit :=
  treeHash ← CreateTree env;
  newHash ← saveObject (commit_text treeHash (Parent prevHead) newMsg);
  UpdateBranchPointer env newHash.

(** [promptForMessage]: every failure is a warning; without an editor the
    default message is returned. *)
Definition promptForMessage (defaultMsg : string) : M string :=
  modify (λ w, if repo_dir w then set_commit_editmsg (Some defaultMsg) w else w);;
  match getEditor with
  | inl _ => mret defaultMsg
  | inr (editor, editorArgs) =>
      modify (λ w,
        match commit_editmsg w with
        | Some old =>
            match run_editor env editor editorArgs old with
            | inr new => set_commit_editmsg (Some new) w
            | inl _ => w
            end
        | None => w
        end);;
      out ← gets (λ w, default EmptyString (commit_editmsg w));
      mret (strings.TrimSpace out)
  end.

Definition executePick (hash : string) : M unit := cherryPick hash false.

Definition executeReword (hash : string) : M unit :=
  cherryPick hash false;;
  head ← ignore_err zeroCommit (query (GetHeadCommit env));
  newMsg ← promptForMessage (Message head);
  amendCommitMessage (ID head) newMsg.

Definition executeSquash (hash : string) : M unit :=
  cherryPick hash true;;
  prevHead ← ignore_err zeroCommit (query (GetHeadCommit env));
  targetCommit ← ignore_err zeroCommit (FindCommit hash);
  let newMsg := Message prevHead +:+ nl +:+ nl +:+ Message targetCommit in
  amendCommit prevHead newMsg.

Definition finishRebase (state : RebaseState) : M unit :=
  headHash ← query (readHead env);
  (if decide (HeadName state ≠ EmptyString) then
     WriteFile_HEAD ("ref: " +:+ HeadName state);;
     WriteFile_ref (HeadName state) headHash
   else mret tt);;
  Remove_ref ("refs/heads/" +:+ tmpBranch);;
  ClearRebaseState.

(** The [switch action] of [RunRebaseLoop]: what [stepErr] becomes. *)
Definition runStep (action commitHash : string) : M unit :=
  if bool_decide (action = "pick" ∨ action = "p") then executePick commitHash
  else if bool_decide (action = "reword" ∨ action = "r") then executeReword commitHash
  else if bool_decide (action = "squash" ∨ action = "s") then executeSquash commitHash
  else if bool_decide (action = "drop" ∨ action = "d") then mret tt
  else mret tt.

(** [RunRebaseLoop]: [fuel] bounds the number of iterations of [for]. *)
Fixpoint RunRebaseLoop (fuel : nat) : M unit :=
  match fuel with
  | O => timeout
  | S fuel' =>
      '(cmdLine, state) ← ReadNextTodo;
      if bool_decide (length (TodoSteps state) ≤ CurrentStep state)
      then finishRebase state
      else
        match strings.Fields cmdLine with
        | action :: commitHash :: _ =>
            stepErr ← try (runStep action commitHash);
            match stepErr with
            | Some _ => mret tt
            | None => AdvanceRebaseStep state;; RunRebaseLoop fuel'
            end
        | _ => AdvanceRebaseStep state;; RunRebaseLoop fuel'
        end
  end.

Definition todo_help : string :=
  nl +:+ "# Commands:" +:+ nl
  +:+ "# p, pick <commit> = use commit" +:+ nl
  +:+ "# r, reword <commit> = use commit, but edit the commit message" +:+ nl
  +:+ "# s, squash <commit> = use commit, but meld into previous commit" +:+ nl
  +:+ "# d, drop <commit> = remove commit" +:+ nl.

Fixpoint generateTodo_lines (hashes : list string) : M string :=
  match hashes with
  | [] => mret EmptyString
  | h :: rest =>
      c ← ignore_err zeroCommit (FindCommit h);
      tl ← generateTodo_lines rest;
      mret ("pick " +:+ h +:+ " " +:+ Message c +:+ nl +:+ tl)
  end.

Definition generateTodo (hashes : list string) : M string :=
  body ← generateTodo_lines hashes;
  mret (body +:+ todo_help).

Definition parseTodo (content : string) : list string :=
  omap (λ line,
          let line := strings.TrimSpace line in
          if bool_decide (line = EmptyString) || strings.HasPrefix line "#"
          then None else Some line)
       (strings.SplitLines content).

(** [getCommitsBetween]: [fuel] bounds the walk along the parent
    pointers.  [chain] is kept in the order of the appends and reversed at
    the end, except on the early return for an empty [start]. *)
Fixpoint getCommitsBetween_walk (fuel : nat) (start curr : string) (chain : list string)
  : M (list string) :=
  match fuel with
  | O => timeout
  | S fuel' =>
      if decide (curr = EmptyString) then mret (reverse chain)
      else if decide (curr = start) then mret (reverse chain)
      else
        let chain := chain ++ [curr] in
        c ← FindCommit curr;
        if decide (Parent c = EmptyString) then
          if decide (start = EmptyString) then mret chain
          else mret (reverse chain)
        else getCommitsBetween_walk fuel' start (Parent c) chain
  end.

Definition getCommitsBetween (fuel : nat) (start end_ : string) : M (list string) :=
  getCommitsBetween_walk fuel start end_ [].

(** [RebaseInteractive] from the point where [commitsToRebase] is known
    and not empty. *)
Definition rebase_replay (fuel : nat) (ontoCommit : Commit) (headHash rebaseHeadNameVal : string)
    (commitsToRebase : list string) : M unit :=
  todoContent ← generateTodo commitsToRebase;
  (fun w => if repo_dir w then (Ok tt, set_rebase_todo (Some todoContent) w)
            else (Err (Errorf "open .kitcat/rebase-todo: no such file or directory"), w));;
  match getEditor with
  | inl err => fail err
  | inr (editor, editorArgs) =>
      match run_editor env editor editorArgs todoContent with
      | inl err => fail (wrap "failed to run editor: " err)
      | inr newTodoContent =>
          modify (set_rebase_todo (Some newTodoContent));;
          let steps := parseTodo newTodoContent in
          if bool_decide (length steps = 0) then mret tt
          else
            SaveRebaseState (mkRebaseState rebaseHeadNameVal (ID ontoCommit) headHash steps 0);;
            WriteFile_ref ("refs/heads/" +:+ tmpBranch) (ID ontoCommit);;
            on_err (wrap "failed to update HEAD: ")
                   (WriteFile_HEAD ("ref: refs/heads/" +:+ tmpBranch));;
            on_err (wrap "failed to checkout base: ")
                   (UpdateWorkspaceAndIndex env (ID ontoCommit));;
            RunRebaseLoop fuel
      end
  end.

Definition RebaseInteractive (fuel : nat) (commitHash : string) : M unit :=
  init ← IsRepoInitialized;
  if negb init then fail (Errorf "not a kitcat repository")
  else
    isDirty ← on_err (wrap "failed to check working directory status: ")
                     (query (IsWorkDirDirty env));
    if isDirty : bool then fail (Errorf "cannot rebase: you have unstaged changes")
    else
      ontoCommit ← on_err (wrap ("invalid base commit '" +:+ commitHash +:+ "': "))
                          (FindCommit commitHash);
      headState ← query (GetHeadState env);
      headHash ← query (readHead env);
      let rebaseHeadNameVal :=
        if negb (strings.HasPrefix headState "HEAD") then "refs/heads/" +:+ headState
        else EmptyString in
      commitsToRebase ← getCommitsBetween fuel (ID ontoCommit) headHash;
      if bool_decide (length commitsToRebase = 0) then mret tt
      else rebase_replay fuel ontoCommit headHash rebaseHeadNameVal commitsToRebase.

End rebase.

(** ** The vocabulary of the properties *)

(** [frame f m]: running [m] never changes the part [f] of the repository,
    however it ends. *)
Definition frame {X A} (f : Repo → X) (m : M A) : Prop :=
  ∀ w, f (m w).2 = f w.

(** What is asked of the operations of package [core] that the environment
    stands for: they do not touch the persisted rebase state. *)
Record rebase_frame_ok (env : Env) : Prop := mkRebaseFrameOk {
  core_Commit_rebase_state : ∀ msg, frame rebase_state (core_Commit env msg);
  UpdateBranchPointer_rebase_state : ∀ h, frame rebase_state (UpdateBranchPointer env h)
}.

(** A string that is empty or starts with a byte that is no white space. *)
Definition starts_clean (s : string) : Prop :=
  match s with
  | EmptyString => True
  | String c _ => Ascii.is_space c = false
  end.

(** The value of HEAD: what every reader of [.kitcat/HEAD] makes of the
    file, its content without the surrounding white space. *)
Definition head_value (w : Repo) : option string := strings.TrimSpace <$> HEAD w.

(** An error of [applyChanges] that reports a conflict. *)
Definition reports_conflict {A} (r : result A) : bool :=
  match r with
  | Err e => strings.HasPrefix (Error e) "conflict in "
  | _ => false
  end.

(** [picks env w hash pT cT hT]: in the repository [w] the commit [hash]
    and its parent resolve, and a cherry-pick of [hash] reads the parent
    tree [pT], the child tree [cT] and the tree [hT] of the HEAD commit. *)
Definition picks (env : Env) (w : Repo) (hash : string)
    (pT cT hT : gmap string string) : Prop :=
  ∃ child parent head,
    FindCommit hash w = (Ok child, w)
    ∧ Parent child ≠ EmptyString
    ∧ FindCommit (Parent child) w = (Ok parent, w)
    ∧ ParseTree env (TreeHash parent) w = (Ok pT, w)
    ∧ ParseTree env (TreeHash child) w = (Ok cT, w)
    ∧ GetHeadCommit env w = inr head
    ∧ ParseTree env (TreeHash head) w = (Ok hT, w).

(** [walk_to w base h l]: following the parent pointers from the commit [h],
    the commits [l] are passed, [h] first, before [base] is reached: [base]
    is an ancestor of [h], and [l] are the commits after [base] up to and
    including [h], newest first. *)
Inductive walk_to (w : Repo) (base : string) : string → list string → Prop :=
| walk_here : walk_to w base base []
| walk_step h c l :
    h ≠ base →
    h ≠ EmptyString →
    FindCommit h w = (Ok c, w) →
    walk_to w base (Parent c) l →
    walk_to w base h (h :: l).

(** [walk_to_root w h l]: the parent pointers lead from [h] through the
    commits [l], [h] first, to a root commit, the last of [l]. *)
Inductive walk_to_root (w : Repo) : string → list string → Prop :=
| root_here h c :
    h ≠ EmptyString →
    FindCommit h w = (Ok c, w) →
    Parent c = EmptyString →
    walk_to_root w h [h]
| root_step h c l :
    h ≠ EmptyString →
    FindCommit h w = (Ok c, w) →
    Parent c ≠ EmptyString →
    walk_to_root w (Parent c) l →
    walk_to_root w h (h :: l).

(** The spec's words for the commits to rebase, "strictly between the base
    and current HEAD (oldest first)", read to the letter: of the commits
    passed on the walk from HEAD to the base, HEAD itself is left out. *)
Definition strictly_between (walked : list string) : list string :=
  reverse (tail walked).

(** The name [RebaseInteractive] gives the branch under rebase. *)
Definition rebaseHeadName (headState : string) : string :=
  if negb (strings.HasPrefix headState "HEAD") then "refs/heads/" +:+ headState
  else EmptyString.

(** ** A reference environment

    An in-memory stand-in for everything [Env] leaves open, so that the
    operations run on concrete repositories.  The digest of a byte string is
    the string itself, a tree is stored as lines of [path digest], Go's
    range order is the order of the map, the editor is the program [true]:
    it leaves the file as it found it. *)
Module mem.

Definition decode_line (line : string) : option (option (string * string)) :=
  match strings.Fields line with
  | [] => Some None
  | [path; d] => Some (Some (path, d))
  | _ => None
  end.

Fixpoint decode_lines (lines : list string) : option (gmap string string) :=
  match lines with
  | [] => Some ∅
  | line :: rest =>
      match decode_line line, decode_lines rest with
      | Some None, Some t => Some t
      | Some (Some (path, d)), Some t => Some (<[path := d]> t)
      | _, _ => None
      end
  end.

Definition decode_tree (bytes : string) : option (gmap string string) :=
  match strings.SplitLines bytes with
  | "tree" :: lines => decode_lines lines
  | _ => None
  end.

Definition encode_tree (t : gmap string string) : string :=
  "tree" +:+ nl +:+
  foldr (λ kv acc, kv.1 +:+ " " +:+ kv.2 +:+ nl +:+ acc) EmptyString (map_to_list t).

Definition digest (bytes : string) : string := bytes.

Definition hashCommit (c : Commit) : string :=
  "commit:" +:+ Parent c +:+ ":" +:+ TreeHash c +:+ ":" +:+ Message c.

Definition IsSafePath (path : string) : bool := negb (strings.HasPrefix path "..").

(** Dirty: some tracked path is missing from the working tree or holds a
    content other than the one staged. *)
Definition IsWorkDirDirty (w : Repo) : error + bool :=
  inr (existsb (λ kv : string * string,
                  negb (bool_decide (digest <$> worktree w !! kv.1 = Some kv.2)))
               (map_to_list (index w))).

Definition ref_prefix : string := "ref: ".

Fixpoint drop_prefix (n : nat) (s : string) : string :=
  match n, s with
  | S n', String _ s' => drop_prefix n' s'
  | _, _ => s
  end.

Definition readHead (w : Repo) : error + string :=
  match HEAD w with
  | None => inl (Errorf "open .kitcat/HEAD: no such file or directory")
  | Some content =>
      let content := strings.TrimSpace content in
      if strings.HasPrefix content ref_prefix then
        match refs w !! drop_prefix 5 content with
        | Some h => inr (strings.TrimSpace h)
        | None => inl (Errorf "branch file not found")
        end
      else inr content
  end.

Definition GetHeadCommit (w : Repo) : error + Commit :=
  match readHead w with
  | inl e => inl e
  | inr h =>
      if decide (h = EmptyString) then inl ErrNoCommits
      else
        match FindCommit h w with
        | (Ok c, _) => inr c
        | (Err e, _) => inl e
        | _ => inl (Errorf "unreachable")
        end
  end.

Definition GetHeadState (w : Repo) : error + string :=
  match HEAD w with
  | None => inl (Errorf "open .kitcat/HEAD: no such file or directory")
  | Some content =>
      let content := strings.TrimSpace content in
      if strings.HasPrefix content "ref: refs/heads/"
      then inr (drop_prefix 16 content)
      else inl (Errorf "HEAD is detached")
  end.

Definition UpdateBranchPointer (h : string) : M unit :=
  fun w =>
    match HEAD w with
    | None => (Err (Errorf "open .kitcat/HEAD: no such file or directory"), w)
    | Some content =>
        let content := strings.TrimSpace content in
        if strings.HasPrefix content ref_prefix
        then (Ok tt, set_refs (<[drop_prefix 5 content := h]> (refs w)) w)
        else (Ok tt, set_HEAD (Some h) w)
    end.

Definition core_Commit (message : string) : M (Commit * string) :=
  fun w =>
    let head := match GetHeadCommit w with inr c => c | inl _ => zeroCommit end in
    let treeBytes := encode_tree (index w) in
    if decide (digest treeBytes = TreeHash head)
    then (Err (Errorf "nothing to commit, working tree clean"), w)
    else
      let c0 := mkCommit EmptyString (ID head) message (digest treeBytes)
                         "Unknown" "unknown@example.com" "0" in
      let c := mkCommit (hashCommit c0) (ID head) message (digest treeBytes)
                        "Unknown" "unknown@example.com" "0" in
      let w1 := set_objects (<[digest treeBytes := treeBytes]> (objects w)) w in
      let w2 := set_commits (commits w1 ++ [c]) w1 in
      match UpdateBranchPointer (ID c) w2 with
      | (Ok _, w3) => (Ok (c, EmptyString), w3)
      | (Err e, w3) => (Err e, w3)
      | (Panic p, w3) => (Panic p, w3)
      | (Timeout, w3) => (Timeout, w3)
      end.

Definition env : Env :=
  mkEnv decode_tree encode_tree digest hashCommit digest (λ path, path) IsSafePath
        IsWorkDirDirty GetHeadCommit GetHeadState readHead (λ _ _, EmptyString) "0"
        map_to_list map_to_list "true" "linux" (λ _, false) (λ _ _ content, inr content)
        core_Commit UpdateBranchPointer.

End mem.

(** ** Sample repositories *)
Module sample.

Definition tree_a1 : string := mem.encode_tree {[ "a" := "one" ]}.
Definition tree_a2 : string := mem.encode_tree {[ "a" := "two" ]}.
Definition tree_a3 : string := mem.encode_tree {[ "a" := "three" ]}.
Definition tree_lost : string := mem.encode_tree {[ "a" := "lost" ]}.

Definition commit (id parent msg tree : string) : Commit :=
  mkCommit id parent msg tree "Unknown" "unknown@example.com" "0".

Definition c_base : Commit := commit "base000" EmptyString "base" tree_a1.
Definition c_one : Commit := commit "c1aaaaa" "base000" "one" tree_a2.
Definition c_two : Commit := commit "c2bbbbb" "c1aaaaa" "two" tree_a1.
Definition c_side : Commit := commit "c3ccccc" "base000" "side" tree_a3.
Definition c_notree : Commit := commit "c4ddddd" "base000" "no tree" "missing".
Definition c_noblob : Commit := commit "c5eeeee" "base000" "no blob" tree_lost.

Definition tree_ab : string := mem.encode_tree {[ "a" := "one"; "b" := "two" ]}.
Definition c_addb : Commit := commit "c6fffff" "base000" "add b" tree_ab.
Definition c_delb : Commit := commit "c7ggggg" "c6fffff" "delete b" tree_a1.

Definition store : gmap string string :=
  list_to_map [ ("one", "one"); ("two", "two"); ("three", "three");
                (tree_a1, tree_a1); (tree_a2, tree_a2); (tree_a3, tree_a3);
                (tree_lost, tree_lost); (tree_ab, tree_ab) ].

(** A clean repository on branch [main] at [c_two]; HEAD ends in a line
    feed. *)
Definition repo : Repo :=
  {| repo_dir := true;
     HEAD := Some ("ref: refs/heads/main" +:+ nl);
     refs := {[ "refs/heads/main" := "c2bbbbb" ]};
     commits := [c_base; c_one; c_two; c_side; c_notree; c_noblob];
     objects := store;
     index := {[ "a" := "one" ]};
     worktree := {[ "a" := "one" ]};
     stash := [];
     rebase_state := None;
     rebase_todo := None;
     commit_editmsg := None |}.

(** [repo] in the middle of a rebase onto [c_base] that dropped [c_addb]:
    HEAD is the scratch branch at [c_base], the index and the working tree
    are those of [c_base], and an untracked file [b] lies in the working
    tree. *)
Definition rebasing : Repo :=
  {| repo_dir := true;
     HEAD := Some "ref: refs/heads/kitcat-rebase-tmp";
     refs := {[ "refs/heads/main" := "c7ggggg"; "refs/heads/kitcat-rebase-tmp" := "base000" ]};
     commits := [c_base; c_one; c_two; c_side; c_notree; c_noblob; c_addb; c_delb];
     objects := store;
     index := {[ "a" := "one" ]};
     worktree := {[ "a" := "one"; "b" := "notes" ]};
     stash := [];
     rebase_state :=
       Some (mkRebaseState "refs/heads/main" "base000" "c7ggggg"
                           ["drop c6fffff add b"; "pick c7ggggg delete b"] 1);
     rebase_todo := None;
     commit_editmsg := None |}.

(** [repo] in the middle of a rebase of [c_one] onto [c_side]: HEAD is the
    scratch branch at [c_side], whose tree the index and the working tree
    hold; the step to run picks [c_one]. *)
Definition conflicting : Repo :=
  {| repo_dir := true;
     HEAD := Some "ref: refs/heads/kitcat-rebase-tmp";
     refs := {[ "refs/heads/main" := "c1aaaaa"; "refs/heads/kitcat-rebase-tmp" := "c3ccccc" ]};
     commits := [c_base; c_one; c_two; c_side; c_notree; c_noblob; c_addb; c_delb];
     objects := store;
     index := {[ "a" := "three" ]};
     worktree := {[ "a" := "three" ]};
     stash := [];
     rebase_state :=
       Some (mkRebaseState "refs/heads/main" "c3ccccc" "c1aaaaa" ["pick c1aaaaa one"] 0);
     rebase_todo := Some "pick c1aaaaa one";
     commit_editmsg := None |}.

(** [conflicting] one step earlier: the todo list drops [c_two] first. *)
Definition conflicting_later : Repo :=
  set_rebase_state
    (Some (mkRebaseState "refs/heads/main" "c3ccccc" "c1aaaaa"
                         ["drop c2bbbbb two"; "pick c1aaaaa one"] 0))
    conflicting.

(** A repository right after [init]: branch [main] has no commit. *)
Definition fresh : Repo :=
  {| repo_dir := true;
     HEAD := Some "ref: refs/heads/main";
     refs := {[ "refs/heads/main" := EmptyString ]};
     commits := [];
     objects := ∅;
     index := ∅;
     worktree := ∅;
     stash := [];
     rebase_state := None;
     rebase_todo := None;
     commit_editmsg := None |}.

(** [repo] with one stash entry and an edited tracked file. *)
Definition dirty_stashed : Repo :=
  set_stash ["c3ccccc"] (set_worktree {[ "a" := "edited" ]} repo).

End sample.

(** ** stash.go: the other stash commands *)
Section stash_more.
Variable env : Env.

Definition Stash : M unit := StashPush env EmptyString.

(** [StashDrop]: the new stack is built by position and written over the
    stash file; the message printed last slices the dropped digest. *)
Definition StashDrop (index : Z) : M unit :=
  init ← IsRepoInitialized;
  if negb init
  then fail (Errorf "fatal: not a kitcat repository (or any of the parent directories): .kitcat")
  else
    stashes ← on_err (wrap "failed to list stashes: ") ListStashes;
    if (index <? 0)%Z || (Z.of_nat (length stashes) <=? index)%Z
    then fail (Errorf ("invalid stash index: " +:+ pretty index))
    else
      let newStashes :=
        omap id (imap (λ i hash, if decide (Z.of_nat i ≠ index) then Some hash else None)
                      stashes) in
      modify (set_stash newStashes);;
      match stashes !! Z.to_nat index with
      | Some hash => Printf_short hash
      | None => panic "index out of range"
      end.

(** [StashList]: each entry is looked up for its message, which is
    printed. *)
Definition StashList : M unit :=
  init ← IsRepoInitialized;
  if negb init
  then fail (Errorf "fatal: not a kitcat repository (or any of the parent directories): .kitcat")
  else
    stashes ← on_err (wrap "failed to list stashes: ") ListStashes;
    for_each stashes
      (λ hash,
         _ ← on_err (wrap ("failed to find commit for stash " +:+ hash +:+ ": "))
                    (FindCommit hash);
         mret tt).

End stash_more.

(** ** stash.go: continuing and aborting a rebase *)
Section rebase_more.
Variable env : Env.

(** [RebaseContinue]: [parts[0]] is read before the length of [parts] is
    tested; the errors of [FindCommit], [readHead] and [GetHeadCommit] are
    dropped. *)
Definition RebaseContinue (fuel : nat) : M unit :=
  inProgress ← IsRebaseInProgress;
  if negb inProgress then fail (Errorf "no rebase in progress")
  else
    state ← LoadRebaseState;
    if bool_decide (length (TodoSteps state) ≤ CurrentStep state)
    then fail (Errorf "no steps remaining")
    else
      match TodoSteps state !! CurrentStep state with
      | None => panic "index out of range"
      | Some currentCmdLine =>
          match strings.Fields currentCmdLine with
          | [] => panic "index out of range"
          | [cmd] => AdvanceRebaseStep state
          | cmd :: originalHash :: _ =>
              originalCommit ← ignore_err zeroCommit (FindCommit originalHash);
              (if bool_decide (cmd = "pick" ∨ cmd = "reword") then
                 let msg := Message originalCommit in
                 err ← try (_ ← core_Commit env msg; mret tt);
                 match err with
                 | Some err =>
                     if strings.Contains (Error err) "nothing to commit" then mret tt
                     else fail err
                 | None => mret tt
                 end;;
                 if bool_decide (cmd = "reword") then
                   head ← ignore_err EmptyString (query (readHead env));
                   newMsg ← promptForMessage env msg;
                   if decide (newMsg ≠ msg) then amendCommitMessage env head newMsg
                   else mret tt
                 else mret tt
               else if bool_decide (cmd = "squash") then
                 prevHead ← ignore_err zeroCommit (query (GetHeadCommit env));
                 let newMsg := Message prevHead +:+ nl +:+ nl +:+ Message originalCommit in
                 amendCommit env prevHead newMsg
               else mret tt);;
              AdvanceRebaseStep state;;
              RunRebaseLoop env fuel
          end
      end.

(** [RebaseAbort]. *)
Definition RebaseAbort : M unit :=
  inProgress ← IsRebaseInProgress;
  if negb inProgress then fail (Errorf "no rebase in progress")
  else
    state ← LoadRebaseState;
    Printf_short (OrigHead state);;
    (if decide (HeadName state ≠ EmptyString) then
       WriteFile_HEAD ("ref: " +:+ HeadName state);;
       WriteFile_ref (HeadName state) (OrigHead state);;
       UpdateWorkspaceAndIndex env (OrigHead state)
     else Reset env (OrigHead state) "hard");;
    Remove_ref ("refs/heads/" +:+ tmpBranch);;
    ClearRebaseState.

End rebase_more.

(** ** More vocabulary *)

(** The tracked files [RemoveFile] takes for a recursive removal of
    [filename]: the file itself and the files below it. *)
Definition at_or_under (filename trackedFile : string) : bool :=
  bool_decide (trackedFile = filename) || strings.HasPrefix trackedFile (filename +:+ "/").

(** A byte string without a line feed. *)
Fixpoint one_line (s : string) : bool :=
  match s with
  | EmptyString => true
  | String c s' => if decide (c = "010"%char) then false else one_line s'
  end.

(** A todo step that the loop of the rebase passes over: fewer than two
    fields, or an action that is none of pick, reword and squash and their
    abbreviations. *)
Definition passed_over (line : string) : bool :=
  match strings.Fields line with
  | action :: _ :: _ =>
      negb (bool_decide (action ∈ ["pick"; "p"; "reword"; "r"; "squash"; "s"]))
  | _ => true
  end.

(** The rebase state at a given step. *)
Definition at_step (st : RebaseState) (n : nat) : RebaseState :=
  mkRebaseState (HeadName st) (Onto st) (OrigHead st) (TodoSteps st) n.

(** A byte string without white space. *)
Fixpoint no_space (s : string) : bool :=
  match s with
  | EmptyString => true
  | String c s' => negb (Ascii.is_space c) && no_space s'
  end.

(** The tree [getChanges] takes for the parent: empty for a commit
    without parent, and also when the parent or its tree cannot be read. *)
Definition parent_tree (env : Env) (w : Repo) (parentHash : string) : gmap string string :=
  if decide (parentHash = EmptyString) then ∅
  else
    match FindCommit parentHash w with
    | (Ok pC, _) =>
        match ParseTree env (TreeHash pC) w with
        | (Ok t, _) => t
        | _ => ∅
        end
    | _ => ∅
    end.

(** ** stash.go: clearing the stash *)

(** Modelled from the spec: [storage.ClearStash], "clear(): empties the
    stack; does not delete the underlying commits from the graph". *)
Definition ClearStash : M unit := modify (set_stash []).

Definition StashClear : M unit :=
  init ← IsRepoInitialized;
  if negb init
  then fail (Errorf "fatal: not a kitcat repository (or any of the parent directories): .kitcat")
  else on_err (wrap "failed to clear stash: ") ClearStash.

(** ** main.go: the commands [stash] and [rebase]

    A handler ends in [os.Exit]: its result is the exit status. *)
Section commands.
Variable env : Env.

(** [parseStashIndex] reads its argument with [fmt.Sscanf]: what number it
    finds in a string is left open. *)
Variable parseStashIndex : string → error + Z.

(** [if err := f(); err != nil { os.Exit(1) }; os.Exit(0)]. *)
Definition exit_after (m : M unit) : M Z :=
  fun w =>
    match m w with
    | (Ok _, w') => (Ok 0%Z, w')
    | (Err _, w') => (Ok 1%Z, w')
    | (Panic p, w') => (Panic p, w')
    | (Timeout, w') => (Timeout, w')
    end.

(** [strings.Join]. *)
Definition Join (elems : list string) (sep : string) : string :=
  match elems with
  | [] => EmptyString
  | x :: rest => foldl (λ acc y, acc +:+ sep +:+ y) x rest
  end.

Definition cmd_stash (args : list string) : M Z :=
  init ← IsRepoInitialized;
  if negb init then mret 1%Z
  else if bool_decide (0 < length args ∧ args !! 0 = Some "list") then
    exit_after StashList
  else if bool_decide (0 < length args ∧ args !! 0 = Some "push") then
    let message :=
      if bool_decide (1 < length args) then Join (drop 1 args) " " else EmptyString in
    exit_after (StashPush env message)
  else if bool_decide (0 < length args ∧ args !! 0 = Some "pop") then
    exit_after (StashPop env)
  else if bool_decide (1 < length args ∧ args !! 0 = Some "apply") then
    match parseStashIndex (default EmptyString (args !! 1)) with
    | inl _ => mret 2%Z
    | inr idx => exit_after (StashApply env idx)
    end
  else if bool_decide (1 < length args ∧ args !! 0 = Some "drop") then
    match parseStashIndex (default EmptyString (args !! 1)) with
    | inl _ => mret 2%Z
    | inr idx => exit_after (StashDrop idx)
    end
  else if bool_decide (0 < length args ∧ args !! 0 = Some "clear") then
    exit_after StashClear
  else
    exit_after (Stash env).

Definition cmd_rebase (fuel : nat) (args : list string) : M Z :=
  match args with
  | [] => mret 2%Z
  | arg0 :: _ =>
      if bool_decide (arg0 = "--abort") then exit_after (RebaseAbort env)
      else if bool_decide (arg0 = "--continue") then exit_after (RebaseContinue env fuel)
      else if bool_decide (arg0 = "-i") then
        match args !! 1 with
        | None => mret 2%Z
        | Some commit => exit_after (RebaseInteractive env fuel commit)
        end
      else mret 2%Z
  end.

End commands.

(** The outcome of the editor session on the todo list: the error of
    [getEditor] or of the editor run, or the content the editor left. *)
Definition edited (env : Env) (todoContent : string) : error + string :=
  match getEditor env with
  | inl err => inl err
  | inr (editor, editorArgs) =>
      match run_editor env editor editorArgs todoContent with
      | inl err => inl (wrap "failed to run editor: " err)
      | inr newTodoContent => inr newTodoContent
      end
  end.

(** ** More sample repositories *)
Module more.

(** [sample.repo] with three stash entries. *)
Definition stashed : Repo := set_stash ["c3ccccc"; "c1aaaaa"; "c2bbbbb"] sample.repo.

(** [sample.repo] with one stash entry and a clean tree. *)
Definition stashed_clean : Repo := set_stash ["c3ccccc"] sample.repo.

(** [sample.rebasing] with nothing but dropped steps left. *)
Definition dropping : Repo :=
  set_rebase_state
    (Some (mkRebaseState "refs/heads/main" "base000" "c7ggggg"
                         ["drop c6fffff add b"; "exec make"; "drop c7ggggg delete b"] 1))
    sample.rebasing.

(** [sample.conflicting] after the conflict was resolved by hand, the step
    written with the short name of the action. *)
Definition resolved_short : Repo :=
  set_rebase_state
    (Some (mkRebaseState "refs/heads/main" "c3ccccc" "c1aaaaa" ["p c1aaaaa one"] 0))
    (set_index {[ "a" := "two" ]} (set_worktree {[ "a" := "two" ]} sample.conflicting)).

(** A repository with tracked files below [src], one of them missing from
    the working tree, and an untracked file beside them. *)
Definition with_dir : Repo :=
  set_index {[ "a" := "one"; "src/a.go" := "one"; "src/b.go" := "two"; "srcfile" := "one" ]}
    (set_worktree {[ "a" := "one"; "src/a.go" := "one"; "src/notes" := "draft";
                     "srcfile" := "one" ]}
       sample.repo).

(** [sample.rebasing] with a detached HEAD under rebase, all steps done. *)
Definition finishing_detached : Repo :=
  set_rebase_state
    (Some (mkRebaseState EmptyString "base000" "c7ggggg" ["drop c6fffff add b"] 1))
    sample.rebasing.

(** An environment whose editor empties the file. *)
Definition emptying_env : Env :=
  mkEnv mem.decode_tree mem.encode_tree mem.digest mem.hashCommit mem.digest (λ path, path)
        mem.IsSafePath mem.IsWorkDirDirty mem.GetHeadCommit mem.GetHeadState mem.readHead
        (λ _ _, EmptyString) "0" map_to_list map_to_list "true" "linux" (λ _, false)
        (λ _ _ _, inr EmptyString) mem.core_Commit mem.UpdateBranchPointer.

(** An environment without an editor. *)
Definition no_editor_env : Env :=
  mkEnv mem.decode_tree mem.encode_tree mem.digest mem.hashCommit mem.digest (λ path, path)
        mem.IsSafePath mem.IsWorkDirDirty mem.GetHeadCommit mem.GetHeadState mem.readHead
        (λ _ _, EmptyString) "0" map_to_list map_to_list EmptyString "linux" (λ _, false)
        (λ _ _ content, inr content) mem.core_Commit mem.UpdateBranchPointer.

(** A reading of a stash position: one decimal digit. *)
Definition parse_digit (s : string) : error + Z :=
  match s with
  | String c EmptyString =>
      if Ascii.is_nat c is Some n then inr (Z.of_nat n)
      else inl (Errorf ("invalid stash index: " +:+ s))
  | _ => inl (Errorf ("invalid stash index: " +:+ s))
  end.

End more.
(** * Properties *)

(** ** Running the monad *)

Lemma bind_run {A B} (m : M A) (f : A → M B) w :
  (m ≫= f) w =
    match m w with
    | (Ok a, w') => f a w'
    | (Err e, w') => (Err e, w')
    | (Panic p, w') => (Panic p, w')
    | (Timeout, w') => (Timeout, w')
    end.
Proof. reflexivity. Qed.

Lemma bind_Ok {A B} (m : M A) (f : A → M B) w a w' :
  m w = (Ok a, w') → (m ≫= f) w = f a w'.
Proof. intros H. rewrite bind_run, H. reflexivity. Qed.

Lemma bind_Err {A B} (m : M A) (f : A → M B) w e w' :
  m w = (Err e, w') → (m ≫= f) w = (Err e, w').
Proof. intros H. rewrite bind_run, H. reflexivity. Qed.

Lemma on_err_Ok {A} h (m : M A) w a w' :
  m w = (Ok a, w') → on_err h m w = (Ok a, w').
Proof. intros H. unfold on_err. rewrite H. reflexivity. Qed.

Lemma on_err_Err {A} h (m : M A) w e w' :
  m w = (Err e, w') → on_err h m w = (Err (h e), w').
Proof. intros H. unfold on_err. rewrite H. reflexivity. Qed.

Lemma try_Ok (m : M unit) w u w' :
  m w = (Ok u, w') → try m w = (Ok None, w').
Proof. intros H. unfold try. rewrite H. reflexivity. Qed.

Lemma try_Err (m : M unit) w e w' :
  m w = (Err e, w') → try m w = (Ok (Some e), w').
Proof. intros H. unfold try. rewrite H. reflexivity. Qed.


(** ** Frames: what an operation leaves alone *)
Section frame.
Context {X : Type} (f : Repo → X).

Lemma frame_ret {A} (a : A) : frame f (mret a).
Proof. intros w. reflexivity. Qed.

Lemma frame_fail {A} e : frame f (@fail A e).
Proof. intros w. reflexivity. Qed.

Lemma frame_panic {A} p : frame f (@panic A p).
Proof. intros w. reflexivity. Qed.

Lemma frame_gets {A} (g : Repo → A) : frame f (gets g).
Proof. intros w. reflexivity. Qed.

Lemma frame_query {A} (g : Repo → error + A) : frame f (query g).
Proof. intros w. unfold query. destruct (g w); reflexivity. Qed.

Lemma frame_bind {A B} (m : M A) (k : A → M B) :
  frame f m → (∀ a, frame f (k a)) → frame f (m ≫= k).
Proof.
  intros Hm Hk w. rewrite bind_run. specialize (Hm w).
  destruct (m w) as [[a|e|p|] w']; simpl in *; [|exact Hm..].
  rewrite Hk. exact Hm.
Qed.

Lemma frame_on_err {A} h (m : M A) : frame f m → frame f (on_err h m).
Proof.
  intros Hm w. unfold on_err. specialize (Hm w).
  destruct (m w) as [[a|e|p|] w']; exact Hm.
Qed.

Lemma frame_try (m : M unit) : frame f m → frame f (try m).
Proof.
  intros Hm w. unfold try. specialize (Hm w).
  destruct (m w) as [[a|e|p|] w']; exact Hm.
Qed.

Lemma frame_try_get {A} (m : M A) : frame f m → frame f (try_get m).
Proof.
  intros Hm w. unfold try_get. specialize (Hm w).
  destruct (m w) as [[a|e|p|] w']; exact Hm.
Qed.

Lemma frame_ignore_err {A} (d : A) (m : M A) : frame f m → frame f (ignore_err d m).
Proof.
  intros Hm w. unfold ignore_err. specialize (Hm w).
  destruct (m w) as [[a|e|p|] w']; exact Hm.
Qed.

Lemma frame_for_each {A} (l : list A) (body : A → M unit) :
  (∀ x, frame f (body x)) → frame f (for_each l body).
Proof.
  intros Hb. induction l as [|x l IH]; simpl.
  - apply frame_ret.
  - apply frame_bind; [apply Hb | intros _; exact IH].
Qed.

Lemma frame_if {A} (b : bool) (m1 m2 : M A) :
  frame f m1 → frame f m2 → frame f (if b then m1 else m2).
Proof. destruct b; auto. Qed.

End frame.

Create HintDb frame discriminated.
#[global] Hint Resolve frame_ret frame_fail frame_panic frame_gets frame_query
  frame_on_err frame_try frame_try_get frame_ignore_err frame_if : frame.

(** Splits a composite operation into its calls; the leaves are closed by
    the hints of the data base [frame]. *)
Ltac frame_step :=
  lazymatch goal with
  | |- frame _ (_ ≫= _) => apply frame_bind; [| intros ?]
  | |- frame _ (for_each _ _) => apply frame_for_each; intros ?
  | |- frame _ (on_err _ _) => apply frame_on_err
  | |- frame _ (try _) => apply frame_try
  | |- frame _ (try_get _) => apply frame_try_get
  | |- frame _ (ignore_err _ _) => apply frame_ignore_err
  | |- frame _ (match ?x with _ => _ end) => destruct x
  | |- frame _ (if ?b then _ else _) => destruct b
  end.
Ltac solve_frame := repeat frame_step; eauto with frame.

(** *** The storage layer

    Each operation of the storage layer writes one part of the repository:
    it leaves alone every part [f] that the corresponding setter leaves
    alone. *)
Section storage_frames.
Variable env : Env.
Context {X : Type} (f : Repo → X).

Lemma FindCommit_state h w : (FindCommit h w).2 = w.
Proof. unfold FindCommit. repeat case_match; reflexivity. Qed.

Lemma FindCommit_frame h : frame f (FindCommit h).
Proof. intros w. by rewrite FindCommit_state. Qed.

Lemma FindCommit_Ok_inv h w c w' :
  FindCommit h w = (Ok c, w') → w' = w ∧ repo_dir w = true.
Proof.
  intros H. pose proof (FindCommit_state h w) as Hs. rewrite H in Hs. simpl in Hs.
  split; [done|]. unfold FindCommit in H. by destruct (repo_dir w).
Qed.

Lemma ReadObject_frame h : frame f (ReadObject h).
Proof. intros w. unfold ReadObject. by destruct (objects w !! h). Qed.

Lemma ParseTree_frame h : frame f (ParseTree env h).
Proof.
  unfold ParseTree. apply frame_bind; [apply ReadObject_frame|].
  intros b. destruct (decode_tree env b); eauto with frame.
Qed.

Lemma LoadIndex_frame : frame f LoadIndex.
Proof. apply frame_gets. Qed.

Lemma WriteIndex_frame idx :
  (∀ v w, f (set_index v w) = f w) → frame f (WriteIndex idx).
Proof. intros Hf w. unfold WriteIndex. destruct (repo_dir w) eqn:E; simpl; auto. Qed.

Lemma WriteFile_HEAD_frame data :
  (∀ v w, f (set_HEAD v w) = f w) → frame f (WriteFile_HEAD data).
Proof. intros Hf w. unfold WriteFile_HEAD. destruct (repo_dir w) eqn:E; simpl; auto. Qed.

Lemma WriteFile_work_frame p c :
  (∀ v w, f (set_worktree v w) = f w) → frame f (WriteFile_work p c).
Proof. intros Hf w. apply Hf. Qed.

Lemma Remove_work_frame p :
  (∀ v w, f (set_worktree v w) = f w) → frame f (Remove_work p).
Proof. intros Hf w. unfold Remove_work. destruct (worktree w !! p); simpl; auto. Qed.

Lemma put_frame bytes :
  (∀ v w, f (set_objects v w) = f w) → frame f (put env bytes).
Proof. intros Hf w. unfold put. destruct (objects w !! _); simpl; auto. Qed.

Lemma HashAndStoreFile_frame path :
  (∀ v w, f (set_objects v w) = f w) → frame f (HashAndStoreFile env path).
Proof.
  intros Hf w. unfold HashAndStoreFile. destruct (worktree w !! path); [|done].
  by apply put_frame.
Qed.

Lemma saveObject_frame content :
  (∀ v w, f (set_objects v w) = f w) →
  (∀ v w, f (set_repo_dir v w) = f w) →
  frame f (saveObject env content).
Proof. intros Hf Hg w. unfold saveObject. simpl. by rewrite Hf, Hg. Qed.

Lemma modify_frame g : (∀ w, f (g w) = f w) → frame f (modify g).
Proof. intros Hf w. apply Hf. Qed.

End storage_frames.

#[global] Hint Resolve FindCommit_frame ReadObject_frame ParseTree_frame LoadIndex_frame
  : frame.
#[global] Hint Extern 1 (frame _ (WriteIndex _)) =>
  apply WriteIndex_frame; intros; reflexivity : frame.
#[global] Hint Extern 1 (frame _ (WriteFile_HEAD _)) =>
  apply WriteFile_HEAD_frame; intros; reflexivity : frame.
#[global] Hint Extern 1 (frame _ (WriteFile_work _ _)) =>
  apply WriteFile_work_frame; intros; reflexivity : frame.
#[global] Hint Extern 1 (frame _ (Remove_work _)) =>
  apply Remove_work_frame; intros; reflexivity : frame.
#[global] Hint Extern 1 (frame _ (put _ _)) =>
  apply put_frame; intros; reflexivity : frame.
#[global] Hint Extern 1 (frame _ (HashAndStoreFile _ _)) =>
  apply HashAndStoreFile_frame; intros; reflexivity : frame.
#[global] Hint Extern 1 (frame _ (saveObject _ _)) =>
  apply saveObject_frame; intros; reflexivity : frame.

Section reset_frames.
Variable env : Env.

Lemma UpdateWorkspaceAndIndex_HEAD h : frame HEAD (UpdateWorkspaceAndIndex env h).
Proof. unfold UpdateWorkspaceAndIndex. solve_frame. Qed.

Lemma UpdateWorkspaceAndIndex_repo_dir h : frame repo_dir (UpdateWorkspaceAndIndex env h).
Proof. unfold UpdateWorkspaceAndIndex. solve_frame. Qed.

Lemma resetIndex_HEAD h : frame HEAD (resetIndex env h).
Proof. unfold resetIndex. solve_frame. Qed.

Lemma resetIndex_repo_dir h : frame repo_dir (resetIndex env h).
Proof. unfold resetIndex. solve_frame. Qed.

Lemma resetWorkspace_HEAD h : frame HEAD (resetWorkspace env h).
Proof. apply UpdateWorkspaceAndIndex_HEAD. Qed.

Lemma resetWorkspace_repo_dir h : frame repo_dir (resetWorkspace env h).
Proof. apply UpdateWorkspaceAndIndex_repo_dir. Qed.

End reset_frames.

(** ** [strings.TrimSpace] *)


Lemma TrimLeft_starts_clean s : starts_clean (strings.TrimLeft s).
Proof.
  induction s as [|c s IH]; simpl; [done|].
  destruct (Ascii.is_space c) eqn:E; [exact IH | exact E].
Qed.

Lemma TrimLeft_id s : starts_clean s → strings.TrimLeft s = s.
Proof. destruct s as [|c s]; simpl; [done|]. by intros ->. Qed.

Lemma TrimRight_starts_clean s : starts_clean s → starts_clean (strings.TrimRight s).
Proof.
  destruct s as [|c s]; simpl; [done|]. intros E.
  destruct (strings.TrimRight s); simpl; [by rewrite E | done].
Qed.

Lemma TrimRight_idemp s : strings.TrimRight (strings.TrimRight s) = strings.TrimRight s.
Proof.
  induction s as [|c s IH]; simpl; [done|].
  destruct (strings.TrimRight s) as [|d t] eqn:E.
  - destruct (Ascii.is_space c) eqn:Ec; simpl; [done | by rewrite Ec].
  - simpl in *. by rewrite IH.
Qed.

Lemma TrimSpace_idemp s : strings.TrimSpace (strings.TrimSpace s) = strings.TrimSpace s.
Proof.
  unfold strings.TrimSpace.
  rewrite (TrimLeft_id (strings.TrimRight _)).
  - apply TrimRight_idemp.
  - apply TrimRight_starts_clean, TrimLeft_starts_clean.
Qed.

(** ** Reset *)


Section reset_props.
Variable env : Env.

(** [Reset] up to the switch on the mode: the commit resolves, HEAD is
    read and the target is written to it. *)
Lemma Reset_moved h mode w c old :
  FindCommit h w = (Ok c, w) →
  HEAD w = Some old →
  Reset env h mode w =
    (let oldHead := strings.TrimSpace old in
     if decide (mode = ResetSoft) then Printf_short h
     else if decide (mode = ResetMixed) then
       err ← try (resetIndex env h);
       match err with
       | Some _ =>
           on_err (wrap "failed to update HEAD: ") (WriteFile_HEAD oldHead);;
           fail (wrap_nil "failed to reset index: ")
       | None => Printf_short h
       end
     else if decide (mode = ResetHard) then
       err ← try (resetIndex env h);
       match err with
       | Some _ =>
           on_err (wrap "failed to update HEAD: ") (WriteFile_HEAD oldHead);;
           fail (wrap_nil "failed to reset index: ")
       | None =>
           err ← try (resetWorkspace env h);
           match err with
           | Some _ =>
               on_err (wrap "failed to update HEAD: ") (WriteFile_HEAD oldHead);;
               fail (wrap_nil "failed to reset workspace: ")
           | None => Printf_short h
           end
       end
     else
       on_err (wrap "failed to update HEAD: ") (WriteFile_HEAD oldHead);;
       fail (Errorf ("unknown reset mode: " +:+ mode +:+ ". Use --soft, --mixed, or --hard")))
    (set_HEAD (Some h) w).
Proof.
  intros Hc Hh. destruct (FindCommit_Ok_inv _ _ _ _ Hc) as [_ Hdir].
  unfold Reset.
  rewrite (bind_Ok _ _ w true w) by (unfold IsRepoInitialized, gets; by rewrite Hdir).
  cbn [negb].
  rewrite (bind_Ok _ _ w c w); [|by apply on_err_Ok].
  rewrite (bind_Ok _ _ w old w);
    [|apply on_err_Ok; unfold ReadFile_HEAD; by rewrite Hh, Hdir].
  rewrite (bind_Ok _ _ w tt (set_HEAD (Some h) w));
    [|apply on_err_Ok; unfold WriteFile_HEAD; by rewrite Hdir].
  reflexivity.
Qed.

(** The rollback: the write of the old value over a moved HEAD. *)
Lemma rollback_run v (e : error) w :
  repo_dir w = true →
  (on_err (wrap "failed to update HEAD: ") (WriteFile_HEAD v);; @fail unit e) w
  = (Err e, set_HEAD (Some v) w).
Proof.
  intros Hdir. rewrite bind_run. unfold on_err, WriteFile_HEAD. by rewrite Hdir.
Qed.

Lemma Printf_short_state h w : (Printf_short h w).2 = w.
Proof. unfold Printf_short. by destruct (strings.slice_to 7 h). Qed.

Lemma Printf_short_not_Err h w e w' : Printf_short h w ≠ (Err e, w').
Proof. unfold Printf_short. by destruct (strings.slice_to 7 h). Qed.

End reset_props.

(** Settles the tests of the switch on a known mode. *)
Ltac mode_decide :=
  repeat first
    [ rewrite decide_True by reflexivity
    | rewrite decide_False by (by compute) ].
Ltac mode_decide_in H :=
  repeat first
    [ rewrite decide_True in H by reflexivity
    | rewrite decide_False in H by (by compute) ].

Section reset_theorems.
Variable env : Env.

Lemma set_HEAD_same w : set_HEAD (HEAD w) w = w.
Proof. by destruct w. Qed.

(** C8. For a target commit that resolves, [Reset] in soft mode moves only
    HEAD: the index file and every file of the working tree are as before
    the call, and so is everything else but [.kitcat/HEAD], which holds the
    target when it could be read. *)
Theorem Reset_soft_moves_only_HEAD h w c :
  FindCommit h w = (Ok c, w) →
  let w' := (Reset env h ResetSoft w).2 in
  index w' = index w
  ∧ worktree w' = worktree w
  ∧ w' = set_HEAD (HEAD w') w
  ∧ (is_Some (HEAD w) → HEAD w' = Some h).
Proof.
  intros Hc w'. destruct (HEAD w) as [old|] eqn:Hh.
  - assert (w' = set_HEAD (Some h) w) as ->.
    { unfold w'. rewrite (Reset_moved env h ResetSoft w c old Hc Hh).
      cbv zeta. mode_decide. apply Printf_short_state. }
    repeat split; reflexivity.
  - assert (w' = w) as ->.
    { unfold w', Reset. destruct (FindCommit_Ok_inv _ _ _ _ Hc) as [_ Hdir].
      rewrite (bind_Ok _ _ w true w) by (unfold IsRepoInitialized, gets; by rewrite Hdir).
      cbn [negb].
      rewrite (bind_Ok _ _ w c w); [|by apply on_err_Ok].
      erewrite (bind_Err _ _ w _ w); [done|].
      apply on_err_Err. unfold ReadFile_HEAD. by rewrite Hh. }
    repeat split; [by rewrite set_HEAD_same | by intros [? ?]].
Qed.

(** C9. For a target commit that resolves and a mode string that is none
    of soft, mixed and hard, [Reset] returns a non-nil error (unknown reset
    mode) and HEAD holds the white-space-trimmed content it had before the
    call: the target was written to it first and the old value written
    back. *)
Theorem Reset_unknown_mode_restores_HEAD h mode w c old :
  FindCommit h w = (Ok c, w) →
  HEAD w = Some old →
  mode ≠ ResetSoft → mode ≠ ResetMixed → mode ≠ ResetHard →
  Reset env h mode w =
    (Err (Errorf ("unknown reset mode: " +:+ mode +:+ ". Use --soft, --mixed, or --hard")),
     set_HEAD (Some (strings.TrimSpace old)) (set_HEAD (Some h) w)).
Proof.
  intros Hc Hh Hs Hm Hhd.
  rewrite (Reset_moved env h mode w c old Hc Hh). cbv zeta.
  rewrite !decide_False by done.
  apply rollback_run. simpl. by destruct (FindCommit_Ok_inv _ _ _ _ Hc).
Qed.

(** What [Reset] does once [resetIndex] has failed on the moved HEAD. *)
Lemma Reset_index_failure h mode w c old e w2 :
  FindCommit h w = (Ok c, w) →
  HEAD w = Some old →
  mode = ResetMixed ∨ mode = ResetHard →
  resetIndex env h (set_HEAD (Some h) w) = (Err e, w2) →
  Reset env h mode w =
    (Err (wrap_nil "failed to reset index: "), set_HEAD (Some (strings.TrimSpace old)) w2).
Proof.
  intros Hc Hh Hmode Hri.
  destruct (FindCommit_Ok_inv _ _ _ _ Hc) as [_ Hdir].
  assert (repo_dir w2 = true) as Hdir2.
  { pose proof (resetIndex_repo_dir env h (set_HEAD (Some h) w)) as F.
    rewrite Hri in F. simpl in F. congruence. }
  rewrite (Reset_moved env h mode w c old Hc Hh). cbv zeta.
  destruct Hmode as [-> | ->]; mode_decide.
  - rewrite (bind_Ok _ _ _ (Some e) w2) by (by apply try_Err).
    by apply rollback_run.
  - rewrite (bind_Ok _ _ _ (Some e) w2) by (by apply try_Err).
    by apply rollback_run.
Qed.

(** What [Reset] does in hard mode once the workspace synchronisation has
    failed after the index was replaced. *)
Lemma Reset_workspace_failure h w c old w2 e w3 :
  FindCommit h w = (Ok c, w) →
  HEAD w = Some old →
  resetIndex env h (set_HEAD (Some h) w) = (Ok tt, w2) →
  resetWorkspace env h w2 = (Err e, w3) →
  Reset env h ResetHard w =
    (Err (wrap_nil "failed to reset workspace: "),
     set_HEAD (Some (strings.TrimSpace old)) w3).
Proof.
  intros Hc Hh Hri Hrw.
  destruct (FindCommit_Ok_inv _ _ _ _ Hc) as [_ Hdir].
  assert (repo_dir w2 = true) as Hdir2.
  { pose proof (resetIndex_repo_dir env h (set_HEAD (Some h) w)) as F.
    rewrite Hri in F. simpl in F. congruence. }
  assert (repo_dir w3 = true) as Hdir3.
  { pose proof (resetWorkspace_repo_dir env h w2) as F.
    rewrite Hrw in F. simpl in F. congruence. }
  rewrite (Reset_moved env h ResetHard w c old Hc Hh). cbv zeta.
  mode_decide.
  rewrite (bind_Ok _ _ _ None w2) by (by eapply try_Ok).
  rewrite (bind_Ok _ _ _ (Some e) w3) by (by apply try_Err).
  by apply rollback_run.
Qed.

(** C2. For a commit that resolves and a mode among mixed and hard:
    whenever [Reset] returns a non-nil error, HEAD holds on return the
    value it had before the call (its content with the surrounding white
    space trimmed, as [Reset] read it); and a failure of the index
    replacement, or in hard mode of the workspace synchronisation, after
    HEAD was moved to the target makes [Reset] return a non-nil error. *)
Theorem Reset_rollback h mode w c old :
  FindCommit h w = (Ok c, w) →
  HEAD w = Some old →
  mode = ResetMixed ∨ mode = ResetHard →
  let moved := set_HEAD (Some h) w in
  (∀ e w', Reset env h mode w = (Err e, w') →
     HEAD w' = Some (strings.TrimSpace old) ∧ head_value w' = head_value w)
  ∧ (∀ e w2, resetIndex env h moved = (Err e, w2) →
       is_err (Reset env h mode w).1 = true
       ∧ HEAD (Reset env h mode w).2 = Some (strings.TrimSpace old))
  ∧ (mode = ResetHard →
     ∀ w2 e w3, resetIndex env h moved = (Ok tt, w2) →
                resetWorkspace env h w2 = (Err e, w3) →
       is_err (Reset env h mode w).1 = true
       ∧ HEAD (Reset env h mode w).2 = Some (strings.TrimSpace old)).
Proof.
  intros Hc Hh Hmode moved. split; [|split].
  - intros e w' HR.
    assert (HEAD w' = Some (strings.TrimSpace old)) as Hw'.
    { destruct (resetIndex env h moved) as [[[]|e1|p|] w2] eqn:Hri.
      + destruct Hmode as [-> | ->].
        * rewrite (Reset_moved env h ResetMixed w c old Hc Hh) in HR. cbv zeta in HR.
          mode_decide_in HR.
          rewrite (bind_Ok _ _ _ None w2) in HR by (by eapply try_Ok).
          by apply Printf_short_not_Err in HR.
        * destruct (resetWorkspace env h w2) as [[[]|e2|p|] w3] eqn:Hrw.
          -- rewrite (Reset_moved env h ResetHard w c old Hc Hh) in HR. cbv zeta in HR.
             mode_decide_in HR.
             rewrite (bind_Ok _ _ _ None w2) in HR by (by eapply try_Ok).
             rewrite (bind_Ok _ _ _ None w3) in HR by (by eapply try_Ok).
             by apply Printf_short_not_Err in HR.
          -- rewrite (Reset_workspace_failure h w c old w2 e2 w3 Hc Hh Hri Hrw) in HR.
             by inversion HR.
          -- rewrite (Reset_moved env h ResetHard w c old Hc Hh) in HR. cbv zeta in HR.
             mode_decide_in HR.
             rewrite (bind_Ok _ _ _ None w2) in HR by (by eapply try_Ok).
             rewrite bind_run in HR. unfold try in HR. rewrite Hrw in HR. done.
          -- rewrite (Reset_moved env h ResetHard w c old Hc Hh) in HR. cbv zeta in HR.
             mode_decide_in HR.
             rewrite (bind_Ok _ _ _ None w2) in HR by (by eapply try_Ok).
             rewrite bind_run in HR. unfold try in HR. rewrite Hrw in HR. done.
      + rewrite (Reset_index_failure h mode w c old e1 w2 Hc Hh Hmode Hri) in HR.
        by inversion HR.
      + rewrite (Reset_moved env h mode w c old Hc Hh) in HR. cbv zeta in HR.
        destruct Hmode as [-> | ->]; mode_decide_in HR;
          rewrite bind_run in HR; unfold try in HR; fold moved in HR;
          rewrite Hri in HR; done.
      + rewrite (Reset_moved env h mode w c old Hc Hh) in HR. cbv zeta in HR.
        destruct Hmode as [-> | ->]; mode_decide_in HR;
          rewrite bind_run in HR; unfold try in HR; fold moved in HR;
          rewrite Hri in HR; done. }
    split; [exact Hw'|].
    unfold head_value. rewrite Hw', Hh. simpl. by rewrite TrimSpace_idemp.
  - intros e w2 Hri.
    by rewrite (Reset_index_failure h mode w c old e w2 Hc Hh Hmode Hri).
  - intros -> w2 e w3 Hri Hrw.
    by rewrite (Reset_workspace_failure h w c old w2 e w3 Hc Hh Hri Hrw).
Qed.

End reset_theorems.

(** *** Reset on the sample repository *)

Lemma Reset_soft_moves_only_HEAD_witness :
  FindCommit "c1aaaaa" sample.repo = (Ok sample.c_one, sample.repo)
  ∧ (let w' := (Reset mem.env "c1aaaaa" ResetSoft sample.repo).2 in
     index w' = index sample.repo
     ∧ worktree w' = worktree sample.repo
     ∧ w' = set_HEAD (HEAD w') sample.repo
     ∧ (is_Some (HEAD sample.repo) → HEAD w' = Some "c1aaaaa")).
Proof.
  split; [reflexivity|].
  apply (Reset_soft_moves_only_HEAD mem.env "c1aaaaa" sample.repo sample.c_one).
  reflexivity.
Defined.

Lemma Reset_unknown_mode_restores_HEAD_witness :
  Reset mem.env "c1aaaaa" "keep" sample.repo =
    (Err (Errorf "unknown reset mode: keep. Use --soft, --mixed, or --hard"),
     set_HEAD (Some "ref: refs/heads/main") sample.repo).
Proof.
  apply (Reset_unknown_mode_restores_HEAD mem.env "c1aaaaa" "keep" sample.repo sample.c_one
           ("ref: refs/heads/main" +:+ nl)).
  - reflexivity.
  - reflexivity.
  - by compute.
  - by compute.
  - by compute.
Defined.

Lemma Reset_rollback_witness :
  (∀ e w', Reset mem.env "c4ddddd" ResetMixed sample.repo = (Err e, w') →
     HEAD w' = Some "ref: refs/heads/main" ∧ head_value w' = head_value sample.repo)
  ∧ (∀ e w2, resetIndex mem.env "c4ddddd" (set_HEAD (Some "c4ddddd") sample.repo) = (Err e, w2) →
       is_err (Reset mem.env "c4ddddd" ResetMixed sample.repo).1 = true
       ∧ HEAD (Reset mem.env "c4ddddd" ResetMixed sample.repo).2 = Some "ref: refs/heads/main")
  ∧ (ResetMixed = ResetHard →
     ∀ w2 e w3, resetIndex mem.env "c4ddddd" (set_HEAD (Some "c4ddddd") sample.repo) = (Ok tt, w2) →
                resetWorkspace mem.env "c4ddddd" w2 = (Err e, w3) →
       is_err (Reset mem.env "c4ddddd" ResetMixed sample.repo).1 = true
       ∧ HEAD (Reset mem.env "c4ddddd" ResetMixed sample.repo).2 = Some "ref: refs/heads/main").
Proof.
  apply (Reset_rollback mem.env "c4ddddd" ResetMixed sample.repo sample.c_notree
           ("ref: refs/heads/main" +:+ nl)).
  - reflexivity.
  - reflexivity.
  - left. reflexivity.
Defined.

(** Mixed reset to a commit whose tree is not in the object store: the index
    replacement fails, HEAD is back on the branch. *)
Example Reset_mixed_missing_tree :
  let r := Reset mem.env "c4ddddd" ResetMixed sample.repo in
  r.1 = Err (wrap_nil "failed to reset index: ")
  ∧ HEAD r.2 = Some "ref: refs/heads/main"
  ∧ index r.2 = index sample.repo.
Proof. vm_compute. done. Qed.

(** Hard reset to a commit whose tree names a blob that is not in the object
    store: the index is replaced, the workspace synchronisation fails, HEAD
    is back on the branch. *)
Example Reset_hard_missing_blob :
  let r := Reset mem.env "c5eeeee" ResetHard sample.repo in
  r.1 = Err (wrap_nil "failed to reset workspace: ")
  ∧ HEAD r.2 = Some "ref: refs/heads/main"
  ∧ index r.2 = {[ "a" := "lost" ]}.
Proof. vm_compute. done. Qed.

(** ** Stash *)

Lemma query_inl {A} (f : Repo → error + A) w e : f w = inl e → query f w = (Err e, w).
Proof. intros H. unfold query. by rewrite H. Qed.

Lemma query_inr {A} (f : Repo → error + A) w a : f w = inr a → query f w = (Ok a, w).
Proof. intros H. unfold query. by rewrite H. Qed.

Section stash_theorems.
Variable env : Env.

Lemma IsRepoInitialized_run w : IsRepoInitialized w = (Ok (repo_dir w), w).
Proof. reflexivity. Qed.

(** [StashPush] on a repository without a [.kitcat] directory. *)
Lemma StashPush_not_a_repository message w :
  repo_dir w = false → StashPush env message w = (Err not_a_repository, w).
Proof.
  intros Hdir. unfold StashPush.
  rewrite (bind_Ok _ _ w false w) by (by rewrite IsRepoInitialized_run, Hdir).
  reflexivity.
Qed.

(** [StashPush] when the HEAD commit cannot be had. *)
Lemma StashPush_no_head message w err :
  repo_dir w = true →
  GetHeadCommit env w = inl err →
  StashPush env message w =
    (Err (if bool_decide (err = ErrNoCommits) || strings.Contains (Error err) "not found"
          then Errorf "cannot stash: no commits yet"
          else wrap "failed to get HEAD commit: " err), w).
Proof.
  intros Hdir Hhead. unfold StashPush.
  rewrite (bind_Ok _ _ w true w) by (by rewrite IsRepoInitialized_run, Hdir).
  cbn [negb].
  rewrite bind_run, (on_err_Err _ _ w err w) by (by apply query_inl).
  reflexivity.
Qed.

(** [StashPush] when the dirty check answers. *)
Lemma StashPush_clean message w c :
  repo_dir w = true →
  GetHeadCommit env w = inr c →
  IsWorkDirDirty env w = inr false →
  StashPush env message w = (Err (Errorf "nothing to stash, working tree clean"), w).
Proof.
  intros Hdir Hhead Hclean. unfold StashPush.
  rewrite (bind_Ok _ _ w true w) by (by rewrite IsRepoInitialized_run, Hdir).
  cbn [negb].
  rewrite (bind_Ok _ _ w c w) by (by apply on_err_Ok, query_inr).
  rewrite (bind_Ok _ _ w false w) by (by apply on_err_Ok, query_inr).
  reflexivity.
Qed.

(** C7. [StashPush] fails with "cannot stash: no commits yet" when the
    repository has no commit yet (the HEAD commit is reported missing by
    [storage.ErrNoCommits] or a "not found" error), and with "nothing to
    stash, working tree clean" when the working tree is clean; a clean
    working tree makes it fail in every case.  In each of these failures
    the repository is left as it was: no commit is appended and the stash
    stack is unchanged. *)
Theorem StashPush_refuses message w :
  (repo_dir w = true →
   ∀ err, GetHeadCommit env w = inl err →
          err = ErrNoCommits ∨ strings.Contains (Error err) "not found" = true →
          StashPush env message w = (Err (Errorf "cannot stash: no commits yet"), w))
  ∧ (repo_dir w = true →
     ∀ c, GetHeadCommit env w = inr c →
          IsWorkDirDirty env w = inr false →
          StashPush env message w = (Err (Errorf "nothing to stash, working tree clean"), w))
  ∧ (IsWorkDirDirty env w = inr false →
     is_err (StashPush env message w).1 = true
     ∧ (StashPush env message w).2 = w
     ∧ commits (StashPush env message w).2 = commits w
     ∧ stash (StashPush env message w).2 = stash w).
Proof.
  split; [|split].
  - intros Hdir err Hhead Hno.
    rewrite (StashPush_no_head message w err Hdir Hhead).
    destruct Hno as [-> | ->]; [done|]. by rewrite orb_true_r.
  - intros Hdir c. by apply StashPush_clean.
  - intros Hclean. destruct (repo_dir w) eqn:Hdir.
    + destruct (GetHeadCommit env w) as [err|c] eqn:Hhead.
      * by rewrite (StashPush_no_head message w err Hdir Hhead).
      * by rewrite (StashPush_clean message w c Hdir Hhead Hclean).
    + by rewrite (StashPush_not_a_repository message w Hdir).
Qed.

(** C1, what the code does. [StashPop] takes the top entry off the stack
    before it looks at the working tree: on a dirty tree it fails and the
    entry is gone from the stack. *)
Theorem StashPop_dirty_loses_top w top rest c :
  stash w = top :: rest →
  FindCommit top (set_stash rest w) = (Ok c, set_stash rest w) →
  IsWorkDirDirty env (set_stash rest w) = inr true →
  StashPop env w =
    (Err (Errorf ("Error: your local changes would be overwritten by stash pop"
                  +:+ nl +:+ "Please commit your changes or stash them before you pop")),
     set_stash rest w).
Proof.
  intros Hst Hc Hdirty. unfold StashPop.
  destruct (FindCommit_Ok_inv _ _ _ _ Hc) as [_ Hdir]. simpl in Hdir.
  rewrite (bind_Ok _ _ w true w) by (by rewrite IsRepoInitialized_run, Hdir).
  cbn [negb].
  rewrite (bind_Ok _ _ w top (set_stash rest w))
    by (apply on_err_Ok; unfold PopStash; by rewrite Hst).
  rewrite (bind_Ok _ _ _ c (set_stash rest w)) by (by apply on_err_Ok).
  rewrite (bind_Ok _ _ _ true (set_stash rest w)) by (by apply on_err_Ok, query_inr).
  reflexivity.
Qed.

(** The sibling [StashApply] checks the working tree before it touches
    anything: on a dirty tree it fails and the repository is as before. *)
Lemma StashApply_dirty_keeps_stack w i stashHash :
  repo_dir w = true →
  (0 ≤ i)%Z →
  stash w !! Z.to_nat i = Some stashHash →
  IsWorkDirDirty env w = inr true →
  is_err (StashApply env i w).1 = true ∧ (StashApply env i w).2 = w.
Proof.
  intros Hdir Hi Hlook Hdirty. unfold StashApply.
  rewrite (bind_Ok _ _ w true w) by (by rewrite IsRepoInitialized_run, Hdir).
  cbn [negb].
  rewrite (bind_Ok _ _ w (stash w) w) by (by apply on_err_Ok).
  apply lookup_lt_Some in Hlook as Hlt.
  replace ((i <? 0)%Z || (Z.of_nat (length (stash w)) <=? i)%Z) with false by lia.
  rewrite Hlook.
  rewrite (bind_Ok _ _ w true w) by (by apply on_err_Ok, query_inr).
  done.
Qed.

End stash_theorems.

Lemma StashPush_refuses_witness :
  StashPush mem.env "wip" sample.fresh
    = (Err (Errorf "cannot stash: no commits yet"), sample.fresh)
  ∧ StashPush mem.env "wip" sample.repo
    = (Err (Errorf "nothing to stash, working tree clean"), sample.repo).
Proof.
  split.
  - destruct (StashPush_refuses mem.env "wip" sample.fresh) as [H _].
    apply (H eq_refl ErrNoCommits); [reflexivity | left; reflexivity].
  - destruct (StashPush_refuses mem.env "wip" sample.repo) as (_ & H & _).
    apply (H eq_refl sample.c_two); reflexivity.
Defined.

Lemma StashPop_dirty_loses_top_witness :
  stash sample.dirty_stashed = ["c3ccccc"]
  ∧ is_err (StashPop mem.env sample.dirty_stashed).1 = true
  ∧ stash (StashPop mem.env sample.dirty_stashed).2 = [].
Proof.
  split; [reflexivity|].
  rewrite (StashPop_dirty_loses_top mem.env sample.dirty_stashed "c3ccccc" [] sample.c_side);
    [split; reflexivity | reflexivity..].
Defined.

(** On a clean tree the entry is popped and applied; on the dirty tree of
    the sample the sibling [StashApply] fails and leaves the stack alone. *)
Example StashPop_clean :
  let r := StashPop mem.env (set_stash ["c3ccccc"] sample.repo) in
  r.1 = Ok tt ∧ stash r.2 = [] ∧ worktree r.2 = {[ "a" := "three" ]}
  ∧ index r.2 = {[ "a" := "three" ]}.
Proof. vm_compute. done. Qed.

Example StashApply_dirty :
  let r := StashApply mem.env 0 sample.dirty_stashed in
  is_err r.1 = true ∧ r.2 = sample.dirty_stashed.
Proof. vm_compute. done. Qed.

(** ** Cherry-pick *)


Section remove_file.
Variable env : Env.

Lemma set_worktree_same w : set_worktree (worktree w) w = w.
Proof. by destruct w. Qed.

Lemma RemoveFile_unsafe path w :
  IsSafePath env (Clean env path) = false →
  RemoveFile env path false w
  = (Err (Errorf ("unsafe path detected: " +:+ Clean env path)), w).
Proof. intros H. unfold RemoveFile. by rewrite H. Qed.

Lemma RemoveFile_untracked path w :
  IsSafePath env (Clean env path) = true →
  index w !! Clean env path = None →
  RemoveFile env path false w
  = (Err (Errorf ("pathspec '" +:+ Clean env path +:+ "' did not match any files")), w).
Proof.
  intros Hsafe Hidx. unfold RemoveFile. rewrite Hsafe. cbn [negb].
  unfold UpdateIndex. rewrite (bind_Ok _ _ w (index w) w) by reflexivity.
  rewrite bind_run. rewrite bind_run. rewrite Hidx. reflexivity.
Qed.

(** The removal of a tracked path: the file goes from the disk when it is
    there, the path goes from the index. *)
Lemma RemoveFile_tracked path w :
  IsSafePath env (Clean env path) = true →
  is_Some (index w !! Clean env path) →
  RemoveFile env path false w
  = if repo_dir w
    then (Ok tt, set_index (delete (Clean env path) (index w))
                   (set_worktree (delete (Clean env path) (worktree w)) w))
    else (Err (Errorf "open .kitcat/index: no such file or directory"),
          set_worktree (delete (Clean env path) (worktree w)) w).
Proof.
  intros Hsafe [d Hidx]. unfold RemoveFile. rewrite Hsafe. cbn [negb].
  set (f := Clean env path) in *.
  unfold UpdateIndex. rewrite (bind_Ok _ _ w (index w) w) by reflexivity.
  assert (∀ B (k : M B),
            (for_each [f] (λ filePath, _ ← try (Remove_work filePath); mret tt);; k) w
            = k (set_worktree (delete f (worktree w)) w)) as Hrm.
  { intros B k. rewrite bind_run. simpl for_each. rewrite bind_run, bind_run.
    unfold try, Remove_work. destruct (worktree w !! f) eqn:Hw; simpl.
    - reflexivity.
    - by rewrite delete_id, set_worktree_same. }
  rewrite bind_run. rewrite bind_run. rewrite Hidx.
  change ((mret [f] : M (list string)) w) with (@Ok (list string) [f], w). cbv iota beta.
  replace (bool_decide (length [f] = 0)) with false by done. cbv iota beta.
  rewrite Hrm. simpl. unfold WriteIndex. simpl.
  by destruct (repo_dir w).
Qed.

End remove_file.

Section apply_change.
Variable env : Env.

(** A deletion that finds no other digest in HEAD goes to [RemoveFile]. *)
Lemma applyChange_deletion_run headTree path change w :
  NewHash change = EmptyString →
  headTree !! path = None ∨ headTree !! path = Some (OldHash change) →
  applyChange env headTree path change w = RemoveFile env path false w.
Proof.
  intros Hnew Hhead. unfold applyChange. rewrite decide_True by done.
  destruct Hhead as [-> | ->]; [done|]. by rewrite decide_False by (intros ?; done).
Qed.

(** C3, as the code has it. A cherry-pick change that deletes a path for
    which the HEAD tree has no entry, or whose HEAD entry is the old
    digest, never reports a conflict for that path.  When the cleaned path
    passes the path-safety check and is tracked in the index, the file is
    removed from the disk if it is there (a missing file is tolerated) and
    the path is dropped from the index.  When the path is unsafe or not
    tracked in the index, the change fails with an error that is no
    conflict, and the disk and the index stay as they were. *)
Theorem applyChange_deletion headTree path change w :
  NewHash change = EmptyString →
  headTree !! path = None ∨ headTree !! path = Some (OldHash change) →
  let f := Clean env path in
  let r := applyChange env headTree path change w in
  reports_conflict r.1 = false
  ∧ (IsSafePath env f = true → is_Some (index w !! f) → repo_dir w = true →
     r = (Ok tt, set_index (delete f (index w)) (set_worktree (delete f (worktree w)) w))
     ∧ worktree r.2 !! f = None ∧ index r.2 !! f = None)
  ∧ (IsSafePath env f = false ∨ index w !! f = None →
     is_err r.1 = true ∧ r.2 = w).
Proof.
  intros Hnew Hhead f r. subst r f.
  rewrite (applyChange_deletion_run headTree path change w Hnew Hhead).
  destruct (IsSafePath env (Clean env path)) eqn:Hsafe.
  - destruct (index w !! Clean env path) as [d|] eqn:Hidx.
    + rewrite (RemoveFile_tracked env path w Hsafe) by (by rewrite Hidx).
      split; [by destruct (repo_dir w)|]. split.
      * intros _ _ ->. split; [done|]. simpl. by rewrite !lookup_delete_eq.
      * intros [?|?]; done.
    + rewrite (RemoveFile_untracked env path w Hsafe Hidx).
      split; [reflexivity|]. split; [by intros _ [? ?]|done].
  - rewrite (RemoveFile_unsafe env path w Hsafe).
    split; [reflexivity|]. split; [done|done].
Qed.

(** A change to a path that HEAD holds with a digest other than the old
    one: the blob is read, the conflict reported, nothing written. *)
Lemma applyChange_modified_both headTree path change w h content :
  NewHash change ≠ EmptyString →
  headTree !! path = Some h →
  h ≠ OldHash change →
  objects w !! NewHash change = Some content →
  applyChange env headTree path change w = (Err (conflict_modified_both path), w).
Proof.
  intros Hnew Hhead Hne Hobj. unfold applyChange. rewrite decide_False by done.
  rewrite (bind_Ok _ _ w content w) by (unfold ReadObject; by rewrite Hobj).
  rewrite Hhead. by rewrite decide_True by done.
Qed.

(** Whatever the repository holds, such a change is never applied. *)
Lemma applyChange_modified_both_fails headTree path change w h :
  NewHash change ≠ EmptyString →
  headTree !! path = Some h →
  h ≠ OldHash change →
  is_err (applyChange env headTree path change w).1 = true
  ∧ (applyChange env headTree path change w).2 = w.
Proof.
  intros Hnew Hhead Hne. unfold applyChange. rewrite decide_False by done.
  rewrite bind_run. unfold ReadObject.
  destruct (objects w !! NewHash change); [|done].
  rewrite Hhead. by rewrite decide_True by done.
Qed.

End apply_change.

(** *** The deletion of a path on the sample repository *)

Lemma applyChange_deletion_witness :
  let headTree : gmap string string := {[ "a" := "one" ]} in
  let r := applyChange mem.env headTree "a" (mkChange "one" EmptyString) sample.repo in
  reports_conflict r.1 = false
  ∧ r.1 = Ok tt ∧ worktree r.2 !! "a" = None ∧ index r.2 !! "a" = None.
Proof.
  intros headTree r.
  destruct (applyChange_deletion mem.env headTree "a" (mkChange "one" EmptyString) sample.repo
              eq_refl (or_intror eq_refl)) as (Hc & Hok & _).
  split; [exact Hc|].
  destruct (Hok eq_refl (ex_intro _ "one" eq_refl) eq_refl) as (Hr & Hw & Hi).
  split; [|split; [exact Hw | exact Hi]].
  unfold r. cbv zeta in Hr. rewrite Hr. reflexivity.
Defined.

(** C3, as stated, fails: in the sample repository in the middle of a rebase
    the HEAD tree and the index have no entry for [b], the incoming change
    deletes [b], and the file [b] is still on the disk after the change,
    which ended in an error. *)
Lemma applyChange_deletion_untracked_counterexample :
  ¬ (∀ (headTree : gmap string string) path change w,
       NewHash change = EmptyString →
       headTree !! path = None ∨ headTree !! path = Some (OldHash change) →
       let r := applyChange mem.env headTree path change w in
       reports_conflict r.1 = false
       ∧ worktree r.2 !! path = None
       ∧ index r.2 !! path = None).
Proof.
  intros H.
  specialize (H {[ "a" := "one" ]} "b" (mkChange "two" EmptyString) sample.rebasing
                eq_refl (or_introl eq_refl)).
  destruct H as (_ & H & _). vm_compute in H. discriminate H.
Qed.

(** The same through the whole cherry-pick of [c_delb], whose only change is
    the deletion of [b]: it ends in the error of [RemoveFile] and leaves the
    file on the disk. *)
Example cherryPick_deletion_untracked :
  let r := cherryPick mem.env "c7ggggg" false sample.rebasing in
  (getChanges mem.env "c6fffff" "c7ggggg" sample.rebasing).1
    = Ok {[ "b" := mkChange "two" EmptyString ]}
  ∧ worktree sample.rebasing !! "b" = Some "notes"
  ∧ r.1 = Err (Errorf "pathspec 'b' did not match any files")
  ∧ worktree r.2 !! "b" = Some "notes".
Proof. vm_compute. done. Qed.

(** Without the file on the disk the deletion has nothing to remove, and
    the cherry-pick still ends in the error of [RemoveFile]: the path is not
    in the index, as it is not in the tree of HEAD. *)
Example cherryPick_deletion_absent :
  let w := set_worktree {[ "a" := "one" ]} sample.rebasing in
  let r := cherryPick mem.env "c7ggggg" false w in
  r.1 = Err (Errorf "pathspec 'b' did not match any files")
  ∧ reports_conflict r.1 = false
  ∧ r.2 = w.
Proof. vm_compute. done. Qed.

(** *** The trees of a cherry-pick *)


Lemma bind_not_nil {A B} (m : M A) (f : A → M B) w :
  is_nil (m w).1 = false → is_nil ((m ≫= f) w).1 = false.
Proof. intros H. rewrite bind_run. by destruct (m w) as [[] ?]. Qed.

Lemma for_each_not_nil {A} (l : list A) (body : A → M unit) x :
  x ∈ l →
  (∀ w, is_nil (body x w).1 = false) →
  ∀ w, is_nil (for_each l body w).1 = false.
Proof.
  intros Hin Hx. induction l as [|y l IH]; [by apply elem_of_nil in Hin|].
  intros w. simpl. rewrite bind_run.
  apply elem_of_cons in Hin as [<- | Hin].
  - specialize (Hx w). by destruct (body x w) as [[] ?].
  - destruct (body y w) as [[] w']; try done. by apply IH.
Qed.

Section cherry_pick.
Variable env : Env.

Lemma diff_trees_changed (pT cT : gmap string string) path d2 :
  cT !! path = Some d2 →
  pT !! path ≠ Some d2 →
  diff_trees pT cT !! path = Some (mkChange (default EmptyString (pT !! path)) d2).
Proof.
  intros Hc Hp. unfold diff_trees. apply lookup_union_Some_l.
  rewrite map_lookup_imap, Hc. simpl. by rewrite decide_False.
Qed.

Lemma getChanges_run w hash pT cT hT :
  picks env w hash pT cT hT →
  ∃ child, FindCommit hash w = (Ok child, w)
           ∧ getChanges env (Parent child) hash w = (Ok (diff_trees pT cT), w).
Proof.
  intros (child & parent & head & Hc & Hne & Hp & HpT & HcT & _).
  exists child. split; [done|]. unfold getChanges.
  rewrite decide_True by done.
  rewrite (bind_Ok _ _ w pT w).
  - rewrite (bind_Ok _ _ w child w) by done.
    by rewrite (bind_Ok _ _ w cT w).
  - rewrite (bind_Ok _ _ w (Some parent) w) by (unfold try_get; by rewrite Hp).
    unfold ignore_err. by rewrite HpT.
Qed.

Lemma applyChanges_run w changes head hT :
  GetHeadCommit env w = inr head →
  ParseTree env (TreeHash head) w = (Ok hT, w) →
  applyChanges env changes w
  = for_each (range_changes env changes) (λ kv, applyChange env hT kv.1 kv.2) w.
Proof.
  intros Hh HhT. unfold applyChanges.
  rewrite (bind_Ok _ _ w head w) by (unfold ignore_err, query; by rewrite Hh).
  by rewrite (bind_Ok _ _ w hT w) by (unfold ignore_err; by rewrite HhT).
Qed.

Lemma cherryPick_run w hash noCommit pT cT hT r w' :
  picks env w hash pT cT hT →
  for_each (range_changes env (diff_trees pT cT))
           (λ kv, applyChange env hT kv.1 kv.2) w = (r, w') →
  is_nil r = false →
  (cherryPick env hash noCommit w).2 = w'
  ∧ (cherryPick env hash noCommit w).1
    = match r with Ok _ => Timeout | Err e => Err e | Panic p => Panic p | Timeout => Timeout end.
Proof.
  intros Hpicks Hfor Hr.
  destruct (getChanges_run w hash pT cT hT Hpicks) as (child & Hc & Hg).
  destruct Hpicks as (child' & parent & head & Hc' & _ & _ & _ & _ & Hh & HhT).
  unfold cherryPick.
  rewrite (bind_Ok _ _ w child w) by done.
  rewrite (bind_Ok _ _ w _ w) by exact Hg.
  rewrite bind_run, (applyChanges_run w _ head hT Hh HhT), Hfor.
  by destruct r.
Qed.

(** C4. A path whose digests in the parent tree, in the child tree and in
    the tree of HEAD are three distinct values (the child's digest being
    that of a blob of the object store, hence not empty): the cherry-pick
    records a change for it, applying that change reports the conflict
    "modified in incoming commit, but modified in HEAD" and leaves the
    repository, working tree and index included, as it was; the cherry-pick
    of the child never succeeds, in whatever order Go ranges over the
    changes; and when the path is the only one that changed, as with the
    trees a:1, a:2 and a:3, the cherry-pick returns that conflict and the
    repository is untouched. *)
Theorem cherryPick_modified_both w hash noCommit pT cT hT path d1 d2 d3 content :
  range_ok env →
  picks env w hash pT cT hT →
  pT !! path = Some d1 →
  cT !! path = Some d2 →
  hT !! path = Some d3 →
  d1 ≠ d2 → d1 ≠ d3 → d2 ≠ d3 →
  d2 ≠ EmptyString →
  objects w !! d2 = Some content →
  diff_trees pT cT !! path = Some (mkChange d1 d2)
  ∧ applyChange env hT path (mkChange d1 d2) w = (Err (conflict_modified_both path), w)
  ∧ is_nil (cherryPick env hash noCommit w).1 = false
  ∧ (diff_trees pT cT = {[ path := mkChange d1 d2 ]} →
     cherryPick env hash noCommit w = (Err (conflict_modified_both path), w)).
Proof.
  intros Hrange Hpicks HpT HcT HhT H12 H13 H23 Hd2 Hobj.
  assert (diff_trees pT cT !! path = Some (mkChange d1 d2)) as Hdiff.
  { rewrite (diff_trees_changed pT cT path d2 HcT) by (rewrite HpT; congruence).
    by rewrite HpT. }
  assert (applyChange env hT path (mkChange d1 d2) w = (Err (conflict_modified_both path), w))
    as Hstep.
  { apply (applyChange_modified_both env hT path (mkChange d1 d2) w d3 content);
      simpl; done || congruence. }
  split; [exact Hdiff|]. split; [exact Hstep|]. split.
  - destruct (for_each (range_changes env (diff_trees pT cT))
                (λ kv, applyChange env hT kv.1 kv.2) w) as [r w'] eqn:Hfor.
    assert (is_nil r = false) as Hr.
    { change r with ((r, w').1). rewrite <- Hfor.
      apply (for_each_not_nil _ _ (path, mkChange d1 d2)).
      - rewrite (range_changes_perm env Hrange). by apply elem_of_map_to_list.
      - intros w0. simpl.
        destruct (applyChange_modified_both_fails env hT path (mkChange d1 d2) w0 d3)
          as [He _]; simpl; try done; try congruence.
        by destruct (applyChange env hT path (mkChange d1 d2) w0) as [[] ?]. }
    destruct (cherryPick_run w hash noCommit pT cT hT r w' Hpicks Hfor Hr) as [_ ->].
    by destruct r.
  - intros Hsingle.
    assert (range_changes env (diff_trees pT cT) = [(path, mkChange d1 d2)]) as Hl.
    { apply Permutation_singleton_r.
      rewrite (range_changes_perm env Hrange), Hsingle. by rewrite map_to_list_singleton. }
    assert (for_each (range_changes env (diff_trees pT cT))
              (λ kv, applyChange env hT kv.1 kv.2) w
            = (Err (conflict_modified_both path), w)) as Hfor.
    { rewrite Hl. simpl. rewrite bind_run. by rewrite Hstep. }
    destruct (cherryPick_run w hash noCommit pT cT hT _ _ Hpicks Hfor eq_refl) as [H2 H1].
    destruct (cherryPick env hash noCommit w) as [r' w'']. simpl in *. by subst.
Qed.

End cherry_pick.

(** The reference environment ranges over a map in the order of the map. *)
Lemma mem_range_ok : range_ok mem.env.
Proof. split; intros m; reflexivity. Qed.

Lemma cherryPick_modified_both_witness :
  let w := set_refs {[ "refs/heads/main" := "c3ccccc" ]} sample.repo in
  applyChange mem.env {[ "a" := "three" ]} "a" (mkChange "one" "two") w
    = (Err (conflict_modified_both "a"), w)
  ∧ cherryPick mem.env "c1aaaaa" false w = (Err (conflict_modified_both "a"), w).
Proof.
  intros w.
  destruct (cherryPick_modified_both mem.env w "c1aaaaa" false
              {[ "a" := "one" ]} {[ "a" := "two" ]} {[ "a" := "three" ]}
              "a" "one" "two" "three" "two" mem_range_ok) as (_ & Hstep & _ & Hpick).
  - exists sample.c_one, sample.c_base, sample.c_side.
    repeat split; (reflexivity || (by compute)).
  - reflexivity.
  - reflexivity.
  - reflexivity.
  - by compute.
  - by compute.
  - by compute.
  - by compute.
  - reflexivity.
  - split; [exact Hstep|]. apply Hpick. by vm_compute.
Defined.

(** ** The commits to rebase *)

Section commits_between.

Lemma walk_to_not_base w base h l : walk_to w base h l → base ∉ l.
Proof.
  induction 1 as [|h c l Hne _ _ _ IH]; [apply not_elem_of_nil|].
  apply not_elem_of_cons. split; [congruence | exact IH].
Qed.

Lemma walk_to_head w base h l : walk_to w base h l → h ≠ base → head l = Some h.
Proof. by destruct 1. Qed.

Lemma walk_to_nil w base h : walk_to w base h [] → h = base.
Proof. by inversion 1. Qed.

Lemma walk_to_newest_last w base h l :
  walk_to w base h l → h ≠ base → last (reverse l) = Some h.
Proof. intros Hw Hne. rewrite last_reverse. by eapply walk_to_head. Qed.

(** The walk of [getCommitsBetween] along a parent chain that reaches the
    base: enough fuel gives the commits passed, oldest first. *)
Lemma getCommitsBetween_walk_to w base h l :
  base ≠ EmptyString →
  walk_to w base h l →
  ∀ chain fuel, length l < fuel →
    getCommitsBetween_walk fuel base h chain w = (Ok (reverse (chain ++ l)), w).
Proof.
  intros Hbase. induction 1 as [|h c l Hne Hnz Hc Hw IH]; intros chain fuel Hfuel.
  - destruct fuel as [|fuel]; [simpl in Hfuel; lia|]. simpl.
    rewrite decide_False by done. rewrite decide_True by done.
    by rewrite app_nil_r.
  - destruct fuel as [|fuel]; [simpl in Hfuel; lia|]. simpl.
    rewrite decide_False by done. rewrite decide_False by done.
    rewrite (bind_Ok _ _ w c w) by done.
    assert (Parent c ≠ EmptyString) as Hp.
    { intros Hp. rewrite Hp in Hw. inversion Hw; congruence. }
    rewrite decide_False by done.
    rewrite IH by (simpl in Hfuel; lia).
    by rewrite <- app_assoc.
Qed.

(** The walk along a parent chain that ends at a root without meeting the
    base: enough fuel gives the whole chain, oldest first, and no error. *)
Lemma getCommitsBetween_walk_to_root w base h l :
  base ≠ EmptyString →
  walk_to_root w h l →
  base ∉ l →
  ∀ chain fuel, length l ≤ fuel →
    getCommitsBetween_walk fuel base h chain w = (Ok (reverse (chain ++ l)), w).
Proof.
  intros Hbase. induction 1 as [h c Hnz Hc Hp|h c l Hnz Hc Hp Hw IH];
    intros Hnot chain fuel Hfuel.
  - destruct fuel as [|fuel]; [simpl in Hfuel; lia|]. simpl.
    rewrite decide_False by done.
    rewrite decide_False by (intros ->; apply Hnot; by left).
    rewrite (bind_Ok _ _ w c w) by done.
    rewrite decide_True by done. by rewrite decide_False by done.
  - destruct fuel as [|fuel]; [simpl in Hfuel; lia|]. simpl.
    rewrite decide_False by done.
    rewrite decide_False by (intros ->; apply Hnot; by left).
    rewrite (bind_Ok _ _ w c w) by done.
    rewrite decide_False by done.
    rewrite IH.
    + by rewrite <- app_assoc.
    + intros Hin. apply Hnot. by right.
    + simpl in Hfuel. lia.
Qed.

End commits_between.

Section rebase_start.
Variable env : Env.

(** [RebaseInteractive] up to the computation of the commits to rebase. *)
Lemma RebaseInteractive_run fuel arg w onto headState h :
  repo_dir w = true →
  IsWorkDirDirty env w = inr false →
  FindCommit arg w = (Ok onto, w) →
  GetHeadState env w = inr headState →
  readHead env w = inr h →
  RebaseInteractive env fuel arg w
  = (commitsToRebase ← getCommitsBetween fuel (ID onto) h;
     if bool_decide (length commitsToRebase = 0) then mret tt
     else rebase_replay env fuel onto h (rebaseHeadName headState) commitsToRebase) w.
Proof.
  intros Hdir Hclean Hc Hs Hh. unfold RebaseInteractive.
  rewrite (bind_Ok _ _ w true w) by (unfold IsRepoInitialized, gets; by rewrite Hdir).
  cbn [negb].
  rewrite (bind_Ok _ _ w false w) by (by apply on_err_Ok, query_inr).
  rewrite (bind_Ok _ _ w onto w) by (by apply on_err_Ok).
  rewrite (bind_Ok _ _ w headState w) by (by apply query_inr).
  rewrite (bind_Ok _ _ w h w) by (by apply query_inr).
  reflexivity.
Qed.

(** C5, as the code has it. For a base commit that is an ancestor of HEAD,
    an interactive rebase computes the commits after the base up to and
    including the current HEAD, oldest first: the commits passed on the
    walk along the parent pointers from HEAD to the base, reversed.  HEAD
    itself is the last of them, the base is not among them.  When the list
    is empty, that is when HEAD is the base, the rebase succeeds and the
    repository is as before: no rebase state is persisted, HEAD is
    unmoved.  When it is not empty the rebase goes on with that list. *)
Theorem RebaseInteractive_commits_to_rebase w arg onto headState h l fuel :
  IsWorkDirDirty env w = inr false →
  FindCommit arg w = (Ok onto, w) →
  GetHeadState env w = inr headState →
  readHead env w = inr h →
  ID onto ≠ EmptyString →
  walk_to w (ID onto) h l →
  length l < fuel →
  getCommitsBetween fuel (ID onto) h w = (Ok (reverse l), w)
  ∧ (ID onto ∉ reverse l)
  ∧ (h ≠ ID onto → last (reverse l) = Some h)
  ∧ (l = [] → h = ID onto ∧ RebaseInteractive env fuel arg w = (Ok tt, w))
  ∧ (l ≠ [] →
     RebaseInteractive env fuel arg w
     = rebase_replay env fuel onto h (rebaseHeadName headState) (reverse l) w).
Proof.
  intros Hclean Hc Hs Hh Hbase Hw Hfuel.
  destruct (FindCommit_Ok_inv _ _ _ _ Hc) as [_ Hdir].
  assert (getCommitsBetween fuel (ID onto) h w = (Ok (reverse l), w)) as Hg.
  { unfold getCommitsBetween.
    by rewrite (getCommitsBetween_walk_to w (ID onto) h l Hbase Hw [] fuel Hfuel). }
  split; [exact Hg|]. split; [|split; [|split]].
  - rewrite elem_of_reverse. by eapply walk_to_not_base.
  - by eapply walk_to_newest_last.
  - intros ->. split; [by eapply walk_to_nil|].
    rewrite (RebaseInteractive_run fuel arg w onto headState h Hdir Hclean Hc Hs Hh).
    by rewrite (bind_Ok _ _ w _ w Hg).
  - intros Hne.
    rewrite (RebaseInteractive_run fuel arg w onto headState h Hdir Hclean Hc Hs Hh).
    rewrite (bind_Ok _ _ w _ w Hg).
    rewrite bool_decide_false; [done|].
    rewrite length_reverse. by destruct l.
Qed.

(** C10. For a base commit that resolves and is not on the parent chain of
    HEAD, [getCommitsBetween] returns without error the whole chain from
    HEAD back to and including the root commit, oldest first, and the
    interactive rebase goes on to replay it: no ancestry check stops
    it. *)
Theorem RebaseInteractive_base_not_ancestor w arg onto headState h l fuel :
  IsWorkDirDirty env w = inr false →
  FindCommit arg w = (Ok onto, w) →
  GetHeadState env w = inr headState →
  readHead env w = inr h →
  ID onto ≠ EmptyString →
  walk_to_root w h l →
  ID onto ∉ l →
  length l ≤ fuel →
  getCommitsBetween fuel (ID onto) h w = (Ok (reverse l), w)
  ∧ reverse l ≠ []
  ∧ RebaseInteractive env fuel arg w
    = rebase_replay env fuel onto h (rebaseHeadName headState) (reverse l) w.
Proof.
  intros Hclean Hc Hs Hh Hbase Hw Hnot Hfuel.
  destruct (FindCommit_Ok_inv _ _ _ _ Hc) as [_ Hdir].
  assert (getCommitsBetween fuel (ID onto) h w = (Ok (reverse l), w)) as Hg.
  { unfold getCommitsBetween.
    by rewrite (getCommitsBetween_walk_to_root w (ID onto) h l Hbase Hw Hnot [] fuel Hfuel). }
  assert (l ≠ []) as Hne by (by destruct Hw).
  split; [exact Hg|]. split.
  - intros Hr. apply Hne. apply (f_equal length) in Hr.
    rewrite length_reverse in Hr. by destruct l.
  - rewrite (RebaseInteractive_run fuel arg w onto headState h Hdir Hclean Hc Hs Hh).
    rewrite (bind_Ok _ _ w _ w Hg).
    rewrite bool_decide_false; [done|].
    rewrite length_reverse. by destruct l.
Qed.

End rebase_start.

(** *** The commits to rebase in the sample repository *)

Lemma sample_walk_to_base : walk_to sample.repo "base000" "c2bbbbb" ["c2bbbbb"; "c1aaaaa"].
Proof.
  apply (walk_step _ _ "c2bbbbb" sample.c_two); [by compute | by compute | reflexivity |].
  apply (walk_step _ _ "c1aaaaa" sample.c_one); [by compute | by compute | reflexivity |].
  apply walk_here.
Defined.

Lemma sample_walk_to_root :
  walk_to_root sample.repo "c2bbbbb" ["c2bbbbb"; "c1aaaaa"; "base000"].
Proof.
  apply (root_step _ "c2bbbbb" sample.c_two); [by compute | reflexivity | by compute |].
  apply (root_step _ "c1aaaaa" sample.c_one); [by compute | reflexivity | by compute |].
  apply (root_here _ "base000" sample.c_base); [by compute | reflexivity | reflexivity].
Defined.

Lemma RebaseInteractive_commits_to_rebase_witness :
  getCommitsBetween 3 "base000" "c2bbbbb" sample.repo = (Ok ["c1aaaaa"; "c2bbbbb"], sample.repo)
  ∧ RebaseInteractive mem.env 3 "base000" sample.repo
    = rebase_replay mem.env 3 sample.c_base "c2bbbbb" "refs/heads/main"
                    ["c1aaaaa"; "c2bbbbb"] sample.repo.
Proof.
  destruct (RebaseInteractive_commits_to_rebase mem.env sample.repo "base000" sample.c_base
              "main" "c2bbbbb" ["c2bbbbb"; "c1aaaaa"] 3) as (Hg & _ & _ & _ & Hgo).
  - reflexivity.
  - reflexivity.
  - reflexivity.
  - reflexivity.
  - by compute.
  - exact sample_walk_to_base.
  - simpl. lia.
  - split; [exact Hg|]. by apply Hgo.
Defined.

(** C5, as stated, fails: with HEAD one commit after the base no commit lies
    strictly between the two, yet [getCommitsBetween] returns HEAD itself. *)
Lemma strictly_between_counterexample :
  ¬ (∀ w base h l fuel,
       base ≠ EmptyString →
       walk_to w base h l →
       length l < fuel →
       getCommitsBetween fuel base h w = (Ok (strictly_between l), w)).
Proof.
  intros H.
  specialize (H sample.repo "c1aaaaa" "c2bbbbb" ["c2bbbbb"] 2).
  assert (walk_to sample.repo "c1aaaaa" "c2bbbbb" ["c2bbbbb"]) as Hw.
  { apply (walk_step _ _ "c2bbbbb" sample.c_two); [by compute | by compute | reflexivity |].
    apply walk_here. }
  specialize (H ltac:(by compute) Hw ltac:(simpl; lia)).
  vm_compute in H. discriminate H.
Qed.

(** There the rebase is not the trivial one: it replays HEAD onto the base
    and, the scratch branch being where the branch was, moves the branch to
    the new commit. *)
Example RebaseInteractive_onto_parent_of_HEAD :
  let r := RebaseInteractive mem.env 5 "c1aaaaa" sample.repo in
  (getCommitsBetween 5 "c1aaaaa" "c2bbbbb" sample.repo).1 = Ok ["c2bbbbb"]
  ∧ r.1 = Ok tt
  ∧ r.2 ≠ sample.repo
  ∧ refs r.2 !! "refs/heads/main" ≠ refs sample.repo !! "refs/heads/main".
Proof.
  vm_compute. split; [done|]. split; [done|]. split; intros H; discriminate H.
Qed.

(** With HEAD at the base the list is empty and nothing changes. *)
Example RebaseInteractive_onto_HEAD :
  RebaseInteractive mem.env 5 "c2bbbbb" sample.repo = (Ok tt, sample.repo).
Proof. vm_compute. reflexivity. Qed.

Lemma RebaseInteractive_base_not_ancestor_witness :
  getCommitsBetween 3 "c3ccccc" "c2bbbbb" sample.repo
    = (Ok ["base000"; "c1aaaaa"; "c2bbbbb"], sample.repo)
  ∧ RebaseInteractive mem.env 3 "c3ccccc" sample.repo
    = rebase_replay mem.env 3 sample.c_side "c2bbbbb" "refs/heads/main"
                    ["base000"; "c1aaaaa"; "c2bbbbb"] sample.repo.
Proof.
  destruct (RebaseInteractive_base_not_ancestor mem.env sample.repo "c3ccccc" sample.c_side
              "main" "c2bbbbb" ["c2bbbbb"; "c1aaaaa"; "base000"] 3) as (Hg & _ & Hgo).
  - reflexivity.
  - reflexivity.
  - reflexivity.
  - reflexivity.
  - by compute.
  - exact sample_walk_to_root.
  - apply (bool_decide_unpack _). by vm_compute.
  - simpl. lia.
  - split; [exact Hg | exact Hgo].
Defined.

(** The rebase onto the side commit: the todo list names every commit of
    the history of HEAD, root included, and the loop starts on it. *)
Example RebaseInteractive_onto_side_commit :
  let r := RebaseInteractive mem.env 5 "c3ccccc" sample.repo in
  r.1 = Ok tt
  ∧ (TodoSteps <$> rebase_state r.2)
    = Some ["pick base000 base"; "pick c1aaaaa one"; "pick c2bbbbb two"]
  ∧ HEAD r.2 = Some "ref: refs/heads/kitcat-rebase-tmp".
Proof. vm_compute. done. Qed.

(** ** The rebase loop *)

(** Evaluates the tests on a known action. *)
Ltac decide_action :=
  repeat match goal with
    | |- context [bool_decide ?P] =>
        let b := eval vm_compute in (bool_decide P) in
        change (bool_decide P) with b
    | H : context [bool_decide ?P] |- _ =>
        let b := eval vm_compute in (bool_decide P) in
        change (bool_decide P) with b in H
    end.

Section rebase_loop.
Variable env : Env.
Hypothesis Hlaws : rebase_frame_ok env.

Lemma UpdateIndex_rebase_state fn :
  (∀ idx, frame rebase_state (fn idx)) → frame rebase_state (UpdateIndex fn).
Proof. intros Hfn. unfold UpdateIndex. solve_frame. Qed.

Lemma RemoveFile_rebase_state path recursive : frame rebase_state (RemoveFile env path recursive).
Proof.
  unfold RemoveFile. destruct (negb _); [eauto with frame|].
  apply UpdateIndex_rebase_state. intros idx. solve_frame.
Qed.

Lemma AddFile_rebase_state path : frame rebase_state (AddFile env path).
Proof.
  unfold AddFile. apply frame_bind; [eauto with frame|]. intros hash.
  apply UpdateIndex_rebase_state. intros idx. eauto with frame.
Qed.

Lemma applyChange_rebase_state headTree path change :
  frame rebase_state (applyChange env headTree path change).
Proof.
  pose proof RemoveFile_rebase_state. pose proof AddFile_rebase_state.
  unfold applyChange. solve_frame.
Qed.

Lemma applyChanges_rebase_state changes : frame rebase_state (applyChanges env changes).
Proof.
  pose proof applyChange_rebase_state. unfold applyChanges. solve_frame.
Qed.

Lemma getChanges_rebase_state p c : frame rebase_state (getChanges env p c).
Proof. unfold getChanges. solve_frame. Qed.

Lemma cherryPick_rebase_state hash noCommit : frame rebase_state (cherryPick env hash noCommit).
Proof.
  pose proof applyChanges_rebase_state. pose proof getChanges_rebase_state.
  pose proof (core_Commit_rebase_state env Hlaws).
  unfold cherryPick. solve_frame.
Qed.

Lemma promptForMessage_rebase_state msg : frame rebase_state (promptForMessage env msg).
Proof.
  unfold promptForMessage. apply frame_bind.
  { apply modify_frame. intros w. by destruct (repo_dir w). }
  intros _. destruct (getEditor env) as [?|[editor args]]; [eauto with frame|].
  apply frame_bind; [|intros _; solve_frame].
  apply modify_frame. intros w. destruct (commit_editmsg w); [|done].
  by destruct (run_editor env editor args _).
Qed.

Lemma amendCommitMessage_rebase_state id msg :
  frame rebase_state (amendCommitMessage env id msg).
Proof.
  pose proof (UpdateBranchPointer_rebase_state env Hlaws).
  unfold amendCommitMessage. solve_frame.
Qed.

Lemma amendCommit_rebase_state c msg : frame rebase_state (amendCommit env c msg).
Proof.
  pose proof (UpdateBranchPointer_rebase_state env Hlaws).
  unfold amendCommit, CreateTree. solve_frame.
Qed.

Lemma runStep_rebase_state action hash : frame rebase_state (runStep env action hash).
Proof.
  pose proof cherryPick_rebase_state. pose proof promptForMessage_rebase_state.
  pose proof amendCommitMessage_rebase_state. pose proof amendCommit_rebase_state.
  unfold runStep, executePick, executeReword, executeSquash. solve_frame.
Qed.

(** A step of the pick family fails with the error of its cherry-pick. *)
Lemma runStep_cherryPick_Err action hash w e w1 :
  action ∈ ["pick"; "p"; "reword"; "r"; "squash"; "s"] →
  cherryPick env hash (bool_decide (action = "squash" ∨ action = "s")) w = (Err e, w1) →
  runStep env action hash w = (Err e, w1).
Proof.
  intros Hin Hcp. unfold runStep, executePick, executeReword, executeSquash.
  repeat (apply elem_of_cons in Hin as [-> | Hin]);
    [..|by apply elem_of_nil in Hin];
    decide_action; cbv iota; try exact Hcp; by rewrite (bind_Err _ _ w e w1).
Qed.

(** One turn of the loop on a step that runs. *)
Lemma RunRebaseLoop_turn fuel w st action hash rest :
  rebase_state w = Some st →
  CurrentStep st < length (TodoSteps st) →
  strings.Fields (default EmptyString (TodoSteps st !! CurrentStep st))
    = action :: hash :: rest →
  RunRebaseLoop env (S fuel) w
  = (stepErr ← try (runStep env action hash);
     match stepErr with
     | Some _ => mret tt
     | None => AdvanceRebaseStep st;; RunRebaseLoop env fuel
     end) w.
Proof.
  intros Hst Hlt Hfields. simpl.
  rewrite (bind_Ok _ _ w (default EmptyString (TodoSteps st !! CurrentStep st), st) w).
  - rewrite bool_decide_false by lia. by rewrite Hfields.
  - unfold ReadNextTodo. rewrite (bind_Ok _ _ w st w); [done|].
    unfold LoadRebaseState. by rewrite Hst.
Qed.

(** On success the loop persists the next step index and goes on. *)
Lemma RunRebaseLoop_advances fuel w st action hash rest w1 :
  rebase_state w = Some st →
  CurrentStep st < length (TodoSteps st) →
  strings.Fields (default EmptyString (TodoSteps st !! CurrentStep st))
    = action :: hash :: rest →
  runStep env action hash w = (Ok tt, w1) →
  RunRebaseLoop env (S fuel) w
  = RunRebaseLoop env fuel
      (set_rebase_state
         (Some (mkRebaseState (HeadName st) (Onto st) (OrigHead st) (TodoSteps st)
                              (S (CurrentStep st)))) w1).
Proof.
  intros Hst Hlt Hfields Hstep.
  rewrite (RunRebaseLoop_turn fuel w st action hash rest Hst Hlt Hfields).
  rewrite (bind_Ok _ _ w None w1) by (by eapply try_Ok).
  reflexivity.
Qed.

(** C6. While a rebase is in progress, when running the current todo step
    ends in an error, a cherry-pick conflict above all, the loop stops
    there: it returns without advancing the step index, and the persisted
    rebase state is the one it read, still pointing at the failed step.
    ([core.Commit] and [UpdateBranchPointer], which the environment stands
    for, are taken not to write the rebase state.) *)
Theorem RunRebaseLoop_stops_at_failed_step fuel w st action hash rest e w1 :
  rebase_state w = Some st →
  CurrentStep st < length (TodoSteps st) →
  strings.Fields (default EmptyString (TodoSteps st !! CurrentStep st))
    = action :: hash :: rest →
  runStep env action hash w = (Err e, w1) →
  RunRebaseLoop env (S fuel) w = (Ok tt, w1)
  ∧ rebase_state w1 = Some st
  ∧ (CurrentStep <$> rebase_state w1) = Some (CurrentStep st).
Proof.
  intros Hst Hlt Hfields Hstep.
  assert (rebase_state w1 = Some st) as Hst1.
  { pose proof (runStep_rebase_state action hash w) as F.
    rewrite Hstep in F. simpl in F. congruence. }
  split; [|split; [exact Hst1 | by rewrite Hst1]].
  rewrite (RunRebaseLoop_turn fuel w st action hash rest Hst Hlt Hfields).
  by rewrite (bind_Ok _ _ w (Some e) w1) by (by apply try_Err).
Qed.

End rebase_loop.

(** The operations of the reference environment leave the rebase state
    alone. *)
Lemma mem_rebase_frame_ok : rebase_frame_ok mem.env.
Proof.
  split.
  - intros msg w. simpl. unfold mem.core_Commit.
    destruct (decide _); [done|]. unfold mem.UpdateBranchPointer. simpl.
    destruct (HEAD w); [|done]. by destruct (strings.HasPrefix _ _).
  - intros h w. simpl. unfold mem.UpdateBranchPointer.
    destruct (HEAD w); [|done]. by destruct (strings.HasPrefix _ _).
Defined.

Lemma RunRebaseLoop_stops_at_failed_step_witness :
  cherryPick mem.env "c1aaaaa" false sample.conflicting
    = (Err (conflict_modified_both "a"), sample.conflicting)
  ∧ RunRebaseLoop mem.env 1 sample.conflicting = (Ok tt, sample.conflicting)
  ∧ (CurrentStep <$> rebase_state sample.conflicting) = Some 0.
Proof.
  assert (cherryPick mem.env "c1aaaaa" false sample.conflicting
          = (Err (conflict_modified_both "a"), sample.conflicting)) as Hcp
    by (vm_compute; reflexivity).
  split; [exact Hcp|].
  destruct (RunRebaseLoop_stops_at_failed_step mem.env mem_rebase_frame_ok 0
              sample.conflicting
              (mkRebaseState "refs/heads/main" "c3ccccc" "c1aaaaa" ["pick c1aaaaa one"] 0)
              "pick" "c1aaaaa" ["one"] (conflict_modified_both "a") sample.conflicting)
    as (Hloop & _ & Hidx).
  - reflexivity.
  - simpl. lia.
  - reflexivity.
  - apply (runStep_cherryPick_Err mem.env "pick" "c1aaaaa").
    + apply (bool_decide_unpack _). by vm_compute.
    + exact Hcp.
  - split; [exact Hloop | exact Hidx].
Defined.

(** Two turns of the loop: the first step is dropped and the index moves to
    the second, whose pick conflicts; the loop returns and the persisted
    index is that of the step that failed. *)
Example RunRebaseLoop_stops_at_second_step :
  let r := RunRebaseLoop mem.env 5 sample.conflicting_later in
  r.1 = Ok tt
  ∧ (CurrentStep <$> rebase_state r.2) = Some 1
  ∧ (TodoSteps <$> rebase_state r.2) = Some ["drop c2bbbbb two"; "pick c1aaaaa one"]
  ∧ (runStep mem.env "pick" "c1aaaaa" r.2).1 = Err (conflict_modified_both "a").
Proof. vm_compute. done. Qed.

(** * More properties of the code *)

(** ** What the synchroniser and [Reset] leave alone *)

Section more_frames.
Variable env : Env.
Context {X : Type} (f : Repo → X).
Hypothesis f_index : ∀ v w, f (set_index v w) = f w.
Hypothesis f_worktree : ∀ v w, f (set_worktree v w) = f w.

Lemma UpdateWorkspaceAndIndex_frame h : frame f (UpdateWorkspaceAndIndex env h).
Proof using f_index f_worktree.
  unfold UpdateWorkspaceAndIndex. repeat frame_step; eauto with frame.
  - by apply Remove_work_frame.
  - by apply WriteFile_work_frame.
  - by apply WriteIndex_frame.
Qed.

Lemma resetIndex_frame h : frame f (resetIndex env h).
Proof using f_index.
  unfold resetIndex. repeat frame_step; eauto with frame. by apply WriteIndex_frame.
Qed.

Hypothesis f_HEAD : ∀ v w, f (set_HEAD v w) = f w.

Lemma Printf_short_frame h : frame f (Printf_short h).
Proof. intros w. unfold Printf_short. by destruct (strings.slice_to 7 h). Qed.

Lemma ReadFile_HEAD_frame : frame f ReadFile_HEAD.
Proof. intros w. unfold ReadFile_HEAD. destruct (HEAD w); [|done]. by destruct (repo_dir w). Qed.

Lemma Reset_frame h mode : frame f (Reset env h mode).
Proof using f_index f_worktree f_HEAD.
  pose proof UpdateWorkspaceAndIndex_frame. pose proof resetIndex_frame.
  pose proof Printf_short_frame. pose proof ReadFile_HEAD_frame.
  unfold Reset, resetWorkspace, IsRepoInitialized.
  repeat frame_step; eauto with frame; by apply WriteFile_HEAD_frame.
Qed.

End more_frames.

Lemma bind_Ok_inv {A B} (m : M A) (k : A → M B) w b w' :
  (m ≫= k) w = (Ok b, w') → ∃ a w1, m w = (Ok a, w1) ∧ k a w1 = (Ok b, w').
Proof.
  rewrite bind_run. destruct (m w) as [[a|e|p|] w1]; try done. by exists a, w1.
Qed.

Lemma on_err_Ok_inv {A} h (m : M A) w a w' :
  on_err h m w = (Ok a, w') → m w = (Ok a, w').
Proof. unfold on_err. by destruct (m w) as [[] ?]. Qed.

Lemma slice_to_is_Some n s : n ≤ String.length s → is_Some (strings.slice_to n s).
Proof.
  revert s. induction n as [|n IH]; intros s Hn; [by eexists|].
  destruct s as [|c s]; simpl in *; [lia|].
  destruct (IH s) as [t Ht]; [lia|]. rewrite Ht. by eexists.
Qed.

Lemma Printf_short_Ok h w : 7 ≤ String.length h → Printf_short h w = (Ok tt, w).
Proof.
  intros Hn. unfold Printf_short. by destruct (slice_to_is_Some 7 h Hn) as [t ->].
Qed.

Lemma Printf_short_Ok_inv h w w' : Printf_short h w = (Ok tt, w') → w' = w.
Proof. unfold Printf_short. destruct (strings.slice_to 7 h); by inversion 1. Qed.

Section reset_more.
Variable env : Env.

(** [ParseTree] reads the object store and nothing else. *)
Lemma ParseTree_objects h w w0 :
  objects w = objects w0 → (ParseTree env h w).1 = (ParseTree env h w0).1.
Proof.
  intros Ho. unfold ParseTree. rewrite !bind_run. unfold ReadObject. rewrite Ho.
  destruct (objects w0 !! h); [|done]. by destruct (decode_tree env _).
Qed.

Lemma ParseTree_state h w : (ParseTree env h w).2 = w.
Proof.
  unfold ParseTree. rewrite bind_run. unfold ReadObject.
  destruct (objects w !! h); [|done]. by destruct (decode_tree env _).
Qed.

Lemma resetIndex_Ok_inv h w w' :
  resetIndex env h w = (Ok tt, w') →
  ∃ c t, FindCommit h w = (Ok c, w)
         ∧ (ParseTree env (TreeHash c) w).1 = Ok t
         ∧ w' = set_index t w.
Proof.
  unfold resetIndex. intros H.
  apply bind_Ok_inv in H as (c & w1 & Hc & H). apply on_err_Ok_inv in Hc.
  destruct (FindCommit_Ok_inv _ _ _ _ Hc) as [-> Hdir].
  apply bind_Ok_inv in H as (t & w2 & Ht & H). apply on_err_Ok_inv in Ht.
  pose proof (ParseTree_state (TreeHash c) w) as Hs. rewrite Ht in Hs. simpl in Hs. subst w2.
  exists c, t. split; [done|]. split; [by rewrite Ht|].
  unfold WriteIndex in H. rewrite Hdir in H. inversion H.
  by rewrite (right_id_L ∅ (∪)).
Qed.

Lemma Reset_Ok_inv h mode w w' :
  Reset env h mode w = (Ok tt, w') →
  ∃ c old, FindCommit h w = (Ok c, w) ∧ HEAD w = Some old.
Proof.
  unfold Reset. intros H.
  apply bind_Ok_inv in H as (init & w1 & Hi & H).
  unfold IsRepoInitialized, gets in Hi. injection Hi as <- <-.
  destruct (repo_dir w) eqn:Hdir; [|done]. cbn [negb] in H.
  apply bind_Ok_inv in H as (c & w1 & Hc & H). apply on_err_Ok_inv in Hc.
  destruct (FindCommit_Ok_inv _ _ _ _ Hc) as [-> _].
  apply bind_Ok_inv in H as (old & w1 & Ho & _). apply on_err_Ok_inv in Ho.
  exists c. unfold ReadFile_HEAD in Ho. destruct (HEAD w) as [d|]; [|done].
  exists d. by split.
Qed.

(** X1. Whatever the mode and however it ends, [Reset] writes nothing but
    [.kitcat/HEAD], the index and the working tree: no branch file is
    moved, no commit, object or stash entry is added or removed, the rebase
    state is as before. *)
Theorem Reset_never_moves_a_branch h mode w :
  let w' := (Reset env h mode w).2 in
  refs w' = refs w
  ∧ commits w' = commits w
  ∧ objects w' = objects w
  ∧ stash w' = stash w
  ∧ rebase_state w' = rebase_state w.
Proof.
  repeat split; by apply Reset_frame.
Qed.

Lemma Reset_Ok_HEAD h mode w w' :
  Reset env h mode w = (Ok tt, w') → HEAD w' = Some h.
Proof.
  intros HR. destruct (Reset_Ok_inv h mode w w' HR) as (c & old & Hc & Hh).
  rewrite (Reset_moved env h mode w c old Hc Hh) in HR. cbv zeta in HR.
  destruct (decide (mode = ResetSoft)) as [Hs|Hs].
  { apply Printf_short_Ok_inv in HR. by subst. }
  destruct (decide (mode = ResetMixed)) as [Hm|Hm].
  { apply bind_Ok_inv in HR as ([e|] & w2 & Hri & HR).
    - apply bind_Ok_inv in HR as (? & ? & _ & HR). done.
    - apply Printf_short_Ok_inv in HR as ->.
      pose proof (frame_try HEAD _ (resetIndex_HEAD env h) (set_HEAD (Some h) w)) as F.
      by rewrite Hri in F. }
  destruct (decide (mode = ResetHard)) as [Hd|Hd].
  { apply bind_Ok_inv in HR as ([e|] & w2 & Hri & HR).
    - apply bind_Ok_inv in HR as (? & ? & _ & HR). done.
    - apply bind_Ok_inv in HR as ([e'|] & w3 & Hrw & HR).
      + apply bind_Ok_inv in HR as (? & ? & _ & HR). done.
      + apply Printf_short_Ok_inv in HR as ->.
        pose proof (frame_try HEAD _ (resetIndex_HEAD env h) (set_HEAD (Some h) w)) as F.
        rewrite Hri in F.
        pose proof (frame_try HEAD _ (resetWorkspace_HEAD env h) w2) as F2.
        rewrite Hrw in F2. simpl in *. congruence. }
  apply bind_Ok_inv in HR as (? & ? & _ & HR). done.
Qed.

(** X2. A [Reset] that returns nil was asked for one of the three modes and
    leaves in [.kitcat/HEAD] the commit hash as given, also where HEAD named
    a branch before: the branch file is not written and HEAD is detached. *)
Theorem Reset_success_sets_HEAD_literally h mode w w' :
  Reset env h mode w = (Ok tt, w') →
  HEAD w' = Some h
  ∧ refs w' = refs w
  ∧ (mode = ResetSoft ∨ mode = ResetMixed ∨ mode = ResetHard).
Proof.
  intros HR. split; [by apply (Reset_Ok_HEAD h mode w)|split].
  - pose proof (Reset_frame env refs ltac:(done) ltac:(done) ltac:(done) h mode w) as F.
    by rewrite HR in F.
  - destruct (Reset_Ok_inv h mode w w' HR) as (c & old & Hc & Hh).
    rewrite (Reset_moved env h mode w c old Hc Hh) in HR. cbv zeta in HR.
    destruct (decide (mode = ResetSoft)) as [Hs|Hs]; [by left|].
    destruct (decide (mode = ResetMixed)) as [Hm|Hm]; [by right; left|].
    destruct (decide (mode = ResetHard)) as [Hd|Hd]; [by right; right|].
    apply bind_Ok_inv in HR as (? & ? & _ & HR). done.
Qed.

(** X3. [Reset] in mixed mode never writes a file of the working tree, however
    it ends; when it returns nil the index is exactly the tree of the target
    commit: the entries it held before are gone. *)
Theorem Reset_mixed_replaces_index h w :
  worktree (Reset env h ResetMixed w).2 = worktree w
  ∧ (∀ w', Reset env h ResetMixed w = (Ok tt, w') →
       ∃ c t, FindCommit h w = (Ok c, w)
              ∧ (ParseTree env (TreeHash c) w).1 = Ok t
              ∧ index w' = t).
Proof.
  split.
  - assert (frame worktree (Reset env h ResetMixed)) as F; [|apply F].
    pose proof (resetIndex_frame env worktree ltac:(done)).
    pose proof (Printf_short_frame worktree). pose proof (ReadFile_HEAD_frame worktree).
    unfold Reset, IsRepoInitialized.
    repeat frame_step;
      try match goal with
          | H : ?x ≠ ?x |- _ => by destruct H
          | H : ResetMixed = _ |- _ => by inversion H
          end;
      eauto with frame; by apply WriteFile_HEAD_frame.
  - intros w' HR. destruct (Reset_Ok_inv h _ w w' HR) as (c & old & Hc & Hh).
    rewrite (Reset_moved env h ResetMixed w c old Hc Hh) in HR. cbv zeta in HR.
    mode_decide_in HR.
    apply bind_Ok_inv in HR as ([e|] & w2 & Hri & HR).
    { apply bind_Ok_inv in HR as (? & ? & _ & HR). done. }
    apply Printf_short_Ok_inv in HR as ->.
    unfold try in Hri.
    destruct (resetIndex env h (set_HEAD (Some h) w)) as [[[]|?|?|] w3] eqn:Hri'; try done.
    injection Hri as <-.
    destruct (resetIndex_Ok_inv _ _ _ Hri') as (c' & t & Hc' & Ht & ->).
    exists c', t. split; [|split; [|done]].
    + pose proof (FindCommit_state h w) as Hs.
      unfold FindCommit in Hc' |- *. simpl in Hc'.
      destruct (negb (repo_dir w)); [done|].
      repeat case_match; simplify_eq; done.
    + by rewrite <- Ht; apply ParseTree_objects.
Qed.

End reset_more.


(** ** The stash commands *)

Lemma slice_to_None n s : String.length s < n → strings.slice_to n s = None.
Proof.
  revert s. induction n as [|n IH]; intros s Hn; [lia|].
  destruct s as [|c s]; simpl in *; [done|]. rewrite IH; [done|lia].
Qed.

Lemma Printf_short_run h w :
  Printf_short h w
  = (if bool_decide (7 ≤ String.length h) then Ok tt else Panic "slice bounds out of range", w).
Proof.
  case_bool_decide as Hn; [by apply Printf_short_Ok|].
  unfold Printf_short. rewrite slice_to_None; [done|lia].
Qed.

(** The loop of [StashDrop] that copies every entry but the one at the
    position given. *)
Lemma omap_imap_all {A} (f : nat → A → option A) (l : list A) :
  (∀ i y, f i y = Some y) → omap id (imap f l) = l.
Proof.
  revert f. induction l as [|y l IH]; intros f Hf; [done|].
  simpl. rewrite Hf. simpl. f_equal. apply IH. intros i z. apply Hf.
Qed.

Lemma omap_imap_delete {A} (n : nat) (l : list A) :
  omap id (imap (λ i x, if decide (i ≠ n) then Some x else None) l) = delete n l.
Proof.
  revert n. induction l as [|x l IH]; intros n; [done|].
  destruct n as [|n]; simpl.
  - apply omap_imap_all. intros i y. unfold compose. case_decide; [done|lia].
  - f_equal. rewrite <- IH.
    f_equal. apply imap_ext. intros i y _. unfold compose.
    repeat case_decide; done || lia.
Qed.

Lemma StashDrop_newStashes (index : Z) (l : list string) :
  (0 ≤ index)%Z →
  omap id (imap (λ i hash, if decide (Z.of_nat i ≠ index) then Some hash else None) l)
  = delete (Z.to_nat index) l.
Proof.
  intros Hi. rewrite <- omap_imap_delete. f_equal. apply imap_ext. intros i y _.
  destruct (decide (Z.of_nat i ≠ index)); [by rewrite decide_True by lia|].
  by rewrite decide_False by lia.
Qed.

Section stash_commands.
Variable env : Env.

(** X4. With a position inside the stack, [StashDrop] rewrites the
    stash file without the entry at that position, the others in their
    order, and changes nothing else; it returns nil, unless the digest
    dropped has fewer than seven bytes: the slice in the message then
    panics, after the stash file was rewritten. *)
Theorem StashDrop_removes_that_entry (index : Z) w :
  repo_dir w = true →
  (0 ≤ index < Z.of_nat (length (stash w)))%Z →
  ∃ hash,
    stash w !! Z.to_nat index = Some hash
    ∧ StashDrop index w
      = (if bool_decide (7 ≤ String.length hash) then Ok tt
         else Panic "slice bounds out of range",
         set_stash (delete (Z.to_nat index) (stash w)) w).
Proof.
  intros Hdir Hi.
  destruct (lookup_lt_is_Some_2 (stash w) (Z.to_nat index)) as [hash Hh]; [lia|].
  exists hash. split; [done|].
  unfold StashDrop.
  rewrite (bind_Ok _ _ w true w) by (by rewrite IsRepoInitialized_run, Hdir).
  cbn [negb].
  rewrite (bind_Ok _ _ w (stash w) w) by done.
  replace (index <? 0)%Z with false by lia.
  replace (Z.of_nat (length (stash w)) <=? index)%Z with false by lia.
  cbn [orb]. cbv zeta.
  rewrite StashDrop_newStashes by lia.
  rewrite (bind_Ok _ _ w tt (set_stash (delete (Z.to_nat index) (stash w)) w)) by done.
  rewrite Hh. apply Printf_short_run.
Qed.

(** X5. A position outside the stack is refused by [StashApply]
    and by [StashDrop] with the error "invalid stash index" and the
    repository is left as it was; on an empty stack every position is
    outside. *)
Theorem Stash_invalid_index (index : Z) w :
  repo_dir w = true →
  (index < 0 ∨ Z.of_nat (length (stash w)) ≤ index)%Z →
  StashApply env index w = (Err (Errorf ("invalid stash index: " +:+ pretty index)), w)
  ∧ StashDrop index w = (Err (Errorf ("invalid stash index: " +:+ pretty index)), w).
Proof.
  intros Hdir Hi.
  assert ((index <? 0)%Z || (Z.of_nat (length (stash w)) <=? index)%Z = true) as Hb.
  { apply orb_true_iff. lia. }
  split.
  - unfold StashApply.
    rewrite (bind_Ok _ _ w true w) by (by rewrite IsRepoInitialized_run, Hdir).
    cbn [negb]. rewrite (bind_Ok _ _ w (stash w) w) by done. by rewrite Hb.
  - unfold StashDrop.
    rewrite (bind_Ok _ _ w true w) by (by rewrite IsRepoInitialized_run, Hdir).
    cbn [negb]. rewrite (bind_Ok _ _ w (stash w) w) by done. by rewrite Hb.
Qed.

Lemma StashApply_frame {X} (f : Repo → X) index :
  (∀ v w, f (set_index v w) = f w) →
  (∀ v w, f (set_worktree v w) = f w) →
  frame f (StashApply env index).
Proof.
  intros Hi Hw. pose proof (UpdateWorkspaceAndIndex_frame env f Hi Hw).
  pose proof (Printf_short_frame f).
  unfold StashApply, IsRepoInitialized, ListStashes. solve_frame.
Qed.

(** X6. However it ends, [StashApply] leaves the stash stack, the
    commit log, HEAD, the branches and the object store as they were: it
    writes the index and the working tree only. *)
Theorem StashApply_keeps_the_stack index w :
  let w' := (StashApply env index w).2 in
  stash w' = stash w
  ∧ commits w' = commits w
  ∧ HEAD w' = HEAD w
  ∧ refs w' = refs w
  ∧ objects w' = objects w.
Proof.
  repeat split; by apply StashApply_frame.
Qed.

End stash_commands.

Lemma frame_fold_each {X A S} (f : Repo → X) (l : list A) (body : S → A → M S) s :
  (∀ s x, frame f (body s x)) → frame f (fold_each l body s).
Proof.
  intros Hb. revert s. induction l as [|x l IH]; intros s; simpl; [apply frame_ret|].
  apply frame_bind; [apply Hb|]. intros s'. apply IH.
Qed.

Lemma frame_Ok {X A} (f : Repo → X) (m : M A) w r w' :
  frame f m → m w = (r, w') → f w' = f w.
Proof. intros F H. specialize (F w). by rewrite H in F. Qed.

Section stash_success.
Variable env : Env.

Lemma UpdateWorkspaceAndIndex_Ok_inv h w w' :
  UpdateWorkspaceAndIndex env h w = (Ok tt, w') →
  ∃ c T, FindCommit h w = (Ok c, w)
         ∧ (ParseTree env (TreeHash c) w).1 = Ok T
         ∧ index w' = T.
Proof.
  unfold UpdateWorkspaceAndIndex. intros H.
  apply bind_Ok_inv in H as (c & w1 & Hc & H).
  destruct (FindCommit_Ok_inv _ _ _ _ Hc) as [-> Hdir].
  apply bind_Ok_inv in H as (T & w2 & HT & H).
  pose proof (ParseTree_state env (TreeHash c) w) as Hs. rewrite HT in Hs. simpl in Hs. subst w2.
  apply bind_Ok_inv in H as (old & w3 & _ & H).
  apply bind_Ok_inv in H as (? & w4 & _ & H).
  apply bind_Ok_inv in H as (? & w5 & _ & H).
  exists c, T. split; [done|]. split; [by rewrite HT|].
  unfold WriteIndex in H. destruct (repo_dir w5); by inversion H.
Qed.

Lemma query_Ok_inv {A} (g : Repo → error + A) w a w' :
  query g w = (Ok a, w') → g w = inr a ∧ w' = w.
Proof. unfold query. destruct (g w); inversion 1; by subst. Qed.

Lemma FindCommit_set_stash h v w : (FindCommit h (set_stash v w)).1 = (FindCommit h w).1.
Proof.
  unfold FindCommit. simpl. destruct (negb (repo_dir w)); [done|]. by repeat case_match.
Qed.

(** X7. A [StashPop] that returns nil has taken the top entry off
    the stack, found the working tree clean, and left the index equal to
    the tree of the stash commit; HEAD, the branches and the commit log are
    as before: the stash commit stays in the log. *)
Theorem StashPop_success w w' :
  StashPop env w = (Ok tt, w') →
  ∃ top c T,
    stash w = top :: stash w'
    ∧ IsWorkDirDirty env (set_stash (stash w') w) = inr false
    ∧ FindCommit top w = (Ok c, w)
    ∧ (ParseTree env (TreeHash c) w).1 = Ok T
    ∧ index w' = T
    ∧ HEAD w' = HEAD w ∧ refs w' = refs w ∧ commits w' = commits w.
Proof.
  unfold StashPop. intros H.
  apply bind_Ok_inv in H as (init & w1 & Hi & H).
  rewrite IsRepoInitialized_run in Hi. injection Hi as <- <-.
  destruct (repo_dir w) eqn:Hdir; [|done]. cbn [negb] in H.
  apply bind_Ok_inv in H as (top & w1 & Hp & H). apply on_err_Ok_inv in Hp.
  unfold PopStash in Hp. destruct (stash w) as [|top' rest] eqn:Hst; [done|].
  injection Hp as -> <-.
  apply bind_Ok_inv in H as (c & w1 & Hc & H). apply on_err_Ok_inv in Hc.
  destruct (FindCommit_Ok_inv _ _ _ _ Hc) as [-> _].
  apply bind_Ok_inv in H as (isDirty & w1 & Hd & H). apply on_err_Ok_inv in Hd.
  apply query_Ok_inv in Hd as [Hd ->].
  destruct isDirty; [done|].
  apply bind_Ok_inv in H as ([] & w2 & Hu & H). apply on_err_Ok_inv in Hu.
  apply Printf_short_Ok_inv in H as ->.
  destruct (UpdateWorkspaceAndIndex_Ok_inv _ _ _ Hu) as (c' & T & Hc' & HT & Hidx).
  assert (stash w2 = rest) as Hs2.
  { by rewrite (frame_Ok stash _ _ _ _ (UpdateWorkspaceAndIndex_frame env stash
                  ltac:(done) ltac:(done) top) Hu). }
  exists top, c, T. rewrite Hs2. split; [done|]. split; [done|].
  assert (FindCommit top w = (Ok c, w)) as Hcw.
  { pose proof (FindCommit_set_stash top rest w) as E. rewrite Hc in E.
    pose proof (FindCommit_state top w). destruct (FindCommit top w); simpl in *; congruence. }
  split; [done|]. split.
  { rewrite Hc' in Hc. injection Hc as ->. rewrite <- HT. by apply ParseTree_objects. }
  split; [done|].
  repeat split.
  - by rewrite (frame_Ok HEAD _ _ _ _ (UpdateWorkspaceAndIndex_frame env HEAD
                  ltac:(done) ltac:(done) top) Hu).
  - by rewrite (frame_Ok refs _ _ _ _ (UpdateWorkspaceAndIndex_frame env refs
                  ltac:(done) ltac:(done) top) Hu).
  - by rewrite (frame_Ok commits _ _ _ _ (UpdateWorkspaceAndIndex_frame env commits
                  ltac:(done) ltac:(done) top) Hu).
Qed.

End stash_success.

Lemma HasPrefix_nil s : strings.HasPrefix s EmptyString = true.
Proof. by destruct s. Qed.

Lemma HasPrefix_app p s : strings.HasPrefix (p +:+ s) p = true.
Proof.
  induction p as [|c p IH]; [apply HasPrefix_nil|]. simpl. by rewrite decide_True.
Qed.

Section stash_push.
Variable env : Env.

Lemma on_err_frame_Ok {X A} (f : Repo → X) h (m : M A) w a w' :
  frame f m → on_err h m w = (Ok a, w') → f w' = f w.
Proof. intros F H. apply on_err_Ok_inv in H. by eapply frame_Ok. Qed.

(** The steps of [StashPush] before the stash commit is appended write the
    object store and the index only. *)
Lemma StashPush_snapshot_frame {X} (f : Repo → X) idx :
  (∀ v w, f (set_objects v w) = f w) →
  frame f (fold_each (range_paths env idx)
             (λ (index : gmap string string) kv,
                let path := kv.1 in
                exists_ ← Stat_ok path;
                if exists_ : bool then
                  hash ← on_err (wrap ("failed to hash file " +:+ path +:+ ": "))
                                (HashAndStoreFile env path);
                  mret (<[path := hash]> index)
                else mret index)
             idx).
Proof.
  intros Ho. apply frame_fold_each. intros s x. cbv zeta. unfold Stat_ok.
  solve_frame. by apply HashAndStoreFile_frame.
Qed.

(** X8. A [StashPush] that returns nil found a HEAD commit and a
    dirty tree, appended one commit to the log, whose parent is the HEAD
    commit and whose message starts with "WIP on ", and put its digest on
    top of the stash stack.  It leaves in [.kitcat/HEAD] the digest of the
    HEAD commit itself: HEAD no longer names the branch it was on, and no
    branch file was written. *)
Theorem StashPush_success message w w' :
  StashPush env message w = (Ok tt, w') →
  ∃ head c,
    GetHeadCommit env w = inr head
    ∧ IsWorkDirDirty env w = inr true
    ∧ commits w' = commits w ++ [c]
    ∧ stash w' = ID c :: stash w
    ∧ Parent c = ID head
    ∧ strings.HasPrefix (Message c) "WIP on " = true
    ∧ HEAD w' = Some (ID head)
    ∧ refs w' = refs w.
Proof.
  unfold StashPush. intros H.
  apply bind_Ok_inv in H as (init & w1 & Hi & H).
  rewrite IsRepoInitialized_run in Hi. injection Hi as <- <-.
  destruct (repo_dir w) eqn:Hdir; [|done]. cbn [negb] in H.
  apply bind_Ok_inv in H as (head & w1 & Hh & H). apply on_err_Ok_inv in Hh.
  apply query_Ok_inv in Hh as [Hh ->].
  apply bind_Ok_inv in H as (isDirty & w1 & Hd & H). apply on_err_Ok_inv in Hd.
  apply query_Ok_inv in Hd as [Hd ->].
  destruct isDirty; [|done]. cbn [negb] in H.
  apply bind_Ok_inv in H as (branchName & w1 & Hb & H).
  assert (w1 = w) as ->.
  { unfold ignore_err, query in Hb. destruct (GetHeadState env w); by inversion Hb. }
  apply bind_Ok_inv in H as (idx & w1 & Hl & H). apply on_err_Ok_inv in Hl.
  unfold LoadIndex, gets in Hl. injection Hl as <- <-.
  apply bind_Ok_inv in H as (idx' & w2 & Hf & H).
  apply bind_Ok_inv in H as ([] & w3 & Hw & H).
  apply bind_Ok_inv in H as (treeHash & w4 & Ht & H).
  apply bind_Ok_inv in H as (authorName & w5 & Ha & H). injection Ha as <- <-.
  apply bind_Ok_inv in H as (authorEmail & w5 & Ha & H). injection Ha as <- <-.
  cbv zeta in H.
  apply bind_Ok_inv in H as ([] & w5 & Hap & H). apply on_err_Ok_inv in Hap.
  apply bind_Ok_inv in H as ([] & w6 & Hpu & H). apply on_err_Ok_inv in Hpu.
  apply on_err_Ok_inv in H.
  injection Hap as <-. injection Hpu as <-.
  match type of H with
  | context [set_commits (_ ++ [?C])] => set (c := C) in H
  end.
  assert (∀ {X} (f : Repo → X),
            (∀ v w, f (set_objects v w) = f w) →
            (∀ v w, f (set_index v w) = f w) →
            f w4 = f w) as Hpre.
  { intros X f Ho Hx.
    assert (frame f (CreateTree env)) as F1.
    { unfold CreateTree, LoadIndex. solve_frame. by apply put_frame. }
    rewrite (on_err_frame_Ok f _ _ _ _ _ F1 Ht).
    rewrite (on_err_frame_Ok f _ _ _ _ _ (WriteIndex_frame f idx' Hx) Hw).
    by rewrite (frame_Ok f _ _ _ _ (StashPush_snapshot_frame f (index w) Ho) Hf). }
  exists head, c. split; [done|]. split; [done|].
  pose proof (frame_Ok commits _ _ _ _
                (Reset_frame env commits ltac:(done) ltac:(done) ltac:(done) _ _) H) as Fc.
  pose proof (frame_Ok stash _ _ _ _
                (Reset_frame env stash ltac:(done) ltac:(done) ltac:(done) _ _) H) as Fs.
  pose proof (frame_Ok refs _ _ _ _
                (Reset_frame env refs ltac:(done) ltac:(done) ltac:(done) _ _) H) as Fr.
  simpl in Fc, Fs, Fr.
  split; [by rewrite Fc, (Hpre _ commits)|].
  split; [by rewrite Fs, (Hpre _ stash)|].
  split; [done|].
  split; [subst c; cbn [Message]; case_decide; by rewrite HasPrefix_app|].
  split; [by apply (Reset_Ok_HEAD env _ _ _ _ H)|].
  by rewrite Fr, (Hpre _ refs).
Qed.

End stash_push.

(** ** The todo list of a rebase *)

Lemma app_String c s t : String c s +:+ t = String c (s +:+ t).
Proof. reflexivity. Qed.

Lemma app_empty_r s : s +:+ EmptyString = s.
Proof. induction s as [|c s IH]; [done|]. by rewrite app_String, IH. Qed.

Lemma app_assoc_s a b c : (a +:+ b) +:+ c = a +:+ b +:+ c.
Proof. induction a as [|x a IH]; [done|]. by rewrite !app_String, IH. Qed.

Lemma rev_app_rev_app a b c :
  String.rev_app (String.rev_app a b) c = String.rev_app b (a +:+ c).
Proof.
  revert b c. induction a as [|x a IH]; intros b c; [done|].
  simpl. by rewrite IH.
Qed.

Lemma rev_app_app a b c : String.rev_app a b +:+ c = String.rev_app a (b +:+ c).
Proof.
  revert b. induction a as [|x a IH]; intros b; [done|]. simpl. by rewrite IH.
Qed.

Lemma rev_rev_app line cur :
  String.rev (String.rev_app line cur) = String.rev cur +:+ line.
Proof.
  unfold String.rev. by rewrite rev_app_rev_app, rev_app_app, app_empty_r.
Qed.

(** Splitting at line feeds takes off a first line that holds none. *)
Lemma SplitLines_line line rest :
  one_line line = true →
  strings.SplitLines (line +:+ nl +:+ rest) = line :: strings.SplitLines rest.
Proof.
  unfold strings.SplitLines. intros Hl.
  assert (∀ cur, strings.SplitLines_go cur (line +:+ nl +:+ rest)
                 = String.rev (String.rev_app line cur)
                   :: strings.SplitLines_go EmptyString rest) as Hgo.
  { induction line as [|c line IH]; intros cur.
    - change (strings.SplitLines_go cur (String "010"%char rest) = String.rev cur
                :: strings.SplitLines_go EmptyString rest).
      by simpl.
    - rewrite app_String. simpl in Hl |- *.
      destruct (decide (c = "010"%char)); [done|]. by apply IH. }
  by rewrite Hgo, rev_rev_app.
Qed.

Lemma one_line_app s t : one_line (s +:+ t) = one_line s && one_line t.
Proof.
  induction s as [|c s IH]; [done|]. rewrite app_String. simpl.
  by destruct (decide (c = "010"%char)).
Qed.

Lemma words_go_Some_not_nil cur s : String.words_go (Some cur) s ≠ [].
Proof.
  revert cur. induction s as [|c s IH]; intros cur; simpl; [done|].
  destruct (Ascii.is_space c); [done|]. apply IH.
Qed.

Lemma Fields_not_nil s : s ≠ EmptyString → starts_clean s → strings.Fields s ≠ [].
Proof.
  destruct s as [|c s]; [done|]. intros _ Hc. simpl in Hc.
  unfold strings.Fields, String.words. simpl. rewrite Hc. apply words_go_Some_not_nil.
Qed.

Lemma TrimSpace_starts_clean s : starts_clean (strings.TrimSpace s).
Proof. apply TrimRight_starts_clean, TrimLeft_starts_clean. Qed.

(** X9. Every step that [parseTodo] returns is a line of the
    content without its surrounding white space, is not empty and is no
    comment; it has at least one field, so that the first field that
    [RebaseContinue] reads is there. *)
Theorem parseTodo_steps content :
  Forall (λ step,
            (∃ line, line ∈ strings.SplitLines content ∧ step = strings.TrimSpace line)
            ∧ step ≠ EmptyString
            ∧ strings.HasPrefix step "#" = false
            ∧ strings.Fields step ≠ [])
         (parseTodo content).
Proof.
  apply Forall_forall. intros step Hin. unfold parseTodo in Hin.
  apply list_elem_of_omap in Hin as (line & Hline & Hs). cbv zeta in Hs.
  destruct (bool_decide (strings.TrimSpace line = EmptyString)) eqn:He; [done|].
  destruct (strings.HasPrefix (strings.TrimSpace line) "#") eqn:Hp; [done|].
  simpl in Hs. injection Hs as <-.
  apply bool_decide_eq_false in He.
  split; [by exists line|]. split; [done|]. split; [done|].
  apply Fields_not_nil; [done|]. apply TrimSpace_starts_clean.
Qed.


Lemma no_space_one_line s : no_space s = true → one_line s = true.
Proof.
  induction s as [|c s IH]; [done|]. simpl. intros [Hc Hs]%andb_true_iff.
  case_decide as E; [by subst c|]. by apply IH.
Qed.

(** [strings.Fields] does not see the white space that [strings.TrimSpace]
    cuts. *)
Lemma words_go_TrimRight cur s :
  String.words_go cur (strings.TrimRight s) = String.words_go cur s.
Proof.
  revert cur. induction s as [|c s IH]; intros cur; [done|].
  simpl. destruct (strings.TrimRight s) as [|d t] eqn:Ht.
  - destruct (Ascii.is_space c) eqn:Hc; simpl; rewrite ?Hc.
    + by rewrite <- IH, app_nil_r.
    + by rewrite <- IH.
  - simpl. destruct (Ascii.is_space c); by rewrite <- IH.
Qed.

Lemma words_TrimLeft s : String.words (strings.TrimLeft s) = String.words s.
Proof.
  unfold String.words. induction s as [|c s IH]; [done|].
  simpl. destruct (Ascii.is_space c) eqn:Hc; [done|]. simpl. by rewrite Hc.
Qed.

Lemma Fields_TrimSpace s : strings.Fields (strings.TrimSpace s) = strings.Fields s.
Proof.
  unfold strings.Fields, strings.TrimSpace, String.words.
  rewrite words_go_TrimRight. apply words_TrimLeft.
Qed.

(** A first word that ends at a white space. *)
Lemma words_go_word cur h sp rest :
  no_space h = true → Ascii.is_space sp = true →
  String.words_go (Some cur) (h +:+ String sp rest)
  = String.rev (String.rev_app h cur) :: String.words_go None rest.
Proof.
  intros Hh Hsp. revert cur. induction h as [|c h IH]; intros cur.
  - change (EmptyString +:+ String sp rest) with (String sp rest). simpl. by rewrite Hsp.
  - rewrite app_String. simpl in Hh |- *. apply andb_true_iff in Hh as [Hc Hh].
    apply negb_true_iff in Hc. rewrite Hc. simpl. by apply IH.
Qed.

Lemma words_word h sp rest :
  h ≠ EmptyString → no_space h = true → Ascii.is_space sp = true →
  String.words (h +:+ String sp rest) = h :: String.words rest.
Proof.
  intros Hne Hh Hsp. destruct h as [|c h]; [done|].
  simpl in Hh. apply andb_true_iff in Hh as [Hc Hh]. apply negb_true_iff in Hc.
  unfold String.words. rewrite app_String. simpl. rewrite Hc. simpl.
  rewrite words_go_word by done. by rewrite rev_rev_app.
Qed.

Lemma Fields_pick h m :
  h ≠ EmptyString → no_space h = true →
  strings.Fields (strings.TrimSpace ("pick " +:+ h +:+ " " +:+ m))
  = "pick" :: h :: strings.Fields m.
Proof.
  intros Hne Hh. rewrite Fields_TrimSpace. unfold strings.Fields.
  change ("pick " +:+ h +:+ " " +:+ m) with ("pick" +:+ String " " (h +:+ String " " m)).
  rewrite (words_word "pick") by done. by rewrite words_word.
Qed.

Section todo.
Variable env : Env.

Lemma TrimSpace_pick s :
  ∃ t, strings.TrimSpace ("pick " +:+ s) = String "p" t.
Proof.
  unfold strings.TrimSpace. rewrite app_String.
  change (strings.TrimLeft (String "p" ?x)) with (String "p" x).
  simpl. destruct (strings.TrimRight _); by eexists.
Qed.

Lemma parseTodo_line line rest :
  one_line line = true →
  parseTodo ("pick " +:+ line +:+ nl +:+ rest)
  = strings.TrimSpace ("pick " +:+ line) :: parseTodo rest.
Proof.
  intros Hl. unfold parseTodo.
  change ("pick " +:+ line +:+ nl +:+ rest) with (("pick " +:+ line) +:+ nl +:+ rest) at 1.
  rewrite SplitLines_line by (by rewrite one_line_app, Hl).
  simpl. destruct (TrimSpace_pick line) as [t ->]. done.
Qed.

Lemma generateTodo_lines_run hashes cs w :
  Forall2 (λ h c, FindCommit h w = (Ok c, w)) hashes cs →
  generateTodo_lines hashes w
  = (Ok (foldr (λ hc acc, "pick " +:+ hc.1 +:+ " " +:+ Message hc.2 +:+ nl +:+ acc)
               EmptyString (zip hashes cs)), w).
Proof.
  induction 1 as [|h c hashes cs Hc _ IH]; [done|].
  simpl. rewrite (bind_Ok _ _ w c w) by (by unfold ignore_err; rewrite Hc).
  by rewrite (bind_Ok _ _ w _ w IH).
Qed.

Lemma generateTodo_read_back hashes cs w :
  Forall2 (λ h c, FindCommit h w = (Ok c, w)
                  ∧ h ≠ EmptyString ∧ no_space h = true
                  ∧ one_line (Message c) = true) hashes cs →
  ∃ content,
    generateTodo hashes w = (Ok content, w)
    ∧ parseTodo content
      = zip_with (λ h c, strings.TrimSpace ("pick " +:+ h +:+ " " +:+ Message c)) hashes cs
    ∧ strings.Fields <$> parseTodo content
      = zip_with (λ h c, "pick" :: h :: strings.Fields (Message c)) hashes cs.
Proof.
  intros Hall.
  assert (∃ content,
    generateTodo hashes w = (Ok content, w)
    ∧ parseTodo content
      = zip_with (λ h c, strings.TrimSpace ("pick " +:+ h +:+ " " +:+ Message c)) hashes cs)
    as (content & Hg & Hp).
  { eexists. split.
    - unfold generateTodo. erewrite bind_Ok; [reflexivity|].
      apply generateTodo_lines_run. eapply Forall2_impl; [exact Hall|]. by intros h c (? & _).
    - induction Hall as [|h c hashes cs (Hc & Hh & Hs & Hm) _ IH]; [by vm_compute|].
      cbn [zip zip_with foldr fst snd].
      rewrite <- IH, !app_assoc_s.
      match goal with
      | |- context [h +:+ " " +:+ Message c +:+ nl +:+ ?x] =>
          replace (h +:+ " " +:+ Message c +:+ nl +:+ x)
            with ((h +:+ " " +:+ Message c) +:+ nl +:+ x) by (by rewrite !app_assoc_s)
      end.
      apply (parseTodo_line (h +:+ " " +:+ Message c)).
      by rewrite !one_line_app, (no_space_one_line h Hs), Hm. }
  exists content. split; [done|]. split; [done|].
  rewrite Hp. clear Hg Hp.
  induction Hall as [|h c hashes cs (Hc & Hh & Hs & Hm) _ IH]; [done|].
  cbn [zip_with fmap list_fmap]. rewrite <- IH. f_equal.
  by apply Fields_pick.
Qed.

(** X10. The todo list that [generateTodo] writes for commits
    that resolve, with digests of one word and messages of one line, is
    read back by [parseTodo] as one step for each commit, in the order
    given: the line [pick <digest> <message>] without the white space at
    its end, whose first two fields are [pick] and the digest.  The help
    text at the end of the file gives no step. *)
Theorem parseTodo_generateTodo hashes cs w :
  Forall2 (λ h c, FindCommit h w = (Ok c, w)
                  ∧ h ≠ EmptyString ∧ no_space h = true
                  ∧ one_line (Message c) = true) hashes cs →
  ∃ content,
    generateTodo hashes w = (Ok content, w)
    ∧ parseTodo content
      = zip_with (λ h c, strings.TrimSpace ("pick " +:+ h +:+ " " +:+ Message c)) hashes cs
    ∧ strings.Fields <$> parseTodo content
      = zip_with (λ h c, "pick" :: h :: strings.Fields (Message c)) hashes cs.
Proof. apply generateTodo_read_back. Qed.

End todo.

(** ** The changes of a commit *)

(** The two loops of [getChanges], path by path. *)
Lemma diff_trees_lookup (pT cT : gmap string string) path :
  diff_trees pT cT !! path
  = if decide (pT !! path = cT !! path) then None
    else Some (mkChange (default EmptyString (pT !! path)) (default EmptyString (cT !! path))).
Proof.
  unfold diff_trees. rewrite lookup_union, map_lookup_imap, lookup_fmap, map_lookup_filter.
  destruct (cT !! path) as [h|] eqn:Hc, (pT !! path) as [old|] eqn:Hp; simpl;
    repeat case_decide; repeat case_guard; simplify_eq/=; try done.
Qed.

Section changes.
Variable env : Env.

(** X11. When [getChanges] returns a map, it has read the child's
    tree, it has written nothing, and the map holds a change for exactly
    the paths whose entry differs between the parent's tree and the
    child's, with the two digests, an absent entry counting as the empty
    digest.  The parent's tree is empty when the parent does not resolve or
    its tree cannot be read: all the entries of the child are then
    additions. *)
Theorem getChanges_exact parentHash childHash w changes w' :
  getChanges env parentHash childHash w = (Ok changes, w') →
  w' = w
  ∧ ∃ child cT,
      FindCommit childHash w = (Ok child, w)
      ∧ ParseTree env (TreeHash child) w = (Ok cT, w)
      ∧ ∀ path,
          changes !! path
          = if decide (parent_tree env w parentHash !! path = cT !! path) then None
            else Some (mkChange (default EmptyString (parent_tree env w parentHash !! path))
                                (default EmptyString (cT !! path))).
Proof.
  unfold getChanges. intros H.
  apply bind_Ok_inv in H as (pT & w1 & Hp & H).
  assert (w1 = w ∧ pT = parent_tree env w parentHash) as [-> ->].
  { unfold parent_tree. destruct (decide (parentHash ≠ EmptyString)) as [Hne|He].
    - rewrite decide_False by done.
      apply bind_Ok_inv in Hp as (pC & w2 & Hf & Hp).
      unfold try_get in Hf. pose proof (FindCommit_state parentHash w) as Hs.
      destruct (FindCommit parentHash w) as [[c| | |] w3]; simpl in Hs; subst w3;
        try done; injection Hf as <- <-; [|by injection Hp as <- <-].
      unfold ignore_err in Hp. pose proof (ParseTree_state env (TreeHash c) w) as Hs.
      destruct (ParseTree env (TreeHash c) w) as [[t| | |] w3]; simpl in Hs; subst w3;
        try done; by injection Hp as <- <-.
    - rewrite decide_True by (by destruct (decide (parentHash = EmptyString))).
      by injection Hp as <- <-. }
  apply bind_Ok_inv in H as (child & w1 & Hc & H).
  destruct (FindCommit_Ok_inv _ _ _ _ Hc) as [-> _].
  apply bind_Ok_inv in H as (cT & w1 & HcT & H).
  pose proof (ParseTree_state env (TreeHash child) w) as Hs. rewrite HcT in Hs.
  simpl in Hs. subst w1. injection H as <- <-.
  split; [done|]. exists child, cT. split; [done|]. split; [done|].
  intros path. apply diff_trees_lookup.
Qed.

End changes.

(** ** Steps that the rebase passes over *)

Lemma at_step_at_step st n m : at_step (at_step st n) m = at_step st m.
Proof. done. Qed.

Lemma at_step_same st : at_step st (CurrentStep st) = st.
Proof. by destruct st. Qed.

Lemma set_rebase_state_same w st : rebase_state w = Some st → set_rebase_state (Some st) w = w.
Proof. destruct w; simpl; by intros ->. Qed.

Lemma set_rebase_state_twice a b w :
  set_rebase_state a (set_rebase_state b w) = set_rebase_state a w.
Proof. done. Qed.

Section passes_over.
Variable env : Env.

Lemma ReadNextTodo_run w st :
  rebase_state w = Some st →
  ReadNextTodo w = (Ok (default EmptyString (TodoSteps st !! CurrentStep st), st), w).
Proof.
  intros Hst. unfold ReadNextTodo. rewrite (bind_Ok _ _ w st w); [done|].
  unfold LoadRebaseState. by rewrite Hst.
Qed.

Lemma runStep_passed_over action hash rest line w :
  strings.Fields line = action :: hash :: rest →
  passed_over line = true →
  runStep env action hash w = (Ok tt, w).
Proof.
  intros Hf Hp. unfold passed_over in Hp. rewrite Hf in Hp.
  apply negb_true_iff, bool_decide_eq_false in Hp.
  unfold runStep.
  rewrite (bool_decide_eq_false_2 (action = "pick" ∨ action = "p"))
    by (intros [-> | ->]; apply Hp; set_solver).
  rewrite (bool_decide_eq_false_2 (action = "reword" ∨ action = "r"))
    by (intros [-> | ->]; apply Hp; set_solver).
  rewrite (bool_decide_eq_false_2 (action = "squash" ∨ action = "s"))
    by (intros [-> | ->]; apply Hp; set_solver).
  by case_bool_decide.
Qed.

(** One turn of the loop on a step that is passed over. *)
Lemma RunRebaseLoop_pass fuel w st line :
  rebase_state w = Some st →
  TodoSteps st !! CurrentStep st = Some line →
  passed_over line = true →
  RunRebaseLoop env (S fuel) w
  = RunRebaseLoop env fuel (set_rebase_state (Some (at_step st (S (CurrentStep st)))) w).
Proof.
  intros Hst Hline Hp. simpl.
  rewrite (bind_Ok _ _ w _ w (ReadNextTodo_run w st Hst)).
  rewrite bool_decide_false by (apply lookup_lt_Some in Hline; lia).
  rewrite Hline. simpl.
  destruct (strings.Fields line) as [|action [|hash rest]] eqn:Hf; [done..|].
  by rewrite (bind_Ok _ _ w None w)
    by (eapply try_Ok, runStep_passed_over; [exact Hf|done]).
Qed.

Lemma RunRebaseLoop_finish fuel w st :
  rebase_state w = Some st →
  length (TodoSteps st) ≤ CurrentStep st →
  RunRebaseLoop env (S fuel) w = finishRebase env st w.
Proof.
  intros Hst Hle. simpl.
  rewrite (bind_Ok _ _ w _ w (ReadNextTodo_run w st Hst)).
  by rewrite bool_decide_true.
Qed.

Lemma finishRebase_frame {X} (f : Repo → X) st :
  (∀ v w, f (set_HEAD v w) = f w) →
  (∀ v w, f (set_refs v w) = f w) →
  (∀ v w, f (set_rebase_state v w) = f w) →
  (∀ v w, f (set_rebase_todo v w) = f w) →
  frame f (finishRebase env st).
Proof.
  intros H1 H2 H3 H4. unfold finishRebase, ClearRebaseState, Remove_ref.
  repeat frame_step;
    first [ by apply modify_frame; intros; rewrite ?H4, ?H3, ?H2
          | by apply WriteFile_HEAD_frame
          | by intros w; unfold WriteFile_ref; destruct (repo_dir w); simpl; rewrite ?H2
          | eauto with frame ].
Qed.

(** X12. When every step from the current one on is passed over by
    the loop (a line of fewer than two fields, [drop], an unknown action),
    [RunRebaseLoop], given one turn more than there are such steps, runs
    [finishRebase] on the state with the step index at the end of the list:
    no step is replayed, so the commit log, the object store, the index and
    the working tree are as before. *)
Theorem RunRebaseLoop_passes_over fuel w st :
  rebase_state w = Some st →
  CurrentStep st ≤ length (TodoSteps st) →
  Forall (λ line, passed_over line = true) (drop (CurrentStep st) (TodoSteps st)) →
  length (TodoSteps st) - CurrentStep st < fuel →
  let st' := at_step st (length (TodoSteps st)) in
  RunRebaseLoop env fuel w = finishRebase env st' (set_rebase_state (Some st') w)
  ∧ commits (RunRebaseLoop env fuel w).2 = commits w
  ∧ objects (RunRebaseLoop env fuel w).2 = objects w
  ∧ index (RunRebaseLoop env fuel w).2 = index w
  ∧ worktree (RunRebaseLoop env fuel w).2 = worktree w.
Proof.
  intros Hst Hle Hall Hfuel st'.
  assert (RunRebaseLoop env fuel w = finishRebase env st' (set_rebase_state (Some st') w))
    as Hrun.
  { subst st'. remember (length (TodoSteps st) - CurrentStep st) as k eqn:Hk.
    revert fuel w st Hst Hle Hall Hfuel Hk.
    induction k as [|k IH]; intros fuel w st Hst Hle Hall Hfuel Hk;
      (destruct fuel as [|fuel]; [lia|]).
    - rewrite (RunRebaseLoop_finish fuel w st Hst) by lia.
      replace (length (TodoSteps st)) with (CurrentStep st) by lia.
      by rewrite at_step_same, set_rebase_state_same.
    - destruct (lookup_lt_is_Some_2 (TodoSteps st) (CurrentStep st)) as [line Hline]; [lia|].
      rewrite (drop_S _ _ _ Hline) in Hall. apply Forall_cons in Hall as [Hp Hall].
      rewrite (RunRebaseLoop_pass fuel w st line Hst Hline Hp).
      rewrite (IH fuel _ (at_step st (S (CurrentStep st)))); simpl; try done; lia. }
  split; [exact Hrun|]. rewrite Hrun.
  repeat split; by rewrite finishRebase_frame.
Qed.

End passes_over.

(** ** Continuing and aborting a rebase *)

Lemma FindCommit_ext h w w0 :
  repo_dir w = repo_dir w0 → commits w = commits w0 →
  (FindCommit h w).1 = (FindCommit h w0).1.
Proof.
  intros Hd Hc. unfold FindCommit. rewrite Hd, Hc.
  destruct (negb (repo_dir w0)); [done|]. by repeat case_match.
Qed.

Lemma FindCommit_Ok_ext h w w0 c :
  repo_dir w = repo_dir w0 → commits w = commits w0 →
  FindCommit h w = (Ok c, w) → FindCommit h w0 = (Ok c, w0).
Proof.
  intros Hd Hc H. pose proof (FindCommit_ext h w w0 Hd Hc) as E. rewrite H in E.
  pose proof (FindCommit_state h w0) as Hs.
  destruct (FindCommit h w0) as [r w1]. simpl in *. by subst.
Qed.

Section rebase_commands.
Variable env : Env.

Lemma IsRebaseInProgress_run w :
  IsRebaseInProgress w = (Ok (bool_decide (is_Some (rebase_state w))), w).
Proof. done. Qed.

(** X13. Outside a rebase, [RebaseContinue] and [RebaseAbort] fail
    with "no rebase in progress", and [RebaseContinue] fails with "no steps
    remaining" when the step index is at the end of the list; the
    repository is left as it was. *)
Theorem Rebase_nothing_to_continue fuel w :
  (rebase_state w = None ∨
   ∃ st, rebase_state w = Some st ∧ length (TodoSteps st) ≤ CurrentStep st) →
  RebaseContinue env fuel w
  = (Err (Errorf (if rebase_state w is None then "no rebase in progress"
                  else "no steps remaining")), w)
  ∧ (rebase_state w = None → RebaseAbort env w = (Err (Errorf "no rebase in progress"), w)).
Proof.
  intros [Hn | (st & Hst & Hle)].
  - assert (IsRebaseInProgress w = (Ok false, w)) as Hp.
    { by rewrite IsRebaseInProgress_run, Hn. }
    split; [|intros _]; unfold RebaseContinue, RebaseAbort;
      rewrite (bind_Ok _ _ w false w Hp); by rewrite ?Hn.
  - split; [|by rewrite Hst]. unfold RebaseContinue.
    rewrite (bind_Ok _ _ w true w)
      by (by rewrite IsRebaseInProgress_run, Hst).
    cbn [negb].
    rewrite (bind_Ok _ _ w st w) by (unfold LoadRebaseState; by rewrite Hst).
    rewrite bool_decide_true by done. by rewrite Hst.
Qed.

Lemma RebaseContinue_step fuel w st line :
  rebase_state w = Some st →
  TodoSteps st !! CurrentStep st = Some line →
  RebaseContinue env fuel w
  = match strings.Fields line with
    | [] => panic "index out of range"
    | [cmd] => AdvanceRebaseStep st
    | cmd :: originalHash :: _ =>
        originalCommit ← ignore_err zeroCommit (FindCommit originalHash);
        (if bool_decide (cmd = "pick" ∨ cmd = "reword") then
           let msg := Message originalCommit in
           err ← try (_ ← core_Commit env msg; mret tt);
           match err with
           | Some err =>
               if strings.Contains (Error err) "nothing to commit" then mret tt
               else fail err
           | None => mret tt
           end;;
           if bool_decide (cmd = "reword") then
             head ← ignore_err EmptyString (query (readHead env));
             newMsg ← promptForMessage env msg;
             if decide (newMsg ≠ msg) then amendCommitMessage env head newMsg
             else mret tt
           else mret tt
         else if bool_decide (cmd = "squash") then
           prevHead ← ignore_err zeroCommit (query (GetHeadCommit env));
           let newMsg := Message prevHead +:+ nl +:+ nl +:+ Message originalCommit in
           amendCommit env prevHead newMsg
         else mret tt);;
        AdvanceRebaseStep st;;
        RunRebaseLoop env fuel
    end w.
Proof.
  intros Hst Hline. unfold RebaseContinue.
  rewrite (bind_Ok _ _ w true w)
    by (by rewrite IsRebaseInProgress_run, Hst).
  cbn [negb].
  rewrite (bind_Ok _ _ w st w) by (unfold LoadRebaseState; by rewrite Hst).
  rewrite bool_decide_false by (apply lookup_lt_Some in Hline; lia).
  by rewrite Hline.
Qed.

(** X14. [RebaseContinue] commits the resolved step only when its
    action is written [pick] or [reword], and amends only for [squash]: for
    any other action of a step with two fields, the short names [p], [r]
    and [s] that [RunRebaseLoop] takes among them, it records nothing,
    advances the step index and hands over to the loop.  On a step of one
    field it advances the step index and returns without running the
    loop. *)
Theorem RebaseContinue_other_action fuel w st line cmd rest :
  rebase_state w = Some st →
  TodoSteps st !! CurrentStep st = Some line →
  strings.Fields line = cmd :: rest →
  (rest ≠ [] → cmd ∉ ["pick"; "reword"; "squash"]) →
  let w1 := set_rebase_state (Some (at_step st (S (CurrentStep st)))) w in
  RebaseContinue env fuel w
  = if bool_decide (rest = []) then (Ok tt, w1) else RunRebaseLoop env fuel w1.
Proof.
  intros Hst Hline Hfields Hf w1. rewrite (RebaseContinue_step fuel w st line Hst Hline).
  rewrite Hfields. destruct rest as [|hash rest]; [by rewrite (bool_decide_eq_true_2 ([] = [])) by done|].
  rewrite (bool_decide_eq_false_2 (hash :: rest = [])) by done.
  assert (cmd ∉ ["pick"; "reword"; "squash"]) as Hf' by (apply Hf; intros ?; discriminate).
  clear Hf. rename Hf' into Hf.
  pose proof (FindCommit_state hash w) as Hs.
  destruct (FindCommit hash w) as [r w2] eqn:Hc. simpl in Hs. subst w2.
  rewrite (bind_Ok _ _ w (match r with Ok c => c | _ => zeroCommit end) w).
  2:{ unfold ignore_err. rewrite Hc. destruct r; try done.
      all: unfold FindCommit in Hc; repeat case_match; simplify_eq. }
  rewrite (bool_decide_eq_false_2 (cmd = "pick" ∨ cmd = "reword"))
    by (intros [-> | ->]; apply Hf; set_solver).
  rewrite (bool_decide_eq_false_2 (cmd = "squash"))
    by (intros ->; apply Hf; set_solver).
  by rewrite (bind_Ok _ _ w tt w).
Qed.

Lemma Reset_hard_Ok_inv h w w' :
  Reset env h ResetHard w = (Ok tt, w') →
  ∃ c T, FindCommit h w = (Ok c, w)
         ∧ (ParseTree env (TreeHash c) w).1 = Ok T
         ∧ index w' = T.
Proof.
  intros HR. destruct (Reset_Ok_inv env h _ w w' HR) as (c & old & Hc & Hh).
  rewrite (Reset_moved env h ResetHard w c old Hc Hh) in HR. cbv zeta in HR.
  mode_decide_in HR.
  apply bind_Ok_inv in HR as ([e|] & w2 & Hri & HR).
  { apply bind_Ok_inv in HR as (? & ? & _ & HR). done. }
  apply bind_Ok_inv in HR as ([e|] & w3 & Hrw & HR).
  { apply bind_Ok_inv in HR as (? & ? & _ & HR). done. }
  apply Printf_short_Ok_inv in HR as ->.
  unfold try in Hrw.
  destruct (resetWorkspace env h w2) as [[[]|?|?|] w4] eqn:Hrw'; try done.
  injection Hrw as <-.
  destruct (UpdateWorkspaceAndIndex_Ok_inv env _ _ _ Hrw') as (c' & T & Hc' & HT & Hidx).
  assert (∀ {X} (f : Repo → X),
            (∀ v w, f (set_HEAD v w) = f w) → (∀ v w, f (set_index v w) = f w) →
            f w2 = f w) as Hpre.
  { intros X f H1 H2.
    pose proof (frame_try f _ (resetIndex_frame env f H2 h) (set_HEAD (Some h) w)) as F.
    rewrite Hri in F. simpl in F. by rewrite F. }
  exists c, T. split; [done|]. split; [|done].
  assert (c' = c) as ->.
  { apply (FindCommit_Ok_ext h w2 w) in Hc';
      [congruence|by apply (Hpre _ repo_dir)|by apply (Hpre _ commits)]. }
  rewrite <- HT. apply ParseTree_objects. symmetry. by apply (Hpre _ objects).
Qed.

(** X15. A [RebaseAbort] that returns nil leaves the index equal to the
    tree of the original HEAD commit, HEAD on the branch that was being
    rebased, whose file holds the original HEAD again, or at the original
    HEAD itself when no branch was rebased; the scratch branch is gone, no
    rebase state and no todo list are left, and the commit log is as
    before: the commits made during the rebase stay in the log. *)
Theorem RebaseAbort_success w w' :
  RebaseAbort env w = (Ok tt, w') →
  ∃ st c T,
    rebase_state w = Some st
    ∧ FindCommit (OrigHead st) w = (Ok c, w)
    ∧ (ParseTree env (TreeHash c) w).1 = Ok T
    ∧ index w' = T
    ∧ HEAD w' = Some (if decide (HeadName st ≠ EmptyString) then "ref: " +:+ HeadName st
                      else OrigHead st)
    ∧ refs w' = delete ("refs/heads/" +:+ tmpBranch)
                  (if decide (HeadName st ≠ EmptyString)
                   then <[HeadName st := OrigHead st]> (refs w) else refs w)
    ∧ rebase_state w' = None
    ∧ rebase_todo w' = None
    ∧ commits w' = commits w.
Proof.
  unfold RebaseAbort. intros H.
  apply bind_Ok_inv in H as (b & w1 & Hb & H). injection Hb as <- <-.
  destruct (bool_decide (is_Some (rebase_state w))); [|done]. cbn [negb] in H.
  apply bind_Ok_inv in H as (st & w1 & Hst & H).
  unfold LoadRebaseState in Hst. destruct (rebase_state w) as [st'|] eqn:Hrs; [|done].
  injection Hst as -> <-.
  apply bind_Ok_inv in H as ([] & w1 & Hpr & H). apply Printf_short_Ok_inv in Hpr as ->.
  apply bind_Ok_inv in H as ([] & w1 & Hmid & H).
  apply bind_Ok_inv in H as ([] & w2 & Hrm & H).
  injection Hrm as <-. injection H as <-.
  exists st. simpl.
  destruct (decide (HeadName st ≠ EmptyString)) as [Hne|He].
  - apply bind_Ok_inv in Hmid as ([] & w3 & Hwh & Hmid).
    apply bind_Ok_inv in Hmid as ([] & w4 & Hwr & Hmid).
    unfold WriteFile_HEAD in Hwh. destruct (repo_dir w) eqn:Hdir; [|done].
    injection Hwh as <-.
    unfold WriteFile_ref in Hwr. simpl in Hwr. rewrite Hdir in Hwr. injection Hwr as <-.
    destruct (UpdateWorkspaceAndIndex_Ok_inv env _ _ _ Hmid) as (c & T & Hc & HT & Hidx).
    exists c, T. split; [done|].
    split; [by apply (FindCommit_Ok_ext _ _ w) in Hc|].
    split; [by rewrite <- HT; apply ParseTree_objects|].
    split; [done|].
    split; [by rewrite (frame_Ok HEAD _ _ _ _ (UpdateWorkspaceAndIndex_frame env HEAD
                          ltac:(done) ltac:(done) _) Hmid)|].
    split; [by rewrite (frame_Ok refs _ _ _ _ (UpdateWorkspaceAndIndex_frame env refs
                          ltac:(done) ltac:(done) _) Hmid)|].
    split; [done|]. split; [done|].
    by rewrite (frame_Ok commits _ _ _ _ (UpdateWorkspaceAndIndex_frame env commits
                  ltac:(done) ltac:(done) _) Hmid).
  - destruct (Reset_hard_Ok_inv _ _ _ Hmid) as (c & T & Hc & HT & Hidx).
    exists c, T. split; [done|]. split; [done|]. split; [done|]. split; [done|].
    split; [by apply (Reset_Ok_HEAD env _ _ _ _ Hmid)|].
    split; [by rewrite (frame_Ok refs _ _ _ _ (Reset_frame env refs
                          ltac:(done) ltac:(done) ltac:(done) _ _) Hmid)|].
    split; [done|]. split; [done|].
    by rewrite (frame_Ok commits _ _ _ _ (Reset_frame env commits
                  ltac:(done) ltac:(done) ltac:(done) _ _) Hmid).
Qed.

End rebase_commands.

(** ** The walk of [getCommitsBetween] without a start *)

Section commits_no_start.

Lemma getCommitsBetween_walk_no_start w h l :
  walk_to_root w h l →
  ∀ chain fuel, length l ≤ fuel →
    getCommitsBetween_walk fuel EmptyString h chain w = (Ok (chain ++ l), w).
Proof.
  induction 1 as [h c Hnz Hc Hp|h c l Hnz Hc Hp Hw IH]; intros chain fuel Hfuel;
    (destruct fuel as [|fuel]; [simpl in Hfuel; lia|]); simpl.
  - repeat (case_decide; [done|]).
    rewrite (bind_Ok _ _ w c w) by done.
    by rewrite decide_True by done.
  - repeat (case_decide; [done|]).
    rewrite (bind_Ok _ _ w c w) by done.
    rewrite decide_False by done.
    rewrite IH by (simpl in Hfuel; lia). by rewrite <- app_assoc.
Qed.

(** X16. Called with an empty start, [getCommitsBetween] returns the
    whole parent chain of [end] down to the root commit in the order of the
    walk, newest first: the early return at the root comes before the
    reversal. *)
Theorem getCommitsBetween_no_start w h l fuel :
  walk_to_root w h l →
  length l ≤ fuel →
  getCommitsBetween fuel EmptyString h w = (Ok l, w)
  ∧ head l = Some h.
Proof.
  intros Hw Hfuel. split; [|by destruct Hw].
  unfold getCommitsBetween. by rewrite (getCommitsBetween_walk_no_start w h l Hw [] fuel Hfuel).
Qed.

End commits_no_start.

(** ** Listing and clearing the stash *)

Section stash_list.

Lemma for_each_reads {A} (l : list A) (body : A → M unit) w :
  (∀ x w, (body x w).2 = w) → (for_each l body w).2 = w.
Proof.
  intros Hb. induction l as [|x l IH]; [done|]. simpl. rewrite bind_run.
  pose proof (Hb x w) as Hx. destruct (body x w) as [[[]| | |] w1]; simpl in Hx; by subst.
Qed.

(** X17. [StashList] writes nothing, and in a repository it returns
    nil exactly when every entry of the stack resolves to a commit of the
    log. *)
Theorem StashList_reads w :
  (StashList w).2 = w
  ∧ (repo_dir w = true →
     ((StashList w).1 = Ok tt ↔ Forall (λ hash, ∃ c, FindCommit hash w = (Ok c, w)) (stash w))).
Proof.
  assert (∀ hash w, ((_ ← on_err (wrap ("failed to find commit for stash " +:+ hash +:+ ": "))
                           (FindCommit hash); mret tt) w).2 = w) as Hbody.
  { intros hash w0. rewrite bind_run. unfold on_err.
    pose proof (FindCommit_state hash w0) as Hs.
    destruct (FindCommit hash w0) as [[| | |] w1]; simpl in Hs; by subst. }
  split.
  - unfold StashList. rewrite bind_run, IsRepoInitialized_run.
    destruct (repo_dir w); [|done]. cbn [negb]. rewrite bind_run. simpl.
    by apply for_each_reads.
  - intros Hdir. unfold StashList.
    rewrite (bind_Ok _ _ w true w) by (by rewrite IsRepoInitialized_run, Hdir).
    cbn [negb]. rewrite (bind_Ok _ _ w (stash w) w) by done.
    induction (stash w) as [|hash l IH]. { split; [intros _; constructor|done]. }
    simpl. rewrite bind_run, bind_run. unfold on_err.
    pose proof (FindCommit_state hash w) as Hs.
    destruct (FindCommit hash w) as [[c|e|p|] w1] eqn:Hc; simpl in Hs; subst w1; simpl.
    + rewrite IH. split; [intros Hl; constructor; [by exists c|done]|].
      by intros [_ Hl]%Forall_cons.
    + split; [done|]. intros [[c Hc'] _]%Forall_cons. congruence.
    + split; [done|]. intros [[c Hc'] _]%Forall_cons. congruence.
    + split; [done|]. intros [[c Hc'] _]%Forall_cons. congruence.
Qed.

End stash_list.

(** ** The start of an interactive rebase *)

Section rebase_replay.
Variable env : Env.

Lemma rebase_replay_edited fuel onto h name hashes w todo :
  repo_dir w = true →
  generateTodo hashes w = (Ok todo, w) →
  rebase_replay env fuel onto h name hashes w
  = match edited env todo with
    | inl err => (Err err, set_rebase_todo (Some todo) w)
    | inr newTodoContent =>
        (let steps := parseTodo newTodoContent in
         if bool_decide (length steps = 0) then mret tt
         else
           SaveRebaseState (mkRebaseState name (ID onto) h steps 0);;
           WriteFile_ref ("refs/heads/" +:+ tmpBranch) (ID onto);;
           on_err (wrap "failed to update HEAD: ")
                  (WriteFile_HEAD ("ref: refs/heads/" +:+ tmpBranch));;
           on_err (wrap "failed to checkout base: ")
                  (UpdateWorkspaceAndIndex env (ID onto));;
           RunRebaseLoop env fuel)
          (set_rebase_todo (Some newTodoContent) w)
    end.
Proof.
  intros Hdir Hg. unfold rebase_replay, edited.
  rewrite (bind_Ok _ _ w todo w Hg).
  rewrite (bind_Ok _ _ w tt (set_rebase_todo (Some todo) w)) by (by rewrite Hdir).
  destruct (getEditor env) as [err|[editor editorArgs]]; [done|].
  destruct (run_editor env editor editorArgs todo) as [err|new]; [done|].
  by rewrite (bind_Ok _ _ _ tt (set_rebase_todo (Some new) w)).
Qed.

(** X18. When no editor is found, when the editor fails, or when
    it leaves a file without a step, the interactive rebase ends there,
    with the error or with nil: the todo file is written, no rebase state
    is saved, and HEAD, the branches, the index and the working tree are
    untouched. *)
Theorem rebase_replay_without_steps fuel onto h name hashes w todo :
  repo_dir w = true →
  generateTodo hashes w = (Ok todo, w) →
  (∀ newTodoContent, edited env todo = inr newTodoContent → parseTodo newTodoContent = []) →
  rebase_replay env fuel onto h name hashes w
  = (if edited env todo is inl err then Err err else Ok tt,
     set_rebase_todo (Some (if edited env todo is inr newTodoContent then newTodoContent
                            else todo)) w).
Proof.
  intros Hdir Hg Hnone. rewrite (rebase_replay_edited _ _ _ _ _ _ _ Hdir Hg).
  destruct (edited env todo) as [err|new]; [done|].
  cbv zeta. by rewrite (Hnone new eq_refl).
Qed.

(** X19. When the editor leaves the generated todo list as it is,
    for commits that resolve with digests of one word and messages of one
    line, the interactive rebase saves a state whose steps are the [pick]
    lines of the commits to rebase, in their order, with the step index 0,
    the base and the original HEAD; it puts the scratch branch at the base
    and HEAD on the scratch branch, and goes on to check out the base and
    to run the loop. *)
Theorem rebase_replay_starts fuel onto h name hashes cs w todo :
  repo_dir w = true →
  hashes ≠ [] →
  Forall2 (λ h c, FindCommit h w = (Ok c, w)
                  ∧ h ≠ EmptyString ∧ no_space h = true
                  ∧ one_line (Message c) = true) hashes cs →
  generateTodo hashes w = (Ok todo, w) →
  edited env todo = inr todo →
  let steps :=
    zip_with (λ h c, strings.TrimSpace ("pick " +:+ h +:+ " " +:+ Message c)) hashes cs in
  rebase_replay env fuel onto h name hashes w
  = (on_err (wrap "failed to checkout base: ") (UpdateWorkspaceAndIndex env (ID onto));;
     RunRebaseLoop env fuel)
      (set_HEAD (Some ("ref: refs/heads/" +:+ tmpBranch))
         (set_refs (<["refs/heads/" +:+ tmpBranch := ID onto]> (refs w))
            (set_rebase_state (Some (mkRebaseState name (ID onto) h steps 0))
               (set_rebase_todo (Some todo) w)))).
Proof.
  intros Hdir Hne Hall Hg Hed steps.
  rewrite (rebase_replay_edited _ _ _ _ _ _ _ Hdir Hg), Hed. cbv zeta.
  destruct (generateTodo_read_back hashes cs w Hall) as (todo' & Hg' & Hp & _).
  assert (todo' = todo) as -> by congruence.
  rewrite Hp. fold steps.
  assert (length steps ≠ 0) as Hlen.
  { subst steps. rewrite length_zip_with. apply Forall2_length in Hall.
    destruct hashes; [done|]. rewrite <- Hall. simpl. lia. }
  rewrite bool_decide_false by done.
  rewrite (bind_Ok _ _ _ tt _) by reflexivity.
  rewrite (bind_Ok _ _ _ tt _) by (unfold WriteFile_ref; simpl; by rewrite Hdir).
  rewrite (bind_Ok _ _ _ tt _)
    by (apply on_err_Ok; unfold WriteFile_HEAD; simpl; by rewrite Hdir).
  reflexivity.
Qed.

End rebase_replay.

(** ** The commands *)

Section command_props.
Variable env : Env.
Variable parseStashIndex : string → error + Z.

(** X20. Outside a repository the command [stash] exits with status
    1 and does nothing; inside, with a first argument that is none of
    [list], [push], [pop] and [clear], it saves a stash as the command
    without arguments does, unless the argument is [apply] or [drop] and
    another argument follows: [stash apply] and [stash drop] without a
    position push a new stash. *)
Theorem cmd_stash_falls_back args w :
  head args ∉ [Some "list"; Some "push"; Some "pop"; Some "clear"] →
  (head args ∈ [Some "apply"; Some "drop"] → length args = 1) →
  cmd_stash env parseStashIndex args w
  = if repo_dir w then exit_after (Stash env) w else (Ok 1%Z, w).
Proof.
  intros Hnot Hone. unfold cmd_stash. rewrite bind_run, IsRepoInitialized_run.
  destruct (repo_dir w); [|done]. cbn [negb].
  rewrite <- head_lookup.
  repeat match goal with
  | |- context [bool_decide (?n < length args ∧ head args = Some ?s)] =>
      rewrite (bool_decide_eq_false_2 (n < length args ∧ head args = Some s))
        by (intros [Hl Hs];
            first [ apply Hnot; rewrite Hs; set_solver
                  | rewrite Hone in Hl by (rewrite Hs; set_solver); lia ])
  end.
  done.
Qed.

(** X21. [getEditor] fails exactly when EDITOR is not set, the
    system is not Windows and none of code, nano, micro and vim is
    installed; with EDITOR set it answers that editor without
    arguments. *)
Theorem getEditor_fails_iff :
  ((∃ err, getEditor env = inl err)
   ↔ Getenv_EDITOR env = EmptyString
     ∧ GOOS env ≠ "windows"
     ∧ Forall (λ e, LookPath env e = false) ["code"; "nano"; "micro"; "vim"])
  ∧ (Getenv_EDITOR env ≠ EmptyString → getEditor env = inr (Getenv_EDITOR env, [])).
Proof.
  unfold getEditor. split.
  - destruct (decide (Getenv_EDITOR env ≠ EmptyString)) as [Hne|He].
    { split; [by intros [? ?]|]. by intros [? _]. }
    assert (Getenv_EDITOR env = EmptyString) as He'
      by (by destruct (decide (Getenv_EDITOR env = EmptyString))).
    destruct (decide (GOOS env = "windows")) as [Hw|Hw].
    { split; [intros [? H]; by destruct (LookPath env "code")|]. by intros (_ & ? & _). }
    rewrite !Forall_cons, Forall_nil. cbn [filter list_filter].
    destruct (LookPath env "code"), (LookPath env "nano"), (LookPath env "micro"),
      (LookPath env "vim");
      repeat (first [rewrite decide_True by done | rewrite decide_False by done]);
      (split;
       [ intros [err Herr]; try discriminate; by repeat split
       | intros (_ & _ & H1 & H2 & H3 & H4 & _); first [discriminate | by eexists] ]).
  - intros Hne. by rewrite decide_True.
Qed.

End command_props.

(** ** Removing a directory *)

Lemma lookup_foldr_delete_list {A} (m : gmap string A) (l : list string) k :
  foldr delete m l !! k = if decide (k ∈ l) then None else m !! k.
Proof.
  induction l as [|p l IH]; cbn [foldr].
  - destruct (decide (k ∈ [])) as [Hin|Hin]; [by apply elem_of_nil in Hin|done].
  - destruct (decide (p = k)) as [->|Hne].
    + rewrite lookup_delete_eq.
      destruct (decide (k ∈ k :: l)) as [Hin|Hin]; [done|]. destruct Hin. by left.
    + rewrite lookup_delete_ne by done. rewrite IH.
      destruct (decide (k ∈ l)) as [Hin|Hin], (decide (k ∈ p :: l)) as [Hin'|Hin'];
        try done.
      * destruct Hin'. by right.
      * apply elem_of_cons in Hin' as [->|?]; done.
Qed.

Lemma foldl_delete_foldr {A} (m : gmap string A) (l : list string) :
  foldl (λ acc p, delete p acc) m l = foldr delete m l.
Proof.
  revert m. induction l as [|p l IH]; intros m; [done|].
  simpl. rewrite IH. apply map_eq. intros k.
  rewrite lookup_foldr_delete_list.
  destruct (decide (p = k)) as [->|Hne].
  - rewrite !lookup_delete_eq. by case_decide.
  - rewrite !lookup_delete_ne by done. by rewrite lookup_foldr_delete_list.
Qed.

Lemma for_each_Remove_work (l : list string) w :
  for_each l (λ filePath, _ ← try (Remove_work filePath); mret tt) w
  = (Ok tt, set_worktree (foldr delete (worktree w) l) w).
Proof.
  rewrite <- foldl_delete_foldr. revert w. induction l as [|p l IH]; intros w; simpl.
  - by rewrite set_worktree_same.
  - rewrite bind_run, bind_run.
    assert (try (Remove_work p) w
            = (Ok (if worktree w !! p is Some _ then None
                   else Some (Errorf ("remove " +:+ p +:+ ": no such file or directory"))),
               set_worktree (delete p (worktree w)) w)) as ->.
    { unfold try, Remove_work. destruct (worktree w !! p) eqn:Hp; [done|].
      by rewrite delete_id, set_worktree_same. }
    simpl. by rewrite IH.
Qed.

Section remove_directory.
Variable env : Env.
Hypothesis Hrange : range_ok env.

(** X22. A recursive [RemoveFile] of a safe path takes the tracked
    files that are the path itself or lie below it: without any it fails
    with "pathspec ... did not match any files" and changes nothing;
    otherwise it removes exactly those from the index and from the working
    tree, where a file already missing is passed over, and returns nil.
    Files below the path that are not tracked stay on disk. *)
Theorem RemoveFile_recursive filename w :
  IsSafePath env (Clean env filename) = true →
  repo_dir w = true →
  let f := Clean env filename in
  let tracked := filter (λ kv, at_or_under f kv.1 = true) (index w) in
  RemoveFile env filename true w
  = if decide (tracked = ∅)
    then (Err (Errorf ("pathspec '" +:+ f +:+ "' did not match any files")), w)
    else (Ok tt, set_index (index w ∖ tracked) (set_worktree (worktree w ∖ tracked) w)).
Proof using Hrange.
  intros Hsafe Hdir f tracked. unfold RemoveFile. cbv zeta. rewrite Hsafe. cbn [negb].
  fold f.
  unfold UpdateIndex. rewrite (bind_Ok _ _ w (index w) w) by reflexivity.
  set (l := omap (λ kv : string * string,
                    if bool_decide (kv.1 = f) || strings.HasPrefix kv.1 (f +:+ "/")
                    then Some kv.1 else None)
                 (range_paths env (index w))).
  assert (∀ k, k ∈ l ↔ is_Some (tracked !! k)) as Hl.
  { intros k. subst l tracked. rewrite list_elem_of_omap. split.
    - intros ([k' v] & Hin & Hg). simpl in Hg.
      rewrite (range_paths_perm env Hrange) in Hin. apply elem_of_map_to_list in Hin.
      destruct (bool_decide (k' = f) || strings.HasPrefix k' (f +:+ "/")) eqn:Hb; [|done].
      injection Hg as <-. exists v. by apply map_lookup_filter_Some.
    - intros [v [Hv Hb]%map_lookup_filter_Some]. exists (k, v). split.
      + rewrite (range_paths_perm env Hrange). by apply elem_of_map_to_list.
      + simpl in *. unfold at_or_under in Hb. by rewrite Hb. }
  rewrite bind_run, bind_run.
  change ((mret l : M (list string)) w) with (@Ok (list string) l, w). cbv iota beta.
  destruct (decide (tracked = ∅)) as [He|Hne].
  - assert (l = []) as ->.
    { destruct l as [|k l']; [done|]. destruct (proj1 (Hl k)) as [v Hv]; [by left|].
      by rewrite He, lookup_empty in Hv. }
    done.
  - assert (l ≠ []) as Hnil.
    { intros El. apply Hne. apply map_empty. intros k.
      destruct (tracked !! k) eqn:Hk; [|done].
      assert (k ∈ l) as Hin by (apply Hl; by eexists). rewrite El in Hin.
      by apply elem_of_nil in Hin. }
    rewrite bool_decide_false by (by destruct l).
    rewrite bind_run, for_each_Remove_work. cbv iota beta.
    change ((mret (foldr delete (index w) l) : M (gmap string string))
              (set_worktree (foldr delete (worktree w) l) w))
      with (@Ok (gmap string string) (foldr delete (index w) l),
            set_worktree (foldr delete (worktree w) l) w).
    cbv iota beta. unfold WriteIndex. simpl. rewrite Hdir.
    assert (∀ m : gmap string string, foldr delete m l = m ∖ tracked) as Hd.
    { intros m. apply map_eq. intros k.
      rewrite lookup_foldr_delete_list, lookup_difference.
      destruct (decide (k ∈ l)) as [Hin|Hin].
      - apply Hl in Hin as [v ->]. done.
      - destruct (tracked !! k) eqn:Hk; [|done]. destruct Hin. apply Hl. by eexists. }
    by rewrite !Hd.
Qed.

End remove_directory.

(** ** Replaying a commit on its parent *)

Lemma set_index_set_worktree_twice I W I' W' w :
  set_index I' (set_worktree W' (set_index I (set_worktree W w)))
  = set_index I' (set_worktree W' w).
Proof. done. Qed.

Section replay.
Variable env : Env.
Hypothesis Hrange : range_ok env.

(** One change that meets no conflict: a deletion of a tracked path, or a
    blob of the store written and staged. *)
Lemma applyChange_applies hT path ch w :
  repo_dir w = true →
  Clean env path = path →
  IsSafePath env path = true →
  (hT !! path = None ∧ OldHash ch = EmptyString) ∨ hT !! path = Some (OldHash ch) →
  (NewHash ch = EmptyString → is_Some (index w !! path)) →
  (NewHash ch ≠ EmptyString →
   ∃ content, objects w !! NewHash ch = Some content ∧ digest env content = NewHash ch) →
  applyChange env hT path ch w
  = (Ok tt,
     if decide (NewHash ch = EmptyString)
     then set_index (delete path (index w)) (set_worktree (delete path (worktree w)) w)
     else set_index (<[path := NewHash ch]> (index w))
            (set_worktree (<[path := default EmptyString (objects w !! NewHash ch)]>
                             (worktree w)) w)).
Proof.
  intros Hdir Hclean Hsafe Hhead Hdel Hadd. unfold applyChange. cbv zeta.
  destruct (decide (NewHash ch = EmptyString)) as [Hn|Hn].
  - specialize (Hdel Hn).
    assert (RemoveFile env path false w
            = (Ok tt, set_index (delete path (index w))
                        (set_worktree (delete path (worktree w)) w))) as Hrm.
    { pose proof (RemoveFile_tracked env path w) as H. rewrite Hclean in H.
      rewrite H by done. by rewrite Hdir. }
    destruct Hhead as [[-> _] | ->]; [done|]. by rewrite decide_False by (intros ?; done).
  - destruct (Hadd Hn) as (content & Hobj & Hdig).
    rewrite (bind_Ok _ _ w content w) by (unfold ReadObject; by rewrite Hobj).
    assert ((WriteFile_work path content;; AddFile env path) w
            = (Ok tt, set_index (<[path := NewHash ch]> (index w))
                        (set_worktree (<[path := content]> (worktree w)) w))) as Hw.
    { rewrite (bind_Ok _ _ w tt (set_worktree (<[path := content]> (worktree w)) w))
        by done.
      unfold AddFile.
      rewrite (bind_Ok _ _ _ (NewHash ch) (set_worktree (<[path := content]> (worktree w)) w)).
      - unfold UpdateIndex. rewrite (bind_Ok _ _ _ (index w) _) by done.
        rewrite (bind_Ok _ _ _ (<[path := NewHash ch]> (index w)) _) by done.
        unfold WriteIndex. simpl. by rewrite Hdir.
      - unfold HashAndStoreFile. simpl. rewrite lookup_insert_eq.
        unfold put. simpl. by rewrite Hdig, Hobj. }
    rewrite Hobj. simpl.
    destruct Hhead as [[-> Ho] | ->].
    + by rewrite decide_False by (intros ?; done).
    + by rewrite decide_False by (intros ?; done).
Qed.

(** A list of changes of distinct paths that meet no conflict. *)
Lemma applyChanges_apply hT (l : list (string * Change)) w :
  NoDup l.*1 →
  repo_dir w = true →
  Forall (λ kv,
            Clean env kv.1 = kv.1
            ∧ IsSafePath env kv.1 = true
            ∧ ((hT !! kv.1 = None ∧ OldHash kv.2 = EmptyString)
               ∨ hT !! kv.1 = Some (OldHash kv.2))
            ∧ (NewHash kv.2 = EmptyString → is_Some (index w !! kv.1))
            ∧ (NewHash kv.2 ≠ EmptyString →
               ∃ content, objects w !! NewHash kv.2 = Some content
                          ∧ digest env content = NewHash kv.2)) l →
  ∃ I W,
    for_each l (λ kv, applyChange env hT kv.1 kv.2) w
    = (Ok tt, set_index I (set_worktree W w))
    ∧ (∀ k, I !! k
            = match (list_to_map l : gmap string Change) !! k with
              | Some ch => if decide (NewHash ch = EmptyString) then None
                           else Some (NewHash ch)
              | None => index w !! k
              end)
    ∧ (∀ k, W !! k
            = match (list_to_map l : gmap string Change) !! k with
              | Some ch => if decide (NewHash ch = EmptyString) then None
                           else Some (default EmptyString (objects w !! NewHash ch))
              | None => worktree w !! k
              end).
Proof.
  revert w. induction l as [|[p ch] l IH]; intros w Hnd Hdir Hall.
  - exists (index w), (worktree w). split; [by destruct w|]. by split.
  - apply NoDup_cons in Hnd as [Hp Hnd].
    apply Forall_cons in Hall as [(Hclean & Hsafe & Hhead & Hdel & Hadd) Hall].
    simpl in Hclean, Hsafe, Hhead, Hdel, Hadd.
    pose proof (applyChange_applies hT p ch w Hdir Hclean Hsafe Hhead Hdel Hadd) as Hstep.
    set (w1 := if decide (NewHash ch = EmptyString)
               then set_index (delete p (index w)) (set_worktree (delete p (worktree w)) w)
               else set_index (<[p := NewHash ch]> (index w))
                      (set_worktree (<[p := default EmptyString (objects w !! NewHash ch)]>
                                       (worktree w)) w)) in *.
    assert (repo_dir w1 = true ∧ objects w1 = objects w
            ∧ (∀ k, k ≠ p → index w1 !! k = index w !! k)
            ∧ (∀ k, k ≠ p → worktree w1 !! k = worktree w !! k)
            ∧ index w1 !! p = (if decide (NewHash ch = EmptyString) then None
                               else Some (NewHash ch))
            ∧ worktree w1 !! p
              = (if decide (NewHash ch = EmptyString) then None
                 else Some (default EmptyString (objects w !! NewHash ch)))
            ∧ ∀ I W, set_index I (set_worktree W w1) = set_index I (set_worktree W w))
      as (Hdir1 & Hobj1 & Hi1 & Hw1 & Hip & Hwp & Hset).
    { subst w1. destruct (decide (NewHash ch = EmptyString)); simpl.
      all: split; [done|]; split; [done|].
      all: split; [intros k Hk; by rewrite ?lookup_delete_ne, ?lookup_insert_ne by done|].
      all: split; [intros k Hk; by rewrite ?lookup_delete_ne, ?lookup_insert_ne by done|].
      all: split; [by rewrite ?lookup_delete_eq, ?lookup_insert_eq|].
      all: split; [by rewrite ?lookup_delete_eq, ?lookup_insert_eq|done]. }
    destruct (IH w1 Hnd Hdir1) as (I & W & Hrun & HI & HW).
    { apply Forall_forall. intros [k c] Hin. rewrite Forall_forall in Hall.
      destruct (Hall _ Hin) as (? & ? & ? & Hdel' & Hadd'). simpl in *.
      assert (k ≠ p) as Hk.
      { intros ->. apply Hp. apply list_elem_of_fmap. by exists (p, c). }
      rewrite Hobj1, (Hi1 k Hk). done. }
    exists I, W. split; [|split].
    + simpl. rewrite (bind_Ok _ _ w tt w1 Hstep), Hrun. by rewrite Hset.
    + intros k. rewrite HI. simpl. destruct (decide (k = p)) as [->|Hk].
      * rewrite lookup_insert_eq, (not_elem_of_list_to_map_1 _ _ Hp). exact Hip.
      * rewrite lookup_insert_ne by done. rewrite (Hi1 k Hk). done.
    + intros k. rewrite HW. simpl. destruct (decide (k = p)) as [->|Hk].
      * rewrite lookup_insert_eq, (not_elem_of_list_to_map_1 _ _ Hp). exact Hwp.
      * rewrite lookup_insert_ne by done. rewrite (Hw1 k Hk), Hobj1. done.
Qed.

(** X23. Replaying a commit, without committing, in a repository whose
    HEAD commit has the tree of the commit's parent and whose index is that
    tree, succeeds and leaves the index equal to the tree of the commit,
    in whatever order Go ranges over the changes: every path that changed
    holds the blob of the commit in the working tree or is gone from it,
    the other files are untouched, and the commit log, the object store,
    HEAD and the branches are as before.  (The paths are clean and safe,
    the blobs of the commit are in the store under their digests.) *)
Theorem cherryPick_onto_parent w hash pT cT :
  picks env w hash pT cT pT →
  index w = pT →
  (∀ path, is_Some (pT !! path) ∨ is_Some (cT !! path) →
           Clean env path = path ∧ IsSafePath env path = true) →
  (∀ path h, cT !! path = Some h →
             h ≠ EmptyString
             ∧ ∃ content, objects w !! h = Some content ∧ digest env content = h) →
  ∃ w',
    cherryPick env hash true w = (Ok tt, w')
    ∧ index w' = cT
    ∧ (∀ path, worktree w' !! path
               = if decide (pT !! path = cT !! path) then worktree w !! path
                 else h ← cT !! path; objects w !! h)
    ∧ w' = set_index (index w') (set_worktree (worktree w') w).
Proof using Hrange.
  intros Hpicks Hidx Hpaths Hblobs.
  destruct (getChanges_run env w hash pT cT pT Hpicks) as (child & Hc & Hg).
  destruct Hpicks as (child' & parent & head & Hc' & _ & _ & _ & _ & Hh & HhT).
  destruct (FindCommit_Ok_inv _ _ _ _ Hc) as [_ Hdir].
  set (l := range_changes env (diff_trees pT cT)).
  assert (l ≡ₚ map_to_list (diff_trees pT cT)) as Hperm by apply (range_changes_perm env Hrange).
  assert (NoDup l.*1) as Hnd by (rewrite Hperm; apply NoDup_fst_map_to_list).
  assert ((list_to_map l : gmap string Change) = diff_trees pT cT) as Hmap.
  { rewrite <- (list_to_map_to_list (diff_trees pT cT)).
    by apply list_to_map_proper. }
  destruct (applyChanges_apply pT l w Hnd Hdir) as (I & W & Hrun & HI & HW).
  { apply Forall_forall. intros [path ch] Hin. simpl.
    rewrite Hperm in Hin. apply elem_of_map_to_list in Hin.
    rewrite diff_trees_lookup in Hin.
    destruct (decide (pT !! path = cT !! path)) as [|Hne]; [done|].
    injection Hin as <-. simpl.
    destruct (Hpaths path) as [Hclean Hsafe].
    { destruct (pT !! path) as [x|], (cT !! path) as [y|];
        [left; by exists x | left; by exists x | right; by exists y | done]. }
    split; [done|]. split; [done|]. split.
    { destruct (pT !! path); [by right|by left]. }
    split.
    - intros Hn. rewrite Hidx. destruct (cT !! path) as [h|] eqn:HcT.
      + destruct (Hblobs path h HcT) as [Hh0 _]. simpl in Hn. done.
      + destruct (pT !! path); [by eexists|done].
    - intros Hn. destruct (cT !! path) as [h|] eqn:HcT; [|done].
      simpl in *. by destruct (Hblobs path h HcT) as [_ ?]. }
  exists (set_index I (set_worktree W w)). split; [|split; [|split]].
  - unfold cherryPick. rewrite (bind_Ok _ _ w child w) by done.
    rewrite (bind_Ok _ _ w _ w Hg).
    rewrite (bind_Ok _ _ w tt (set_index I (set_worktree W w))); [done|].
    by rewrite (applyChanges_run env w _ head pT Hh HhT).
  - simpl. apply map_eq. intros k. rewrite HI, Hmap, diff_trees_lookup.
    destruct (decide (pT !! k = cT !! k)) as [E|Hne]; [by rewrite Hidx, E|].
    cbn [NewHash]. destruct (cT !! k) as [h|] eqn:HcT; cbn [default].
    + destruct (Hblobs k h HcT) as [Hh0 _]. by rewrite decide_False.
    + by rewrite decide_True.
  - intros k. simpl. rewrite HW, Hmap, diff_trees_lookup.
    destruct (decide (pT !! k = cT !! k)) as [E|Hne]; [done|].
    cbn [NewHash]. destruct (cT !! k) as [h|] eqn:HcT; cbn [default].
    + destruct (Hblobs k h HcT) as (Hh0 & content & Hobj & _).
      rewrite decide_False by done. simpl. by rewrite Hobj.
    + by rewrite decide_True.
  - done.
Qed.

End replay.

(** ** The end of a rebase *)

Section finish.
Variable env : Env.

(** X24. [finishRebase] fails only when [readHead] does (in a
    repository).  Otherwise it returns nil, the scratch branch is gone and
    no rebase state and no todo list are left.  With a branch under rebase,
    HEAD names that branch again and the branch file holds the commit that
    [readHead] gave.  Without one, [.kitcat/HEAD] is not written: when it
    named the scratch branch, as it does during a rebase, it still names
    it, and that branch no longer exists. *)
Theorem finishRebase_result st w :
  repo_dir w = true →
  match readHead env w with
  | inl err => finishRebase env st w = (Err err, w)
  | inr headHash =>
      ∃ w', finishRebase env st w = (Ok tt, w')
            ∧ HEAD w' = (if decide (HeadName st ≠ EmptyString)
                         then Some ("ref: " +:+ HeadName st) else HEAD w)
            ∧ refs w' = delete ("refs/heads/" +:+ tmpBranch)
                          (if decide (HeadName st ≠ EmptyString)
                           then <[HeadName st := headHash]> (refs w) else refs w)
            ∧ rebase_state w' = None
            ∧ rebase_todo w' = None
            ∧ commits w' = commits w ∧ index w' = index w ∧ worktree w' = worktree w
  end.
Proof.
  intros Hdir. unfold finishRebase.
  destruct (readHead env w) as [err|headHash] eqn:Hh.
  { by rewrite (bind_Err _ _ w err w) by (by apply query_inl). }
  rewrite (bind_Ok _ _ w headHash w) by (by apply query_inr).
  destruct (decide (HeadName st ≠ EmptyString)) as [Hne|He].
  - eexists. split.
    + rewrite (bind_Ok _ _ w tt
                 (set_refs (<[HeadName st := headHash]> (refs w))
                    (set_HEAD (Some ("ref: " +:+ HeadName st)) w))).
      * by rewrite (bind_Ok _ _ _ tt _) by reflexivity.
      * rewrite (bind_Ok _ _ w tt (set_HEAD (Some ("ref: " +:+ HeadName st)) w))
          by (unfold WriteFile_HEAD; by rewrite Hdir).
        unfold WriteFile_ref. simpl. by rewrite Hdir.
    + done.
  - eexists. split.
    + rewrite (bind_Ok _ _ w tt w) by done.
      by rewrite (bind_Ok _ _ _ tt _) by reflexivity.
    + done.
Qed.

(** X25. In a repository, [RebaseInteractive] refuses a dirty
    working tree with "cannot rebase: you have unstaged changes" and, on a
    clean tree, a base that does not resolve with "invalid base commit";
    the repository is left as it was. *)
Theorem RebaseInteractive_refuses fuel commitHash w :
  repo_dir w = true →
  (IsWorkDirDirty env w = inr true
   ∨ (IsWorkDirDirty env w = inr false ∧ ∃ err, FindCommit commitHash w = (Err err, w))) →
  RebaseInteractive env fuel commitHash w
  = (Err (if IsWorkDirDirty env w is inr true
          then Errorf "cannot rebase: you have unstaged changes"
          else match FindCommit commitHash w with
               | (Err err, _) => wrap ("invalid base commit '" +:+ commitHash +:+ "': ") err
               | _ => Errorf EmptyString
               end), w).
Proof.
  intros Hdir H. unfold RebaseInteractive.
  rewrite (bind_Ok _ _ w true w) by (by rewrite IsRepoInitialized_run, Hdir).
  cbn [negb]. destruct H as [Hd | (Hd & err & Hc)]; rewrite Hd.
  - by rewrite (bind_Ok _ _ w true w) by (by apply on_err_Ok, query_inr).
  - rewrite (bind_Ok _ _ w false w) by (by apply on_err_Ok, query_inr).
    rewrite Hc. by rewrite (bind_Err _ _ w _ w) by (by apply on_err_Err).
Qed.

(** X26. The command [rebase] exits with status 2 without touching
    the repository when it has no argument, when the first argument is
    none of [--abort], [--continue] and [-i], and when [-i] comes without a
    commit. *)
Theorem cmd_rebase_usage fuel args w :
  (head args ∉ [Some "--abort"; Some "--continue"; Some "-i"] ∨ args = ["-i"]) →
  cmd_rebase env fuel args w = (Ok 2%Z, w).
Proof.
  intros [Hnot | ->]; [|done]. destruct args as [|arg0 rest]; [done|].
  unfold cmd_rebase.
  rewrite !bool_decide_eq_false_2; [done|intros ->; apply Hnot; set_solver..].
Qed.

End finish.


(** ** The properties at work on the sample repositories *)

Lemma Reset_success_sets_HEAD_literally_witness :
  HEAD sample.repo = Some ("ref: refs/heads/main" +:+ nl)
  ∧ HEAD (Reset mem.env "c1aaaaa" ResetMixed sample.repo).2 = Some "c1aaaaa"
  ∧ refs (Reset mem.env "c1aaaaa" ResetMixed sample.repo).2 = refs sample.repo.
Proof.
  split; [reflexivity|].
  destruct (Reset_success_sets_HEAD_literally mem.env "c1aaaaa" ResetMixed sample.repo
              (Reset mem.env "c1aaaaa" ResetMixed sample.repo).2) as (H1 & H2 & _).
  - by vm_compute.
  - split; [exact H1 | exact H2].
Defined.

Lemma Reset_mixed_replaces_index_witness :
  let w' := (Reset mem.env "c1aaaaa" ResetMixed sample.repo).2 in
  worktree w' = worktree sample.repo
  ∧ ∃ c t, FindCommit "c1aaaaa" sample.repo = (Ok c, sample.repo)
           ∧ (ParseTree mem.env (TreeHash c) sample.repo).1 = Ok t
           ∧ index w' = t.
Proof.
  intros w'.
  destruct (Reset_mixed_replaces_index mem.env "c1aaaaa" sample.repo) as [Hw Hi].
  split; [exact Hw|]. apply Hi. by vm_compute.
Defined.

Lemma StashDrop_removes_that_entry_witness :
  StashDrop 1 more.stashed = (Ok tt, set_stash ["c3ccccc"; "c2bbbbb"] sample.repo).
Proof.
  destruct (StashDrop_removes_that_entry 1 more.stashed) as (hash & Hh & ->);
    [reflexivity | simpl; lia |].
  injection Hh as <-. reflexivity.
Defined.

Lemma Stash_invalid_index_witness :
  StashApply mem.env 3 more.stashed = (Err (Errorf "invalid stash index: 3"), more.stashed)
  ∧ StashDrop 3 more.stashed = (Err (Errorf "invalid stash index: 3"), more.stashed).
Proof.
  apply (Stash_invalid_index mem.env 3 more.stashed); [reflexivity | simpl; lia].
Defined.

Lemma StashPop_success_witness :
  ∃ top c T,
    stash more.stashed_clean = top :: stash (StashPop mem.env more.stashed_clean).2
    ∧ IsWorkDirDirty mem.env
        (set_stash (stash (StashPop mem.env more.stashed_clean).2) more.stashed_clean)
      = inr false
    ∧ FindCommit top more.stashed_clean = (Ok c, more.stashed_clean)
    ∧ (ParseTree mem.env (TreeHash c) more.stashed_clean).1 = Ok T
    ∧ index (StashPop mem.env more.stashed_clean).2 = T
    ∧ HEAD (StashPop mem.env more.stashed_clean).2 = HEAD more.stashed_clean
    ∧ refs (StashPop mem.env more.stashed_clean).2 = refs more.stashed_clean
    ∧ commits (StashPop mem.env more.stashed_clean).2 = commits more.stashed_clean.
Proof.
  apply (StashPop_success mem.env more.stashed_clean). by vm_compute.
Defined.

Lemma StashPush_success_witness :
  ∃ head c,
    GetHeadCommit mem.env sample.dirty_stashed = inr head
    ∧ IsWorkDirDirty mem.env sample.dirty_stashed = inr true
    ∧ commits (StashPush mem.env "later" sample.dirty_stashed).2
      = commits sample.dirty_stashed ++ [c]
    ∧ stash (StashPush mem.env "later" sample.dirty_stashed).2
      = ID c :: stash sample.dirty_stashed
    ∧ Parent c = ID head
    ∧ strings.HasPrefix (Message c) "WIP on " = true
    ∧ HEAD (StashPush mem.env "later" sample.dirty_stashed).2 = Some (ID head)
    ∧ refs (StashPush mem.env "later" sample.dirty_stashed).2 = refs sample.dirty_stashed.
Proof.
  apply (StashPush_success mem.env "later" sample.dirty_stashed). by vm_compute.
Defined.

Lemma parseTodo_generateTodo_witness :
  ∃ content,
    generateTodo ["c1aaaaa"; "c2bbbbb"] sample.repo = (Ok content, sample.repo)
    ∧ parseTodo content = ["pick c1aaaaa one"; "pick c2bbbbb two"]
    ∧ strings.Fields <$> parseTodo content
      = [["pick"; "c1aaaaa"; "one"]; ["pick"; "c2bbbbb"; "two"]].
Proof.
  apply (parseTodo_generateTodo ["c1aaaaa"; "c2bbbbb"] [sample.c_one; sample.c_two]
           sample.repo).
  repeat constructor; by compute.
Defined.

Lemma getChanges_exact_witness :
  ∃ child cT,
    FindCommit "c1aaaaa" sample.repo = (Ok child, sample.repo)
    ∧ ParseTree mem.env (TreeHash child) sample.repo = (Ok cT, sample.repo)
    ∧ ∀ path,
        diff_trees {[ "a" := "one" ]} {[ "a" := "two" ]} !! path
        = if decide (parent_tree mem.env sample.repo "base000" !! path = cT !! path)
          then None
          else Some (mkChange
                       (default EmptyString (parent_tree mem.env sample.repo "base000" !! path))
                       (default EmptyString (cT !! path))).
Proof.
  apply (getChanges_exact mem.env "base000" "c1aaaaa" sample.repo
           (diff_trees {[ "a" := "one" ]} {[ "a" := "two" ]}) sample.repo).
  by vm_compute.
Defined.

Lemma RunRebaseLoop_passes_over_witness :
  RunRebaseLoop mem.env 3 more.dropping = (Ok tt, (RunRebaseLoop mem.env 3 more.dropping).2)
  ∧ rebase_state (RunRebaseLoop mem.env 3 more.dropping).2 = None
  ∧ commits (RunRebaseLoop mem.env 3 more.dropping).2 = commits more.dropping
  ∧ index (RunRebaseLoop mem.env 3 more.dropping).2 = index more.dropping.
Proof.
  destruct (RunRebaseLoop_passes_over mem.env 3 more.dropping
              (mkRebaseState "refs/heads/main" "base000" "c7ggggg"
                 ["drop c6fffff add b"; "exec make"; "drop c7ggggg delete b"] 1))
    as (Hrun & Hc & _ & Hi & _).
  - reflexivity.
  - simpl. lia.
  - repeat constructor.
  - simpl. lia.
  - rewrite Hc, Hi, Hrun. split; [by vm_compute|]. split; [by vm_compute|]. by split.
Defined.

Lemma Rebase_nothing_to_continue_witness :
  RebaseContinue mem.env 3 sample.repo = (Err (Errorf "no rebase in progress"), sample.repo)
  ∧ RebaseAbort mem.env sample.repo = (Err (Errorf "no rebase in progress"), sample.repo).
Proof.
  destruct (Rebase_nothing_to_continue mem.env 3 sample.repo) as [H1 H2]; [by left|].
  split; [exact H1 | by apply H2].
Defined.

Lemma RebaseContinue_other_action_witness :
  RebaseContinue mem.env 3 more.resolved_short
  = RunRebaseLoop mem.env 3
      (set_rebase_state
         (Some (mkRebaseState "refs/heads/main" "c3ccccc" "c1aaaaa" ["p c1aaaaa one"] 1))
         more.resolved_short)
  ∧ commits (RebaseContinue mem.env 3 more.resolved_short).2 = commits more.resolved_short.
Proof.
  pose proof (RebaseContinue_other_action mem.env 3 more.resolved_short
                (mkRebaseState "refs/heads/main" "c3ccccc" "c1aaaaa" ["p c1aaaaa one"] 0)
                "p c1aaaaa one" "p" ["c1aaaaa"; "one"]) as H.
  split; [|by vm_compute].
  rewrite H; [reflexivity..|].
  intros _. apply (bool_decide_unpack _). by vm_compute.
Defined.

Lemma RebaseAbort_success_witness :
  ∃ st c T,
    rebase_state sample.conflicting = Some st
    ∧ FindCommit (OrigHead st) sample.conflicting = (Ok c, sample.conflicting)
    ∧ (ParseTree mem.env (TreeHash c) sample.conflicting).1 = Ok T
    ∧ index (RebaseAbort mem.env sample.conflicting).2 = T
    ∧ HEAD (RebaseAbort mem.env sample.conflicting).2
      = Some (if decide (HeadName st ≠ EmptyString) then "ref: " +:+ HeadName st
              else OrigHead st)
    ∧ refs (RebaseAbort mem.env sample.conflicting).2
      = delete ("refs/heads/" +:+ tmpBranch)
          (if decide (HeadName st ≠ EmptyString)
           then <[HeadName st := OrigHead st]> (refs sample.conflicting)
           else refs sample.conflicting)
    ∧ rebase_state (RebaseAbort mem.env sample.conflicting).2 = None
    ∧ rebase_todo (RebaseAbort mem.env sample.conflicting).2 = None
    ∧ commits (RebaseAbort mem.env sample.conflicting).2 = commits sample.conflicting.
Proof.
  apply (RebaseAbort_success mem.env sample.conflicting). by vm_compute.
Defined.

Lemma getCommitsBetween_no_start_witness :
  getCommitsBetween 3 EmptyString "c2bbbbb" sample.repo
  = (Ok ["c2bbbbb"; "c1aaaaa"; "base000"], sample.repo)
  ∧ head ["c2bbbbb"; "c1aaaaa"; "base000"] = Some "c2bbbbb".
Proof.
  apply (getCommitsBetween_no_start sample.repo "c2bbbbb" ["c2bbbbb"; "c1aaaaa"; "base000"] 3);
    [exact sample_walk_to_root | simpl; lia].
Defined.

Lemma StashList_reads_witness :
  (StashList more.stashed).2 = more.stashed ∧ (StashList more.stashed).1 = Ok tt.
Proof.
  destruct (StashList_reads more.stashed) as [Hs Hiff]. split; [exact Hs|].
  apply Hiff; [reflexivity|]. repeat constructor; by eexists.
Defined.

Lemma rebase_replay_without_steps_witness :
  ∃ todo,
    generateTodo ["c1aaaaa"] sample.repo = (Ok todo, sample.repo)
    ∧ rebase_replay more.emptying_env 3 sample.c_base "c1aaaaa" "refs/heads/main" ["c1aaaaa"]
        sample.repo
      = (Ok tt, set_rebase_todo (Some EmptyString) sample.repo).
Proof.
  eexists. split; [reflexivity|].
  rewrite (rebase_replay_without_steps more.emptying_env 3 sample.c_base "c1aaaaa"
             "refs/heads/main" ["c1aaaaa"] sample.repo _ eq_refl eq_refl); [reflexivity|].
  intros new Hnew. vm_compute in Hnew. by injection Hnew as <-.
Defined.

Lemma rebase_replay_starts_witness :
  ∃ todo,
    generateTodo ["c1aaaaa"; "c2bbbbb"] sample.repo = (Ok todo, sample.repo)
    ∧ rebase_replay mem.env 3 sample.c_base "c2bbbbb" "refs/heads/main"
        ["c1aaaaa"; "c2bbbbb"] sample.repo
      = (on_err (wrap "failed to checkout base: ") (UpdateWorkspaceAndIndex mem.env "base000");;
         RunRebaseLoop mem.env 3)
          (set_HEAD (Some "ref: refs/heads/kitcat-rebase-tmp")
             (set_refs (<["refs/heads/kitcat-rebase-tmp" := "base000"]> (refs sample.repo))
                (set_rebase_state
                   (Some (mkRebaseState "refs/heads/main" "base000" "c2bbbbb"
                            ["pick c1aaaaa one"; "pick c2bbbbb two"] 0))
                   (set_rebase_todo (Some todo) sample.repo)))).
Proof.
  eexists. split; [reflexivity|].
  apply (rebase_replay_starts mem.env 3 sample.c_base "c2bbbbb" "refs/heads/main"
           ["c1aaaaa"; "c2bbbbb"] [sample.c_one; sample.c_two] sample.repo);
    [reflexivity | done | repeat constructor; by compute | reflexivity | by vm_compute].
Defined.

Lemma cmd_stash_falls_back_witness :
  cmd_stash mem.env more.parse_digit ["apply"] sample.dirty_stashed
  = exit_after (Stash mem.env) sample.dirty_stashed
  ∧ length (stash (cmd_stash mem.env more.parse_digit ["apply"] sample.dirty_stashed).2) = 2.
Proof.
  pose proof (cmd_stash_falls_back mem.env more.parse_digit ["apply"] sample.dirty_stashed)
    as H.
  split; [|by vm_compute].
  apply H; [apply (bool_decide_unpack _); by vm_compute | done].
Defined.

Lemma getEditor_fails_iff_witness :
  ∃ err, getEditor more.no_editor_env = inl err.
Proof.
  apply (getEditor_fails_iff more.no_editor_env).
  split; [reflexivity|]. split; [done|]. by repeat constructor.
Defined.

Lemma RemoveFile_recursive_witness :
  RemoveFile mem.env "src" true more.with_dir
  = (Ok tt,
     set_index {[ "a" := "one"; "srcfile" := "one" ]}
       (set_worktree {[ "a" := "one"; "src/notes" := "draft"; "srcfile" := "one" ]}
          more.with_dir)).
Proof.
  rewrite (RemoveFile_recursive mem.env mem_range_ok "src" more.with_dir eq_refl eq_refl).
  by vm_compute.
Defined.

Lemma cherryPick_onto_parent_witness :
  ∃ w',
    cherryPick mem.env "c1aaaaa" true sample.repo = (Ok tt, w')
    ∧ index w' = {[ "a" := "two" ]}
    ∧ (∀ path, worktree w' !! path
               = if decide (({[ "a" := "one" ]} : gmap string string) !! path
                            = ({[ "a" := "two" ]} : gmap string string) !! path)
                 then worktree sample.repo !! path
                 else h ← ({[ "a" := "two" ]} : gmap string string) !! path;
                      objects sample.repo !! h)
    ∧ w' = set_index (index w') (set_worktree (worktree w') sample.repo).
Proof.
  apply (cherryPick_onto_parent mem.env mem_range_ok sample.repo "c1aaaaa"
           {[ "a" := "one" ]} {[ "a" := "two" ]}).
  - exists sample.c_one, sample.c_base, sample.c_two. repeat split; by vm_compute.
  - reflexivity.
  - intros path Hp. split; [done|].
    assert (path = "a") as ->; [|done].
    destruct Hp as [[x Hx]|[x Hx]]; apply lookup_singleton_Some in Hx as [<- _]; done.
  - intros path h [<- <-]%lookup_singleton_Some. split; [done|]. by exists "two".
Defined.

Lemma finishRebase_result_witness :
  ∃ w',
    finishRebase mem.env
      (mkRebaseState EmptyString "base000" "c7ggggg" ["drop c6fffff add b"] 1)
      more.finishing_detached = (Ok tt, w')
    ∧ HEAD w' = Some "ref: refs/heads/kitcat-rebase-tmp"
    ∧ refs w' !! "refs/heads/kitcat-rebase-tmp" = None.
Proof.
  pose proof (finishRebase_result mem.env
                (mkRebaseState EmptyString "base000" "c7ggggg" ["drop c6fffff add b"] 1)
                more.finishing_detached eq_refl) as H.
  change (mem.readHead more.finishing_detached) with (@inr error string "base000") in H.
  destruct H as (w' & Hrun & Hhead & Hrefs & _).
  exists w'. split; [exact Hrun|]. split; [exact Hhead|]. rewrite Hrefs. by vm_compute.
Defined.

Lemma RebaseInteractive_refuses_witness :
  RebaseInteractive mem.env 3 "base000" sample.dirty_stashed
  = (Err (Errorf "cannot rebase: you have unstaged changes"), sample.dirty_stashed).
Proof.
  rewrite (RebaseInteractive_refuses mem.env 3 "base000" sample.dirty_stashed eq_refl);
    [reflexivity|]. by left.
Defined.

Lemma cmd_rebase_usage_witness :
  cmd_rebase mem.env 3 ["-i"] sample.repo = (Ok 2%Z, sample.repo).
Proof. apply (cmd_rebase_usage mem.env 3 ["-i"] sample.repo). by right. Defined.
